(** * UCNet protocol scripts of FaderBridge: frame codec, parameter codec,
      session token handling and bulk-block path extraction.

    The Python scripts under [scripts/] are embedded as Rocq functions:
    [bytes] objects are lists of [byte], Python integers are [Z], Python
    [str] objects are lists of code points, dictionaries are [gmap]s, and
    a Python exception is the [Raise] branch of the [result] monad.  Each
    [while] loop is split into its body (a plain definition) and a driver
    defined by well-founded recursion on the distance to the end of the
    buffer. *)

From stdpp Require Import base list gmap sorting strings.
From Equations Require Import Equations.
From Stdlib Require Import ZArith Lia.
From Stdlib Require Import Strings.Byte Strings.Ascii.

#[local] Open Scope Z_scope.

(** ** Python values *)

Abbreviation bytes := (list byte).

(** A Python [str]: the sequence of its Unicode code points. *)
Abbreviation str := (list Z).

#[global] Instance byte_eq_dec : EqDecision byte := Byte.byte_eq_dec.

Definition len {A : Type} (l : list A) : Z := Z.of_nat (length l).

(** Integer value of a byte, as obtained by indexing or iterating [bytes]. *)
Definition byte_val (b : byte) : Z := Z.of_N (Byte.to_N b).

(** [bytes([z])] for [0 <= z < 256]; callers reduce modulo 256 first. *)
Definition byte_of (z : Z) : byte :=
  default Byte.x00 (Byte.of_N (Z.to_N (z mod 256))).

(** Code points of a Rocq string literal, used to write Python literals. *)
Definition str_of (s : String.string) : str :=
  (λ c, Z.of_N (N_of_ascii c)) <$> String.list_ascii_of_string s.

(** Bytes of a Rocq string literal: a Python [b'...'] literal. *)
Definition bytes_of (s : String.string) : bytes :=
  String.list_byte_of_string s.

Arguments str_of s%_string.
Arguments bytes_of s%_string.

(** ** Exceptions *)

Inductive exn : Type :=
| StructError          (* struct.error *)
| UnicodeEncodeError   (* str.encode('ascii') on a non-ASCII string *)
| UnicodeDecodeError   (* bytes.decode('utf-8') on ill-formed input *)
| OverflowError.       (* struct.pack('<f', v) with v out of single range *)

Inductive result (A : Type) : Type :=
| Ok (a : A)
| Raise (e : exn).
Arguments Ok {A} a.
Arguments Raise {A} e.

#[global] Instance result_ret : MRet result := λ A a, Ok a.
#[global] Instance result_bind : MBind result := λ A B f m,
  match m with
  | Ok a => f a
  | Raise e => Raise e
  end.

#[global] Instance result_fmap : FMap result := λ A B f m,
  match m with
  | Ok a => Ok (f a)
  | Raise e => Raise e
  end.

(** ** Slicing and searching *)

(** Normalisation of a slice bound against a sequence of length [n]:
    negative bounds count from the end, everything is clamped to [0, n]. *)
Definition clamp_index (n i : Z) : Z :=
  if decide (i < 0) then Z.max 0 (i + n) else Z.min i n.

(** [l[lo:hi]] *)
Definition slice {A : Type} (l : list A) (lo hi : Z) : list A :=
  let lo' := clamp_index (len l) lo in
  let hi' := clamp_index (len l) hi in
  take (Z.to_nat (hi' - lo')) (drop (Z.to_nat lo') l).

(** [l[lo:]] *)
Definition slice_from {A : Type} (l : list A) (lo : Z) : list A :=
  slice l lo (len l).

(** [l[:hi]] *)
Definition slice_to {A : Type} (l : list A) (hi : Z) : list A :=
  slice l 0 hi.

Fixpoint starts_with (sub data : bytes) : bool :=
  match sub, data with
  | [], _ => true
  | _ :: _, [] => false
  | x :: sub', y :: data' => bool_decide (x = y) && starts_with sub' data'
  end.

(** Search of [sub] in [data], where [data] is the part of the buffer that
    begins at absolute index [i]; [-1] when there is no occurrence. *)
Fixpoint find_at (sub data : bytes) (i : Z) : Z :=
  if starts_with sub data then i
  else match data with
       | [] => -1
       | _ :: data' => find_at sub data' (i + 1)
       end.

(** [data.find(sub, start)] *)
Definition find (data sub : bytes) (start : Z) : Z :=
  if decide (start > len data) then -1
  else let s := clamp_index (len data) start in
       find_at sub (drop (Z.to_nat s) data) s.

(** [sub in data] *)
Definition contains (data sub : bytes) : bool :=
  bool_decide (find data sub 0 ≠ -1).

(** ** The [struct] module, integer formats *)

(** [struct.pack('<H', n)] *)
Definition pack_H (n : Z) : result bytes :=
  if decide (0 ≤ n ≤ 65535)
  then Ok [byte_of (n mod 256); byte_of (n / 256)]
  else Raise StructError.

(** [struct.unpack('<H', b)[0]] *)
Definition unpack_H (b : bytes) : result Z :=
  match b with
  | [b0; b1] => Ok (byte_val b0 + 256 * byte_val b1)
  | _ => Raise StructError
  end.

(** [struct.pack('<I', n)] *)
Definition pack_I (n : Z) : result bytes :=
  if decide (0 ≤ n ≤ 4294967295)
  then Ok [byte_of (n mod 256); byte_of (n / 256 mod 256);
           byte_of (n / 65536 mod 256); byte_of (n / 16777216)]
  else Raise StructError.

(** [struct.unpack('<I', b)[0]] *)
Definition unpack_I (b : bytes) : result Z :=
  match b with
  | [b0; b1; b2; b3] =>
      Ok (byte_val b0 + 256 * byte_val b1 + 65536 * byte_val b2
          + 16777216 * byte_val b3)
  | _ => Raise StructError
  end.

(** ** Text codecs *)

(** [s.encode('ascii')] *)
Definition encode_ascii (s : str) : result bytes :=
  if bool_decide (Forall (λ c, 0 ≤ c < 128) s)
  then Ok (byte_of <$> s)
  else Raise UnicodeEncodeError.

(** [b.decode('ascii', errors='replace')]: every byte outside the ASCII
    range becomes U+FFFD. *)
Definition decode_ascii_replace (b : bytes) : str :=
  (λ x, if decide (byte_val x < 128) then byte_val x else 65533) <$> b.

(** ** Frames *)

Definition MAGIC : bytes := [Byte.x55; Byte.x43; Byte.x00; Byte.x01].
Definition TYPE_HELLO : bytes := [Byte.x55; Byte.x4d].
Definition TYPE_JSON : bytes := [Byte.x4a; Byte.x4d].
Definition TYPE_PV : bytes := [Byte.x50; Byte.x56].
Definition TYPE_KA : bytes := [Byte.x4b; Byte.x41].
Definition TYPE_PS : bytes := [Byte.x50; Byte.x53].

(** [build_packet] of discover_parameters.py, listen_params.py and
    test_mixer_control.py. *)
Definition build_packet (ptype payload : bytes) : result bytes :=
  size ← pack_H (2 + len payload);
  mret (MAGIC ++ size ++ ptype ++ payload).

(** [build_hello] *)
Definition build_hello : result bytes :=
  build_packet TYPE_HELLO
    [Byte.x00; Byte.x00; Byte.x65; Byte.x00; Byte.x15; Byte.xfa].

(** ** Scanning a buffer for frames

    The three buffer scanners ([parse_packets] of discover_parameters.py
    and listen_params.py, [find_packets] of parse_zb_packets.py) share one
    loop; they differ in what they do with a frame once it is delimited.
    [scan_step] is one iteration of that loop. *)

Inductive step (S A : Type) : Type :=
| Break                       (* leave the loop *)
| Continue (s : S)            (* next iteration, nothing produced *)
| Produce (x : A) (s : S)     (* something was produced, next iteration *)
| Throw (e : exn).
Arguments Break {S A}.
Arguments Continue {S A} s.
Arguments Produce {S A} x s.
Arguments Throw {S A} e.

(** What the body of the loop sees of a delimited frame. *)
Record raw_frame : Type := RawFrame {
  rf_idx : Z;
  rf_size : Z;
  rf_ptype : bytes;
  rf_payload : bytes
}.

Definition scan_step (data : bytes) (pos : Z) : step Z raw_frame :=
  if decide (pos < len data - 8) then
    let idx := find data MAGIC pos in
    if decide (idx = -1) then Break
    else if decide (idx + 8 > len data) then Break
    else
      match unpack_H (slice data (idx + 4) (idx + 6)) with
      | Raise e => Throw e
      | Ok size =>
          let ptype := slice data (idx + 6) (idx + 8) in
          if decide (idx + 6 + size > len data) then Continue (idx + 1)
          else
            let payload := slice data (idx + 8) (idx + 6 + size) in
            Produce (RawFrame idx size ptype payload) (idx + 6 + size)
      end
  else Break.

Definition inspect {A : Type} (a : A) : {b : A | a = b} := exist _ a eq_refl.

Lemma find_at_lower sub data i : find_at sub data i ≠ -1 → 0 ≤ i → i ≤ find_at sub data i.
Proof.
  revert i. induction data as [|b data IH]; intros i; simpl.
  - destruct (starts_with sub []); [lia | congruence].
  - destruct (starts_with sub (b :: data)); [lia |].
    intros Hne Hi. specialize (IH (i + 1) Hne). lia.
Qed.

Lemma find_lower data sub start :
  find data sub start ≠ -1 → start ≤ find data sub start ∧ 0 ≤ find data sub start.
Proof.
  unfold find, clamp_index, len. intros Hne.
  repeat case_decide; try congruence;
    apply find_at_lower in Hne; lia.
Qed.

Lemma unpack_H_range b n : unpack_H b = Ok n → 0 ≤ n ≤ 65535.
Proof.
  destruct b as [|b0 [|b1 [|? ?]]]; simpl; try discriminate.
  intros [= <-]. unfold byte_val.
  pose proof (Byte.to_N_bounded b0). pose proof (Byte.to_N_bounded b1). lia.
Qed.

Lemma scan_step_progress data pos :
  match scan_step data pos with
  | Continue pos' | Produce _ pos' => pos < pos' ∧ pos < len data
  | _ => True
  end.
Proof.
  unfold scan_step. repeat case_decide; try done.
  destruct (unpack_H _) as [size|] eqn:Hsz; [|done].
  apply unpack_H_range in Hsz.
  match goal with H : find _ _ _ ≠ -1 |- _ => apply find_lower in H end.
  case_decide; lia.
Qed.

Section scan.
Context {A : Type} (handle : raw_frame → result (list A)).

Equations? scan (data : bytes) (pos : Z) : result (list A)
  by wf (Z.to_nat (len data - pos)) lt :=
  scan data pos with inspect (scan_step data pos) := {
    | exist _ Break _ => Ok [];
    | exist _ (Throw e) _ => Raise e;
    | exist _ (Continue pos') Hstep => scan data pos';
    | exist _ (Produce f pos') Hstep =>
        xs ← handle f; rest ← scan data pos'; mret (xs ++ rest) }.
Proof.
  all: pose proof (scan_step_progress data pos) as Hp;
    rewrite Hstep in Hp; lia.
Qed.

End scan.

Record packet : Type := Packet {
  pkt_offset : Z;
  pkt_size : Z;
  pkt_type : bytes;
  pkt_type_str : str;
  pkt_payload : bytes
}.

Definition packet_of (f : raw_frame) : packet :=
  Packet (rf_idx f) (rf_size f) (rf_ptype f)
         (decode_ascii_replace (rf_ptype f)) (rf_payload f).

(** [parse_packets] of discover_parameters.py; [find_packets] of
    parse_zb_packets.py is the same function. *)
Definition parse_packets (data : bytes) : result (list packet) :=
  scan (λ f, Ok [packet_of f]) data 0.

Definition find_packets (data : bytes) : result (list packet) :=
  parse_packets data.

(** [p] ends, in the buffer, at or before the offset where [q] starts. *)
Definition frame_before (p q : packet) : Prop :=
  pkt_offset p + 6 + pkt_size p ≤ pkt_offset q.

(** ** The Python runtime taken as given

    The scripts call two codecs whose internals are not theirs: the
    single-precision format of [struct] and the UTF-8 codec.
    [struct.pack('<f', v)] rounds the Python float to single precision and
    returns its four bytes, or raises when a finite [v] is too large;
    [struct.unpack('<f', b)] accepts exactly four bytes. *)
Class PyRuntime : Type := {
  pyfloat : Type;
  pack_f : pyfloat → result bytes;
  unpack_f : bytes → result pyfloat;
  decode_utf8_replace : bytes → str;   (* b.decode('utf-8', errors='replace') *)
  decode_utf8 : bytes → result str;    (* b.decode('utf-8') *)
  pack_f_len : ∀ v b, pack_f v = Ok b → len b = 4;
  unpack_f_ok : ∀ b, len b = 4 → ∃ v, unpack_f b = Ok v;
  unpack_f_short : ∀ b, len b ≠ 4 → unpack_f b = Raise StructError
}.

(** A runtime for closed examples: its floats are the single-precision
    values themselves, each given by its IEEE-754 bit pattern (0.5 is
    [0x3f000000]), and its UTF-8 codec is the ASCII one, with which it
    agrees on ASCII text. *)
Definition bits_pack_f (v : Z) : result bytes :=
  match pack_I v with
  | Ok b => Ok b
  | Raise _ => Raise OverflowError
  end.

Lemma bits_pack_f_len v b : bits_pack_f v = Ok b → len b = 4.
Proof.
  unfold bits_pack_f, pack_I. case_decide; [|done]. by intros [= <-].
Qed.

Lemma unpack_I_ok b : len b = 4 → ∃ v, unpack_I b = Ok v.
Proof.
  destruct b as [|b0 [|b1 [|b2 [|b3 [|b4 b]]]]]; unfold len; simpl;
    try lia. by eexists.
Qed.

Lemma unpack_I_short b : len b ≠ 4 → unpack_I b = Raise StructError.
Proof.
  destruct b as [|b0 [|b1 [|b2 [|b3 [|b4 b]]]]]; unfold len; simpl;
    try done.
Qed.

Definition bits_runtime : PyRuntime := {|
  pyfloat := Z;
  pack_f := bits_pack_f;
  unpack_f := unpack_I;
  decode_utf8_replace := decode_ascii_replace;
  decode_utf8 := λ b, Ok (decode_ascii_replace b);
  pack_f_len := bits_pack_f_len;
  unpack_f_ok := unpack_I_ok;
  unpack_f_short := unpack_I_short
|}.

(** The one law of the single-precision codec on which the recovery of a
    value rests, true of [struct]: a value read from four bytes, packed
    again, reads back as itself.  A codec that loses what it packs (one
    that packs every value to zero, say) does not meet it.  The law is
    kept apart from [PyRuntime]: only the round trip of values needs it. *)
Class PySingle `{PyRuntime} : Prop := {
  unpack_f_stable : ∀ b v b',
    unpack_f b = Ok v → pack_f v = Ok b' → unpack_f b' = Ok v
}.

(** [v] is representable in single precision: it is the value that
    [struct.unpack('<f', b)] gives for some bytes [b]. *)
Definition single `{PyRuntime} (v : pyfloat) : Prop :=
  ∃ b, unpack_f b = Ok v.

(** A second runtime for closed examples, in which packing rounds: its
    values are integers and the four bytes hold a value without its lowest
    bit, so that only the even values are representable and an odd value
    reads back as the even one below it. *)
Definition coarse_pack_f (v : Z) : result bytes := bits_pack_f (v / 2).

Definition coarse_unpack_f (b : bytes) : result Z :=
  match unpack_I b with
  | Ok n => Ok (2 * n)
  | Raise e => Raise e
  end.

Lemma coarse_pack_f_len v b : coarse_pack_f v = Ok b → len b = 4.
Proof. apply bits_pack_f_len. Qed.

Lemma coarse_unpack_f_ok b : len b = 4 → ∃ v, coarse_unpack_f b = Ok v.
Proof.
  intros Hb. unfold coarse_unpack_f.
  destruct (unpack_I_ok b Hb) as [n ->]. by eexists.
Qed.

Lemma coarse_unpack_f_short b :
  len b ≠ 4 → coarse_unpack_f b = Raise StructError.
Proof.
  intros Hb. unfold coarse_unpack_f. by rewrite (unpack_I_short b Hb).
Qed.

Definition coarse_runtime : PyRuntime := {|
  pyfloat := Z;
  pack_f := coarse_pack_f;
  unpack_f := coarse_unpack_f;
  decode_utf8_replace := decode_ascii_replace;
  decode_utf8 := λ b, Ok (decode_ascii_replace b);
  pack_f_len := coarse_pack_f_len;
  unpack_f_ok := coarse_unpack_f_ok;
  unpack_f_short := coarse_unpack_f_short
|}.

Section codec.
Context `{PyRuntime}.

(** ** Parameter frames *)

Definition NUL : bytes := [Byte.x00].

(** The client-chosen token of discover_parameters.py and
    test_mixer_control.py: [b'\x72\x00\x65\x00']. *)
Definition UC_CBYTES : bytes := [Byte.x72; Byte.x00; Byte.x65; Byte.x00].

(** [build_pv(key, value, cbytes)] *)
Definition build_pv (key : str) (value : pyfloat) (cbytes : bytes)
  : result bytes :=
  key_ascii ← encode_ascii key;
  let key_bytes := key_ascii ++ NUL in
  let padding := [Byte.x00; Byte.x00] in
  val_bytes ← pack_f value;
  let payload := cbytes ++ key_bytes ++ padding ++ val_bytes in
  build_packet TYPE_PV payload.

(** What [parse_packets] of listen_params.py yields. *)
Inductive update : Type :=
| UpdPV (key : str) (value : pyfloat)    (* ('PV', key, value) *)
| UpdPS (key : str) (value : str).       (* ('PS', key, value) *)

(** Body of the loop of [parse_packets] of listen_params.py, from the
    point where the frame is delimited. *)
Definition listen_frame (f : raw_frame) : result (list update) :=
  let payload := rf_payload f in
  if decide (rf_ptype f = TYPE_PV) then
    let key_start := 4 in
    let null_idx := find payload NUL key_start in
    if decide (null_idx > key_start ∧ len payload >= null_idx + 7) then
      let key := decode_ascii_replace (slice payload key_start null_idx) in
      value ← unpack_f (slice_from payload (-4));
      mret [UpdPV key value]
    else mret []
  else if decide (rf_ptype f = TYPE_PS) then
    let key_start := 4 in
    let null_idx := find payload NUL key_start in
    if decide (null_idx > key_start) then
      let key := decode_ascii_replace (slice payload key_start null_idx) in
      let val_start := null_idx + 3 in
      let val_end := find payload NUL val_start in
      if decide (val_end > val_start) then
        let value := decode_utf8_replace (slice payload val_start val_end) in
        mret [UpdPS key value]
      else mret []
    else mret []
  else mret [].

(** [parse_packets] of listen_params.py; the generator is run to its end. *)
Definition listen_parse_packets (data : bytes) : result (list update) :=
  scan listen_frame data 0.

(** One iteration of the loop of [extract_pv_params]. *)
Definition extract_pv_step (params : gmap str pyfloat) (pkt : packet)
  : gmap str pyfloat :=
  if decide (pkt_type pkt = TYPE_PV) then
    let payload := pkt_payload pkt in
    if decide (len payload < 10) then params
    else
      let key_start := 4 in
      let null_idx := find payload NUL key_start in
      if decide (null_idx = -1) then params
      else
        let key := decode_ascii_replace (slice payload key_start null_idx) in
        if decide (len payload >= null_idx + 7) then
          match unpack_f (slice_from payload (-4)) with
          | Ok value => <[key := value]> params
          | Raise _ => params                      (* except: pass *)
          end
        else params
  else params.

(** [extract_pv_params] *)
Definition extract_pv_params (packets : list packet) : gmap str pyfloat :=
  foldl extract_pv_step ∅ packets.

(** One iteration of the loop of [extract_ps_params]. *)
Definition extract_ps_step (params : gmap str str) (pkt : packet)
  : gmap str str :=
  if decide (pkt_type pkt = TYPE_PS) then
    let payload := pkt_payload pkt in
    if decide (len payload < 10) then params
    else
      let key_start := 4 in
      let null_idx := find payload NUL key_start in
      if decide (null_idx = -1) then params
      else
        let key := decode_ascii_replace (slice payload key_start null_idx) in
        let val_start := null_idx + 3 in
        let val_end := find payload NUL val_start in
        let val_end := if decide (val_end = -1) then len payload else val_end in
        let value := decode_ascii_replace (slice payload val_start val_end) in
        <[key := value]> params
  else params.

(** [extract_ps_params] *)
Definition extract_ps_params (packets : list packet) : gmap str str :=
  foldl extract_ps_step ∅ packets.

End codec.

(** A path of 65523 letters [a]: one more than fits in a frame. *)
Definition long_path : str := replicate (Z.to_nat 65523) 97.

(** ** The receive loop of test_ucdaemon_control.py *)

Record upacket : Type := UPacket {
  up_size : Z;
  up_type : bytes;
  up_type_str : str;
  up_payload : bytes
}.

(** [parse_ucnet_packet]; [None] is Python's [None]. *)
Definition parse_ucnet_packet (data : bytes) : result (option upacket) :=
  if decide (len data < 8) then mret None
  else if decide (slice_to data 4 ≠ MAGIC) then mret None
  else
    size ← unpack_H (slice data 4 6);
    let ptype := slice data 6 8 in
    let payload :=
      if decide (len data >= 8 + size - 2) then slice data 8 (8 + size - 2)
      else [] in
    mret (Some (UPacket size ptype (decode_ascii_replace ptype) payload)).

(** One iteration of the inner loop of [_receive_loop]: the state is the
    receive buffer, and what is produced is the packet passed to
    [_handle_packet]. *)
Definition recv_step (buffer : bytes) : step bytes upacket :=
  if decide (len buffer >= 8) then
    if decide (slice_to buffer 4 ≠ MAGIC) then
      let idx := find buffer MAGIC 1 in
      if decide (idx > 0) then Continue (slice_from buffer idx)
      else Continue []
    else
      match unpack_H (slice buffer 4 6) with
      | Raise e => Throw e
      | Ok size =>
          let packet_len := 6 + size in
          if decide (len buffer >= packet_len) then
            let packet_data := slice_to buffer packet_len in
            let buffer' := slice_from buffer packet_len in
            match parse_ucnet_packet packet_data with
            | Raise e => Throw e
            | Ok (Some pkt) => Produce pkt buffer'
            | Ok None => Continue buffer'
            end
          else Break
      end
  else Break.

Lemma slice_from_shorter {A : Type} (l : list A) (i : Z) :
  0 < i → 0 < len l → (length (slice_from l i) < length l)%nat.
Proof.
  intros Hi Hl. unfold slice_from, slice, clamp_index, len in *.
  repeat case_decide; try lia.
  rewrite length_take, length_drop. lia.
Qed.

Lemma recv_step_progress buffer :
  match recv_step buffer with
  | Continue b' | Produce _ b' => (length b' < length buffer)%nat
  | _ => True
  end.
Proof.
  unfold recv_step. case_decide; [|done].
  assert (0 < len buffer) by lia.
  case_decide.
  - case_decide; [apply slice_from_shorter; lia |].
    unfold len in *. simpl. lia.
  - destruct (unpack_H _) as [size|] eqn:Hsz; [|done].
    apply unpack_H_range in Hsz.
    case_decide; [|done].
    destruct (parse_ucnet_packet _) as [[pkt|]|]; [| |done];
      apply slice_from_shorter; lia.
Qed.

(** The inner loop of [_receive_loop], run on the buffer obtained after a
    [recv]: the packets handled, in order, and the bytes left over. *)
Equations? recv_drain (buffer : bytes) : result (list upacket * bytes)
  by wf (length buffer) lt :=
  recv_drain buffer with inspect (recv_step buffer) := {
    | exist _ Break _ => Ok ([], buffer);
    | exist _ (Throw e) _ => Raise e;
    | exist _ (Continue buffer') Hstep => recv_drain buffer';
    | exist _ (Produce pkt buffer') Hstep =>
        r ← recv_drain buffer'; mret (pkt :: r.1, r.2) }.
Proof.
  all: pose proof (recv_step_progress buffer) as Hp;
    rewrite Hstep in Hp; exact Hp.
Qed.

(** [build_keepalive_packet] of test_ucnet_network.py: a frame with an
    empty payload. *)
Definition build_keepalive_packet : result bytes :=
  build_packet TYPE_KA [].

(** ** The single-frame decoder of monitor_and_send.py *)

Record mpacket : Type := MPacket {
  mp_type : str;
  mp_size : Z;
  mp_payload : bytes
}.

(** [parse_packet(data, offset)]: the packet, or [None], and the new
    offset. *)
Definition parse_packet (data : bytes) (offset : Z)
  : result (option mpacket * Z) :=
  if decide (len data < offset + 8) then mret (None, offset)
  else if decide (slice data offset (offset + 4) ≠ MAGIC)
  then mret (None, offset + 1)
  else
    size ← unpack_H (slice data (offset + 4) (offset + 6));
    let ptype := decode_ascii_replace (slice data (offset + 6) (offset + 8)) in
    if decide (len data < offset + 6 + size) then mret (None, offset)
    else
      let payload := slice data (offset + 8) (offset + 6 + size) in
      mret (Some (MPacket ptype size payload), offset + 6 + size).

(** The keepalive frame: [55 43 00 01 02 00 4b 41]. *)
Definition KA_FRAME : bytes :=
  MAGIC ++ [Byte.x02; Byte.x00] ++ TYPE_KA.

(** A frame header that declares 65535 bytes, of which only 14 are there:
    the type [ZB] and a complete 12-byte keepalive frame with payload
    [6a 00 65 00]. *)
Definition TRUNCATED_ZB : bytes :=
  MAGIC ++ [Byte.xff; Byte.xff] ++ [Byte.x5a; Byte.x42]
    ++ MAGIC ++ [Byte.x06; Byte.x00] ++ TYPE_KA
    ++ [Byte.x6a; Byte.x00; Byte.x65; Byte.x00].

(** A parameter payload that the decoders of discover_parameters.py
    reject: no NUL terminates the path after the 4-byte token, or the
    payload is shorter than the minimum of 10 bytes they require. *)
Definition malformed (payload : bytes) : Prop :=
  find payload NUL 4 = -1 ∨ len payload < 10.

(** A 9-byte string payload: token [72 00 65 00], path [a], NUL, two
    padding bytes and the value [x]. *)
Definition PS_SHORT : bytes :=
  UC_CBYTES ++ bytes_of "a" ++ NUL ++ [Byte.x00; Byte.x00] ++ bytes_of "x".

(** A 5-byte float payload without terminator. *)
Definition PV_NO_NUL : bytes := UC_CBYTES ++ bytes_of "a".

(** An 11-byte string payload: token, path [ab], NUL, two padding bytes
    and the unterminated value [xy]. *)
Definition PS_GOOD : bytes :=
  UC_CBYTES ++ bytes_of "ab" ++ NUL ++ [Byte.x00; Byte.x00] ++ bytes_of "xy".

Definition BAD_PACKET : packet := Packet 0 7 TYPE_PV (str_of "PV") PV_NO_NUL.
Definition GOOD_PACKET : packet := Packet 13 13 TYPE_PS (str_of "PS") PS_GOOD.

(** ** JSON frames *)

(** Bytes of a JSON text written with apostrophes in place of the double
    quotes. *)
Definition json_of (s : String.string) : bytes :=
  (λ b, if decide (b = Byte.x27) then Byte.x22 else b) <$> bytes_of s.
Arguments json_of s%_string.

(** What the JM branch prints, in replay_uc_packet.py: the text, or the
    line [(decode error)] when strict decoding raises under the bare
    [except]. *)
Inductive jm_line : Type :=
| JsonLine (s : str)
| DecodeErrorLine.

Section json.
Context `{PyRuntime}.

(** The JM branch of [receiver_thread] (monitor_and_send.py) and of [main]
    (dump_state.py): the decoded text [json_data] (dump_state.py prints it
    whole, monitor_and_send.py its first 100 characters), or [None] when
    the payload is not longer than 8 bytes and the branch does nothing. *)
Definition jm_json_text (payload : bytes) : result (option str) :=
  if decide (len payload > 8) then
    json_len ← unpack_I (slice payload 4 8);
    let json_data := decode_utf8_replace (slice payload 8 (8 + json_len)) in
    mret (Some json_data)
  else mret None.

(** The JM branch of the scan of [main] in replay_uc_packet.py. *)
Definition jm_json_line (payload : bytes) : result (option jm_line) :=
  if decide (len payload > 8) then
    json_len ← unpack_I (slice payload 4 8);
    let json_data := slice payload 8 (8 + json_len) in
    mret (Some (match decode_utf8 json_data with
                | Ok s => JsonLine s
                | Raise _ => DecodeErrorLine
                end))
  else mret None.

(** ** The session token and the frames sent with it *)

Definition SUBSCRIPTION_REPLY : bytes := bytes_of "SubscriptionReply".

(** The default of test_mixer_control.py and of [test_parameter]:
    [b'\x65\x00\x6a\x00']. *)
Definition DEFAULT_SESSION_CBYTES : bytes :=
  [Byte.x65; Byte.x00; Byte.x6a; Byte.x00].

(** A JM frame header begins at [i]. *)
Definition json_header_at (state : bytes) (i : Z) : Prop :=
  slice state i (i + 4) = MAGIC ∧ slice state (i + 6) (i + 8) = TYPE_JSON.

#[global] Instance json_header_at_dec state i : Decision (json_header_at state i).
Proof. unfold json_header_at. apply _. Defined.

(** The loop [for i in range(idx, max(0, idx-50), -1)] with its [break]:
    [n] values of [i] remain, and [session] is returned when none of
    them is the start of a JM header. *)
Fixpoint scan_back (state : bytes) (i : Z) (n : nat) (session : bytes)
  : bytes :=
  match n with
  | O => session
  | S n' =>
      if decide (json_header_at state i) then slice state (i + 8) (i + 12)
      else scan_back state (i - 1) n' session
  end.

(** Extraction of the session token from the bytes received after the
    handshake. *)
Definition session_cbytes (state : bytes) : bytes :=
  let idx := find state SUBSCRIPTION_REPLY 0 in
  if decide (idx > 0)
  then scan_back state idx (Z.to_nat (idx - Z.max 0 (idx - 50)))
         DEFAULT_SESSION_CBYTES
  else DEFAULT_SESSION_CBYTES.

(** The frames that [test_parameter(host, key, value)] of
    discover_parameters.py writes once [state] has been received: one with
    the session token, then one with the client token.  [main] of
    test_mixer_control.py does the same for the key [main/ch1/volume]. *)
Definition test_parameter_sends (state : bytes) (key : str) (value : pyfloat)
  : result (list bytes) :=
  let session := session_cbytes state in
  pv ← build_pv key value session;
  pv2 ← build_pv key value UC_CBYTES;
  mret [pv; pv2].

Definition main_sends (state : bytes) (value : pyfloat) : result (list bytes) :=
  test_parameter_sends state (str_of "main/ch1/volume") value.

End json.

(** Received bytes in which a keepalive frame is followed by an acceptance
    reply that carries the token [6b 00 65 00]. *)
Definition REPLY_TOKEN : bytes := [Byte.x6b; Byte.x00; Byte.x65; Byte.x00].

Definition REPLY_JSON : bytes := json_of "{'id': 'SubscriptionReply'}".

Definition REPLY_STATE : bytes :=
  MAGIC ++ [Byte.x06; Byte.x00] ++ TYPE_KA
    ++ [Byte.x6a; Byte.x00; Byte.x65; Byte.x00]
  ++ MAGIC ++ [Byte.x25; Byte.x00] ++ TYPE_JSON ++ REPLY_TOKEN
    ++ [Byte.x1b; Byte.x00; Byte.x00; Byte.x00] ++ REPLY_JSON.

(** The two frames written for [main/ch1/volume = 0.5] after
    [REPLY_STATE]: with the session token, then with the client token. *)
Definition PV_SESSION_FRAME : bytes :=
  MAGIC ++ [Byte.x1c; Byte.x00] ++ TYPE_PV ++ REPLY_TOKEN
    ++ bytes_of "main/ch1/volume" ++ NUL ++ [Byte.x00; Byte.x00]
    ++ [Byte.x00; Byte.x00; Byte.x00; Byte.x3f].

Definition PV_CLIENT_FRAME : bytes :=
  MAGIC ++ [Byte.x1c; Byte.x00] ++ TYPE_PV ++ UC_CBYTES
    ++ bytes_of "main/ch1/volume" ++ NUL ++ [Byte.x00; Byte.x00]
    ++ [Byte.x00; Byte.x00; Byte.x00; Byte.x3f].

(** ** The client of test_ucdaemon_control.py *)

(** [b'\x75\x00\x68\x00'] *)
Definition DIR_CLIENT_TO_DAEMON : bytes :=
  [Byte.x75; Byte.x00; Byte.x68; Byte.x00].

(** [build_ucnet_packet] *)
Definition build_ucnet_packet (payload_type payload : bytes) : result bytes :=
  let size := len payload_type + len payload in
  size_le ← pack_H size;
  mret (MAGIC ++ size_le ++ payload_type ++ payload).

(** [build_hello_packet] *)
Definition build_hello_packet : result bytes :=
  build_ucnet_packet TYPE_HELLO
    [Byte.x00; Byte.x00; Byte.x65; Byte.x00; Byte.x15; Byte.xfa].

(** [build_keepalive_packet] of test_ucdaemon_control.py: payload
    [6a 00 65 00]. *)
Definition build_keepalive_packet_je : result bytes :=
  build_ucnet_packet TYPE_KA [Byte.x6a; Byte.x00; Byte.x65; Byte.x00].

(** [json.dumps(subscribe_data).encode('utf-8')] *)
Definition SUBSCRIBE_JSON : bytes :=
  json_of ("{'id': 'Subscribe', 'clientName': 'FaderBridge', "
    +:+ "'clientInternalName': 'faderbridge', 'clientType': 'PC', "
    +:+ "'clientDescription': 'FaderBridge MIDI Controller', "
    +:+ "'clientIdentifier': 'FaderBridge-Test', "
    +:+ "'clientOptions': 'perm users levl redu rtan', "
    +:+ "'clientEncoding': 23106}").

(** [_build_subscribe_packet] *)
Definition build_subscribe_packet : result bytes :=
  let cbytes := [Byte.x6a; Byte.x00; Byte.x65; Byte.x00] in
  json_len ← pack_I (len SUBSCRIBE_JSON);
  let payload := cbytes ++ json_len ++ SUBSCRIBE_JSON in
  size ← pack_H (len TYPE_JSON + len payload);
  mret (MAGIC ++ size ++ TYPE_JSON ++ payload).

(** Lines written to standard output by the client. *)
Inductive line `{PyRuntime} : Type :=
| LineNotConnected                         (* "Not connected" *)
| LineDebug (packet : bytes)               (* the two DEBUG lines *)
| LineSent (path : str) (value : pyfloat). (* "Sent: path = value" *)

(** The client object: [sock] is [None] or the connection, represented by
    the frames written to it so far.  The object keeps no trace of what
    was received: [_handle_packet] only prints. *)
Record client : Type := Client {
  sock : option (list bytes);
  running : bool
}.

Section ucdaemon_client.
Context `{PyRuntime}.

(** [build_parameter_packet]; the first computation of [padding] is
    overwritten by [padding = b'\x00\x00'] before it is used. *)
Definition build_parameter_packet (param_path : str) (value : pyfloat)
  : result bytes :=
  let direction := DIR_CLIENT_TO_DAEMON in
  path_ascii ← encode_ascii param_path;
  let path_bytes := path_ascii ++ NUL in
  let padding := [Byte.x00; Byte.x00] in
  value_bytes ← pack_f value;
  let payload := direction ++ path_bytes ++ padding ++ value_bytes in
  build_ucnet_packet TYPE_PV payload.

(** [UCDaemonClient.__init__] *)
Definition new_client : client := Client None false.

(** [_send_hello]: Hello, Subscribe and a first KeepAlive are written. *)
Definition send_hello (wire : list bytes) : result (list bytes) :=
  hello ← build_hello_packet;
  subscribe ← build_subscribe_packet;
  ka ← build_keepalive_packet_je;
  mret (wire ++ [hello; subscribe; ka]).

(** [connect], for a connection that is accepted. *)
Definition connect (c : client) : result client :=
  wire ← send_hello [];
  mret (Client (Some wire) true).

(** [disconnect] *)
Definition disconnect (c : client) : client := Client None false.

(** [set_parameter(path, value, debug)]: the client afterwards and the
    lines printed. *)
Definition set_parameter (c : client) (path : str) (value : pyfloat)
    (debug : bool) : result (client * list line) :=
  match sock c with
  | None => mret (c, [LineNotConnected])
  | Some wire =>
      packet ← build_parameter_packet path value;
      let dbg := if debug then [LineDebug packet] else [] in
      mret (Client (Some (wire ++ [packet])) (running c),
            dbg ++ [LineSent path value])
  end.

End ucdaemon_client.

(** The PV frame for [global/mainOutVolume = 0.5]: size field [21 00], as
    in the capture quoted by [build_parameter_packet]. *)
Definition MAIN_VOLUME_FRAME : bytes :=
  MAGIC ++ [Byte.x21; Byte.x00] ++ TYPE_PV ++ DIR_CLIENT_TO_DAEMON
    ++ bytes_of "global/mainOutVolume" ++ NUL ++ [Byte.x00; Byte.x00]
    ++ [Byte.x00; Byte.x00; Byte.x00; Byte.x3f].

(** ** Paths in a decompressed block (parse_zb_packets.py) *)

(** Regular expressions over code points, as far as [path_pattern] needs
    them, matched by derivatives. *)
Inductive regex : Type :=
| RNone                               (* matches nothing *)
| REps                                (* the empty string *)
| RClass (p : Z → bool)               (* one character of a class *)
| RSeq (r s : regex)
| RAlt (r s : regex)
| RStar (r : regex).

Fixpoint nullable (r : regex) : bool :=
  match r with
  | RNone => false
  | REps => true
  | RClass _ => false
  | RSeq r s => nullable r && nullable s
  | RAlt r s => nullable r || nullable s
  | RStar _ => true
  end.

Fixpoint deriv (c : Z) (r : regex) : regex :=
  match r with
  | RNone => RNone
  | REps => RNone
  | RClass p => if p c then REps else RNone
  | RSeq r s =>
      if nullable r then RAlt (RSeq (deriv c r) s) (deriv c s)
      else RSeq (deriv c r) s
  | RAlt r s => RAlt (deriv c r) (deriv c s)
  | RStar r => RSeq (deriv c r) (RStar r)
  end.

(** The whole of [s] matches [r]. *)
Fixpoint fullmatch (r : regex) (s : str) : bool :=
  match s with
  | [] => nullable r
  | c :: s' => fullmatch (deriv c r) s'
  end.

(** [re.compile('^' + r + '$').match(s)]: [$] holds at the end of the
    string and also just before a newline that ends it. *)
Definition match_anchored (r : regex) (s : str) : bool :=
  fullmatch r s
  || match reverse s with
     | 10 :: s' => fullmatch r (reverse s')
     | _ => false
     end.

(** [[a-zA-Z]] *)
Definition is_letter (c : Z) : bool :=
  bool_decide (97 ≤ c ≤ 122) || bool_decide (65 ≤ c ≤ 90).

(** [[a-zA-Z0-9_]] *)
Definition is_word (c : Z) : bool :=
  is_letter c || bool_decide (48 ≤ c ≤ 57) || bool_decide (c = 95).

Definition RPlus (r : regex) : regex := RSeq r (RStar r).

(** A letter followed by any number of word characters: the segment
    [[a-zA-Z][a-zA-Z0-9_]] with a star on the second class. *)
Definition segment_re : regex := RSeq (RClass is_letter) (RStar (RClass is_word)).

(** A slash and a segment. *)
Definition slash_segment : regex :=
  RSeq (RClass (λ c, bool_decide (c = 47))) segment_re.

(** The expression compiled into [path_pattern]: a segment, then one or
    more groups made of a slash and a segment, between the anchors. *)
Definition path_pattern : regex := RSeq segment_re (RPlus slash_segment).

(** The loop of [extract_strings]. *)
Fixpoint extract_strings_loop (data : bytes) (min_len : Z)
    (current : str) (strings : list str) : list str :=
  match data with
  | [] =>
      if decide (len current >= min_len) then strings ++ [current]
      else strings
  | byte :: data' =>
      if decide (32 ≤ byte_val byte < 127)
      then extract_strings_loop data' min_len
             (current ++ [byte_val byte]) strings
      else extract_strings_loop data' min_len []
             (if decide (len current >= min_len) then strings ++ [current]
              else strings)
  end.

(** [extract_strings(data, min_len)] *)
Definition extract_strings (data : bytes) (min_len : Z) : list str :=
  extract_strings_loop data min_len [] [].

(** [find_parameter_paths] *)
Definition find_parameter_paths (strings : list str) : list str :=
  filter (λ s, match_anchored path_pattern s = true) strings.

(** The entries ['strings'] and ['paths'] of the result of
    [analyze_decompressed]. *)
Definition analyze_strings (data : bytes) : list str :=
  extract_strings data 3.

Definition analyze_paths (data : bytes) : list str :=
  find_parameter_paths (analyze_strings data).

(** The path grammar: the segments joined by [/]. *)
Definition join_on (sep : Z) (segs : list str) : str :=
  match segs with
  | [] => []
  | seg :: rest => seg ++ concat ((λ x, sep :: x) <$> rest)
  end.

(** An ASCII identifier that begins with a letter. *)
Definition is_segment (seg : str) : Prop :=
  ∃ c rest, seg = c :: rest ∧ is_letter c = true ∧
            Forall (λ x, is_word x = true) rest.

(** [s] consists of at least [n] segments separated by [/]. *)
Definition path_grammar (n : nat) (s : str) : Prop :=
  ∃ segs, (n ≤ length segs)%nat ∧ Forall is_segment segs ∧
          s = join_on 47 segs.

(** The strings that a regular expression denotes. *)
Inductive matches : regex → str → Prop :=
| MEps : matches REps []
| MClass p c : p c = true → matches (RClass p) [c]
| MSeq r s u v : matches r u → matches s v → matches (RSeq r s) (u ++ v)
| MAltL r s u : matches r u → matches (RAlt r s) u
| MAltR r s u : matches s u → matches (RAlt r s) u
| MStarNil r : matches (RStar r) []
| MStarApp r u v :
    matches r u → matches (RStar r) v → matches (RStar r) (u ++ v).

(** A printable ASCII character, as [extract_strings] tests it. *)
Definition printable (c : Z) : Prop := 32 ≤ c < 127.

(** * Further definitions: the rest of the scripts *)

(** The packet [p] is what the buffer holds at [pkt_offset p]: a magic,
    the size field, the type and the payload, all within the buffer. *)
Definition frame_in_buffer (data : bytes) (p : packet) : Prop :=
  let off := pkt_offset p in
  0 ≤ off ∧
  slice data off (off + 4) = MAGIC ∧
  unpack_H (slice data (off + 4) (off + 6)) = Ok (pkt_size p) ∧
  off + 8 ≤ len data ∧ off + 6 + pkt_size p ≤ len data ∧
  pkt_type p = slice data (off + 6) (off + 8) ∧
  pkt_type_str p = decode_ascii_replace (pkt_type p) ∧
  pkt_payload p = slice data (off + 8) (off + 6 + pkt_size p).

(** The frame for [main/ch1/volume = 0.0] with the client token. *)
Definition PV_ZERO_FRAME : bytes :=
  MAGIC ++ [Byte.x1c; Byte.x00] ++ TYPE_PV ++ UC_CBYTES
    ++ bytes_of "main/ch1/volume" ++ NUL ++ [Byte.x00; Byte.x00]
    ++ [Byte.x00; Byte.x00; Byte.x00; Byte.x00].

(** The frame [build_pv('', 0.5)] builds: a PV frame with an empty key. *)
Definition PV_EMPTY_KEY_FRAME : bytes :=
  MAGIC ++ [Byte.x0d; Byte.x00] ++ TYPE_PV ++ UC_CBYTES
    ++ NUL ++ [Byte.x00; Byte.x00]
    ++ [Byte.x00; Byte.x00; Byte.x00; Byte.x3f].

(** ** [categorize_params] of discover_parameters.py *)

(** [s.split(sep)] for a separator of one character. *)
Fixpoint split_on (sep : Z) (s : str) : list str :=
  match s with
  | [] => [[]]
  | c :: s' =>
      if decide (c = sep) then [] :: split_on sep s'
      else match split_on sep s' with
           | part :: parts => (c :: part) :: parts
           | [] => [[c]]
           end
  end.

(** ['/'] *)
Definition SLASH : Z := 47.

(** The category a key is filed under: [parts[0]] when [key.split('/')]
    has two parts or more, ['other'] otherwise. *)
Definition category_of (key : str) : str :=
  let parts := split_on SLASH key in
  if decide (len parts >= 2) then default [] (head parts)
  else str_of "other".

Section categorize.
Context {V : Type}.

(** Body of the loop of [categorize_params]; [categories] is a
    [defaultdict(dict)], so a missing category reads as the empty
    dictionary. *)
Definition categorize_step (key : str) (value : V)
    (categories : gmap str (gmap str V)) : gmap str (gmap str V) :=
  let category := category_of key in
  <[category := <[key := value]> (default ∅ (categories !! category))]>
    categories.

Definition categorize_params (params : gmap str V) : gmap str (gmap str V) :=
  map_fold categorize_step ∅ params.

End categorize.

(** ** monitor_and_send.py: builders and receiver *)

Module monitor.

(** [build_packet(ptype, payload)] *)
Definition build_packet (ptype payload : bytes) : result bytes :=
  let size := len ptype + len payload in
  size_le ← pack_H size;
  mret (MAGIC ++ size_le ++ ptype ++ payload).

(** [b'\x68\x00\x75\x00'], the direction shown as [h->u]. *)
Definition DIR_H_TO_U : bytes := [Byte.x68; Byte.x00; Byte.x75; Byte.x00].

(** What [receiver_thread] prints for a packet. *)
Inductive rx_line `{PyRuntime} : Type :=
| RxPV (dir_str : string) (path : str) (value : pyfloat)
                                  (* RX PV [dir_str]: path = value *)
| RxJM (json_data : str)          (* RX JM: json_data[:100] *)
| RxOther (ptype : str) (n : Z).  (* RX ptype: n bytes *)

Section codec.
Context `{PyRuntime}.

(** [build_param_pv(path, value)] *)
Definition build_param_pv (path : str) (value : pyfloat) : result bytes :=
  let direction := [Byte.x75; Byte.x00; Byte.x68; Byte.x00] in
  path_ascii ← encode_ascii path;
  let path_bytes := path_ascii ++ [Byte.x00; Byte.x00; Byte.x00] in
  value_bytes ← pack_f value;
  let payload := direction ++ path_bytes ++ value_bytes in
  build_packet TYPE_PV payload.

(** [build_param_ps(path, value)] *)
Definition build_param_ps (path : str) (value : pyfloat) : result bytes :=
  let cbytes := [Byte.x6a; Byte.x00; Byte.x65; Byte.x00] in
  path_ascii ← encode_ascii path;
  let path_bytes := path_ascii ++ NUL in
  let padding := [Byte.x00; Byte.x00] in
  value_bytes ← pack_f value;
  let payload := cbytes ++ path_bytes ++ padding ++ value_bytes in
  build_packet TYPE_PS payload.

(** The part of the loop body of [receiver_thread] that prints a parsed
    packet. *)
Definition receiver_print (pkt : mpacket) : result (list rx_line) :=
  if decide (mp_type pkt = str_of "PV") then
    let payload := mp_payload pkt in
    if decide (len payload > 8) then
      let direction := slice_to payload 4 in
      let rest := slice_from payload 4 in
      let null_idx := find rest NUL 0 in
      if decide (null_idx > 0) then
        let path := decode_ascii_replace (slice_to rest null_idx) in
        let value_bytes := slice_from rest (-4) in
        value ← unpack_f value_bytes;
        let dir_str :=
          if decide (direction = DIR_H_TO_U) then "h->u"%string
          else "u->h"%string in
        mret [RxPV dir_str path value]
      else mret []
    else mret []
  else if decide (mp_type pkt = str_of "JM") then
    if decide (len (mp_payload pkt) > 8) then
      json_len ← unpack_I (slice (mp_payload pkt) 4 8);
      let json_data :=
        decode_utf8_replace (slice (mp_payload pkt) 8 (8 + json_len)) in
      mret [RxJM (slice_to json_data 100)]
    else mret []
  else if decide (mp_type pkt = str_of "KA") then mret []
  else mret [RxOther (mp_type pkt) (len (mp_payload pkt))].

End codec.

(** One iteration of [while offset < len(buffer)]: the state is the
    offset, and what is produced is the packet that gets printed. *)
Definition receiver_step (buffer : bytes) (offset : Z) : step Z mpacket :=
  if decide (offset < len buffer) then
    match parse_packet buffer offset with
    | Raise e => Throw e
    | Ok (None, new_offset) =>
        if decide (new_offset = offset) then Break else Continue new_offset
    | Ok (Some pkt, new_offset) => Produce pkt new_offset
    end
  else Break.

Lemma receiver_step_progress buffer offset :
  match receiver_step buffer offset with
  | Continue offset' | Produce _ offset' =>
      offset < offset' ∧ offset < len buffer
  | _ => True
  end.
Proof.
  unfold receiver_step, parse_packet.
  destruct (decide (offset < len buffer)); [|done].
  destruct (decide (len buffer < offset + 8)).
  { cbn. by rewrite decide_True by done. }
  destruct (decide (slice buffer offset (offset + 4) ≠ MAGIC)).
  { cbn. rewrite decide_False by lia. lia. }
  destruct (unpack_H _) as [size|] eqn:Hsz; [|done].
  apply unpack_H_range in Hsz. cbn [mbind result_bind].
  destruct (decide (len buffer < offset + 6 + size)).
  { cbn. by rewrite decide_True by done. }
  cbn. lia.
Qed.

Section receiver.
Context {A : Type} (handle : mpacket → result (list A)).

(** The loop [while offset < len(buffer)] from a given offset: what the
    handled packets gave, in order, and the offset at which the loop
    stops.  An exception ends the thread. *)
Equations? receiver_loop (buffer : bytes) (offset : Z) : result (list A * Z)
  by wf (Z.to_nat (len buffer - offset)) lt :=
  receiver_loop buffer offset with inspect (receiver_step buffer offset) := {
    | exist _ Break _ => Ok ([], offset);
    | exist _ (Throw e) _ => Raise e;
    | exist _ (Continue offset') Hstep => receiver_loop buffer offset';
    | exist _ (Produce pkt offset') Hstep =>
        out ← handle pkt;
        r ← receiver_loop buffer offset';
        mret (out ++ r.1, r.2) }.
Proof.
  all: pose proof (receiver_step_progress buffer offset) as Hp;
    rewrite Hstep in Hp; lia.
Qed.

End receiver.

(** What [receiver_thread] does with the buffer after a [recv]: the lines
    printed and the new buffer, [buffer[offset:]]. *)
Definition receiver_pass `{PyRuntime} (buffer : bytes)
  : result (list rx_line * bytes) :=
  r ← receiver_loop receiver_print buffer 0;
  mret (r.1, slice_from buffer r.2).

End monitor.

(** Received bytes that begin with the acceptance reply itself: the JM
    header is at offset 0 and carries the token [6b 00 65 00]. *)
Definition REPLY_FIRST_STATE : bytes :=
  MAGIC ++ [Byte.x25; Byte.x00] ++ TYPE_JSON ++ REPLY_TOKEN
    ++ [Byte.x1b; Byte.x00; Byte.x00; Byte.x00] ++ REPLY_JSON.

(** ** [_handle_packet] of test_ucdaemon_control.py *)

(** [b'\x68\x00\x75\x00'] *)
Definition DIR_DAEMON_TO_CLIENT : bytes :=
  [Byte.x68; Byte.x00; Byte.x75; Byte.x00].

(** What [_handle_packet] prints. *)
Inductive handled `{PyRuntime} : Type :=
| HandledPV (dir_str : string) (path : str) (value : pyfloat)
                                      (* [dir_str] path = value *)
| HandledOther (ptype : str) (n : Z). (* Received: ptype (n bytes) *)

Section handle_packet.
Context `{PyRuntime}.

Definition handle_packet (pkt : upacket) : result (list handled) :=
  let ptype := up_type_str pkt in
  if decide (ptype = str_of "KA") then mret []
  else if decide (ptype = str_of "PV") then
    let payload := up_payload pkt in
    if decide (len payload > 4) then
      let direction := slice_to payload 4 in
      let rest := slice_from payload 4 in
      let null_idx := find rest NUL 0 in
      if decide (null_idx > 0) then
        let path := decode_utf8_replace (slice_to rest null_idx) in
        if decide (len rest >= null_idx + 5) then
          let value_bytes := slice_from rest (-4) in
          value ← unpack_f value_bytes;
          let dir_str :=
            if decide (direction = DIR_DAEMON_TO_CLIENT)
            then "daemon→client"%string else "client→daemon"%string in
          mret [HandledPV dir_str path value]
        else mret []
      else mret []
    else mret []
  else mret [HandledOther ptype (len (up_payload pkt))].

End handle_packet.

(** ** [decompress_zb] of parse_zb_packets.py *)

(** The test of the loop of [decompress_zb] at index [i]: the bytes
    [78 01], [78 9c] or [78 da].  Both indices are below [len(payload)]
    for every [i] of [range(len(payload) - 2)]. *)
Definition zlib_header_at (payload : bytes) (i : Z) : Prop :=
  payload !! Z.to_nat i = Some Byte.x78 ∧
  (payload !! Z.to_nat (i + 1) = Some Byte.x01 ∨
   payload !! Z.to_nat (i + 1) = Some Byte.x9c ∨
   payload !! Z.to_nat (i + 1) = Some Byte.xda).

#[global] Instance zlib_header_at_dec payload i :
  Decision (zlib_header_at payload i).
Proof. unfold zlib_header_at. apply _. Defined.

Section decompress.
(** [zlib.decompress]; [None] stands for [zlib.error]. *)
Variable zlib_decompress : bytes → option bytes.

(** The loop [for i in range(len(payload) - 2)] from index [i], with [n]
    indices left. *)
Fixpoint decompress_zb_from (payload : bytes) (i : Z) (n : nat) : bytes :=
  match n with
  | O => []
  | S n' =>
      if decide (zlib_header_at payload i) then
        match zlib_decompress (slice_from payload i) with
        | Some decompressed => decompressed
        | None => decompress_zb_from payload (i + 1) n'
        end
      else decompress_zb_from payload (i + 1) n'
  end.

Definition decompress_zb (payload : bytes) : bytes :=
  decompress_zb_from payload 0 (Z.to_nat (len payload - 2)).

End decompress.

(** A toy decompressor for examples: it accepts the single stream
    [78 9c 01] and gives [main/ch1]. *)
Definition toy_zlib (b : bytes) : option bytes :=
  if decide (b = [Byte.x78; Byte.x9c; Byte.x01])
  then Some (bytes_of "main/ch1") else None.

(** A ZB payload: four token bytes, two bytes that look like a zlib header
    but start no stream, one more byte, then the stream. *)
Definition ZB_PAYLOAD : bytes :=
  UC_CBYTES ++ [Byte.x78; Byte.x01; Byte.x00]
    ++ [Byte.x78; Byte.x9c; Byte.x01].

(** ** dump_state.py: the scan of the received state *)

Module dump_state.

(** [build_packet(ptype, payload)] *)
Definition build_packet (ptype payload : bytes) : result bytes :=
  let size := len ptype + len payload in
  size_le ← pack_H size;
  mret (MAGIC ++ size_le ++ ptype ++ payload).

(** [b'ZM'] *)
Definition TYPE_ZM : bytes := bytes_of "ZM".

(** The lines the scan prints. *)
Inductive dump_line : Type :=
| DPacket (ptype_str : str) (size : Z)  (* Packet: ptype_str (size bytes) *)
| DCBytes (cbytes : bytes)              (* CBytes: cbytes.hex() *)
| DUncompressedLen (n : Z)              (* Uncompressed len: n *)
| DCompressed (n : Z)                   (* Compressed: n bytes *)
| DFirst20 (b : bytes)                  (* First 20 bytes: b.hex() *)
| DDecompressed (wbits n : Z)           (* Decompressed (wbits=..): n bytes *)
| DFullContent (text : str)             (* Full content: and the text *)
| DCouldNot (text : str)   (* Could not decompress ...; As text: text[:200] *)
| DJson (json_data : str).              (* JSON: json_data *)

(** One iteration of [while pos < len(all_data)] up to the point where
    the frame is delimited. *)
Definition dump_step (all_data : bytes) (pos : Z) : step Z raw_frame :=
  if decide (pos < len all_data) then
    if decide (slice all_data pos (pos + 4) ≠ MAGIC) then Continue (pos + 1)
    else
      match unpack_H (slice all_data (pos + 4) (pos + 6)) with
      | Raise e => Throw e
      | Ok size =>
          let ptype := slice all_data (pos + 6) (pos + 8) in
          let payload := slice all_data (pos + 8) (pos + 6 + size) in
          Produce (RawFrame pos size ptype payload) (pos + 6 + size)
      end
  else Break.

Lemma dump_step_progress all_data pos :
  match dump_step all_data pos with
  | Continue pos' | Produce _ pos' => pos < pos' ∧ pos < len all_data
  | _ => True
  end.
Proof.
  unfold dump_step.
  destruct (decide (pos < len all_data)); [|done].
  destruct (decide (slice all_data pos (pos + 4) ≠ MAGIC)); [lia |].
  destruct (unpack_H _) as [size|] eqn:Hsz; [|done].
  apply unpack_H_range in Hsz. lia.
Qed.

Section scan.
Context `{PyRuntime}.
(** [zlib.decompress(data, wbits)]; [None] stands for any exception. *)
Variable zlib_decompress : bytes → Z → option bytes.

(** The loop [for wbits in [...]] with its [break] and its [else]. *)
Fixpoint zm_try (compressed : bytes) (wbitss : list Z) : list dump_line :=
  match wbitss with
  | [] => [DCouldNot (slice_to (decode_utf8_replace compressed) 200)]
  | wbits :: rest =>
      match zlib_decompress compressed wbits with
      | Some decompressed =>
          DDecompressed wbits (len decompressed)
            :: (if decide (len decompressed > 10)
                then [DFullContent (decode_utf8_replace decompressed)]
                else zm_try compressed rest)
      | None => zm_try compressed rest
      end
  end.

(** What the body of the loop prints for a delimited frame;
    [zlib.MAX_WBITS] is 15. *)
Definition dump_print (f : raw_frame) : result (list dump_line) :=
  let payload := rf_payload f in
  let header := DPacket (decode_ascii_replace (rf_ptype f)) (rf_size f) in
  if decide (rf_ptype f = TYPE_ZM) then
    let cbytes := slice_to payload 4 in
    uncompressed_len ← unpack_I (slice payload 4 8);
    let compressed := slice_from payload 8 in
    mret ([header; DCBytes cbytes; DUncompressedLen uncompressed_len;
           DCompressed (len compressed); DFirst20 (slice_to compressed 20)]
            ++ zm_try compressed [15; -15; 31; -15; 15])
  else if decide (rf_ptype f = TYPE_JSON) then
    json ← jm_json_text payload;
    mret (header :: match json with
                    | Some json_data => [DJson json_data]
                    | None => []
                    end)
  else mret [header].

(** The scan from a position: the lines printed, or the exception that
    ends the script. *)
Equations? dump_scan (all_data : bytes) (pos : Z) : result (list dump_line)
  by wf (Z.to_nat (len all_data - pos)) lt :=
  dump_scan all_data pos with inspect (dump_step all_data pos) := {
    | exist _ Break _ => Ok [];
    | exist _ (Throw e) _ => Raise e;
    | exist _ (Continue pos') Hstep => dump_scan all_data pos';
    | exist _ (Produce f pos') Hstep =>
        out ← dump_print f;
        rest ← dump_scan all_data pos';
        mret (out ++ rest) }.
Proof.
  all: pose proof (dump_step_progress all_data pos) as Hp;
    rewrite Hstep in Hp; lia.
Qed.

End scan.

End dump_state.

(** A decompressor that refuses everything, for examples. *)
Definition no_zlib (data : bytes) (wbits : Z) : option bytes := None.

(** * Properties *)

(** ** Arithmetic of lengths, slices and searches *)

(** Unfolding of the loop driver by one iteration. *)
Lemma scan_eq {A : Type} (handle : raw_frame → result (list A)) data pos :
  scan handle data pos =
    match scan_step data pos with
    | Break => Ok []
    | Throw e => Raise e
    | Continue pos' => scan handle data pos'
    | Produce f pos' =>
        xs ← handle f; rest ← scan handle data pos'; mret (xs ++ rest)
    end.
Proof.
  simp scan. unfold inspect.
  generalize (@eq_refl _ (scan_step data pos)).
  generalize (scan_step data pos) at 2 4 5.
  intros s Hs. destruct s; simp scan; reflexivity.
Qed.


Lemma len_app {A : Type} (a b : list A) : len (a ++ b) = len a + len b.
Proof. unfold len. rewrite length_app. lia. Qed.

Lemma len_fmap {A B : Type} (f : A → B) (l : list A) : len (f <$> l) = len l.
Proof. unfold len. by rewrite length_fmap. Qed.

Lemma len_nonneg {A : Type} (l : list A) : 0 ≤ len l.
Proof. unfold len. lia. Qed.

Lemma slice_take_drop {A : Type} (l : list A) lo hi :
  0 ≤ lo ≤ hi → hi ≤ len l →
  slice l lo hi = take (Z.to_nat (hi - lo)) (drop (Z.to_nat lo) l).
Proof.
  intros H1 H2. unfold slice, clamp_index.
  repeat case_decide; try lia.
  rewrite !Z.min_l by lia. reflexivity.
Qed.

Lemma slice_len {A : Type} (l : list A) lo hi :
  0 ≤ lo ≤ hi → hi ≤ len l → len (slice l lo hi) = hi - lo.
Proof.
  intros H1 H2. rewrite slice_take_drop by done.
  unfold len in *. rewrite length_take, length_drop. lia.
Qed.

Lemma slice_app_mid {A : Type} (a b c : list A) :
  slice (a ++ b ++ c) (len a) (len a + len b) = b.
Proof.
  pose proof (len_nonneg a). pose proof (len_nonneg b).
  pose proof (len_nonneg c).
  rewrite slice_take_drop by (rewrite ?len_app; lia).
  unfold len. rewrite Nat2Z.id, drop_app_length.
  replace (Z.to_nat _) with (length b) by lia.
  apply take_app_length.
Qed.

Lemma slice_mid_eq {A : Type} (l a b c : list A) lo hi :
  l = a ++ b ++ c → lo = len a → hi = len a + len b → slice l lo hi = b.
Proof. intros -> -> ->. apply slice_app_mid. Qed.

(** [starts_with] decides the prefix relation. *)
Lemma starts_with_prefix sub data :
  starts_with sub data = true ↔ sub `prefix_of` data.
Proof.
  revert data. induction sub as [|x sub IH]; intros [|y data]; simpl.
  - split; [intros _; apply prefix_nil | done].
  - split; [intros _; apply prefix_nil | done].
  - split; [done | intros [k Hk]; discriminate].
  - rewrite andb_true_iff, bool_decide_eq_true, IH. split.
    + intros [-> Hp]. by apply prefix_cons.
    + intros [k Hk]. simplify_eq/=. split; [done | by exists k].
Qed.

Lemma starts_with_app sub rest : starts_with sub (sub ++ rest) = true.
Proof. apply starts_with_prefix. by exists rest. Qed.

(** What a successful search returns: the least position, at or after the
    start, where [sub] occurs. *)
Lemma find_at_found sub data i k :
  (k ≤ length data)%nat →
  starts_with sub (drop k data) = true →
  (∀ j, (j < k)%nat → starts_with sub (drop j data) = false) →
  find_at sub data i = i + Z.of_nat k.
Proof.
  revert data i. induction k as [|k IH]; intros data i Hk Hocc Hearlier.
  - rewrite drop_0 in Hocc. destruct data; simpl in *; rewrite Hocc; lia.
  - destruct data as [|b data]; [simpl in Hk; lia |].
    pose proof (Hearlier 0%nat ltac:(lia)) as H0. rewrite drop_0 in H0.
    simpl find_at. rewrite H0.
    rewrite (IH data (i + 1)); [lia | simpl in Hk; lia | exact Hocc |].
    intros j Hj. apply (Hearlier (S j)). lia.
Qed.

Lemma find_at_none sub data i :
  find_at sub data i = -1 → 0 ≤ i →
  ∀ j, starts_with sub (drop j data) = false.
Proof.
  revert i. induction data as [|b data IH]; intros i; simpl.
  - destruct (starts_with sub []) eqn:E; [lia |].
    intros _ _ j. by rewrite drop_nil.
  - destruct (starts_with sub (b :: data)) eqn:E; [lia |].
    intros Hf Hi [|j]; [exact E |]. simpl. apply (IH (i + 1)); [done | lia].
Qed.

Lemma find_found data sub start idx :
  0 ≤ start ≤ idx → idx ≤ len data →
  starts_with sub (drop (Z.to_nat idx) data) = true →
  (∀ j, start ≤ j < idx → starts_with sub (drop (Z.to_nat j) data) = false) →
  find data sub start = idx.
Proof.
  intros Hs Hi Hocc Hearlier. unfold find, clamp_index, len in *.
  repeat case_decide; try lia.
  rewrite Z.min_l by lia.
  rewrite (find_at_found sub _ start (Z.to_nat (idx - start))).
  - lia.
  - rewrite length_drop. lia.
  - rewrite drop_drop. replace (_ + _)%nat with (Z.to_nat idx) by lia. done.
  - intros j Hj. rewrite drop_drop.
    replace (_ + _)%nat with (Z.to_nat (start + Z.of_nat j)) by lia.
    apply Hearlier. lia.
Qed.

Lemma find_none data sub :
  find data sub 0 = -1 → ∀ j, starts_with sub (drop j data) = false.
Proof.
  unfold find, clamp_index. pose proof (len_nonneg data).
  repeat case_decide; try lia.
  rewrite Z.min_l by lia. simpl. intros Hf. by apply (find_at_none _ _ 0).
Qed.

(** ** The scanning loop *)

(** Induction on the position of the scan: a property holds at every
    position if it holds at [pos] whenever it holds at the later positions
    an iteration started at [pos] can move to. *)
Lemma scan_pos_ind (data : bytes) (P : Z → Prop) :
  (∀ pos, (∀ pos', pos < pos' → pos < len data → P pos') → P pos) →
  ∀ pos, P pos.
Proof.
  intros Hstep pos.
  remember (Z.to_nat (len data - pos)) as n eqn:Hn.
  revert pos Hn. induction (lt_wf n) as [n _ IH]. intros pos ->.
  apply Hstep. intros pos' Hlt Hlen. apply (IH (Z.to_nat (len data - pos'))); lia.
Qed.

(** Everything one iteration establishes when it delimits a frame. *)
Lemma scan_step_produce data pos f pos' :
  scan_step data pos = Produce f pos' →
  pos < len data - 8 ∧
  rf_idx f = find data MAGIC pos ∧
  0 ≤ rf_idx f ∧ pos ≤ rf_idx f ∧
  unpack_H (slice data (rf_idx f + 4) (rf_idx f + 6)) = Ok (rf_size f) ∧
  0 ≤ rf_size f ≤ 65535 ∧
  rf_idx f + 6 + rf_size f ≤ len data ∧
  rf_ptype f = slice data (rf_idx f + 6) (rf_idx f + 8) ∧
  rf_payload f = slice data (rf_idx f + 8) (rf_idx f + 6 + rf_size f) ∧
  pos' = rf_idx f + 6 + rf_size f.
Proof.
  unfold scan_step. repeat case_decide; try done.
  destruct (unpack_H _) as [size|] eqn:Hsz; [|done].
  case_decide; [done |]. intros [= <- <-]. simpl.
  pose proof (unpack_H_range _ _ Hsz).
  match goal with H : find _ _ _ ≠ -1 |- _ => apply find_lower in H end.
  repeat split; try done; lia.
Qed.

(** The size field is only read once eight bytes are known to follow the
    magic, so [struct.unpack] receives exactly two bytes. *)
Lemma scan_step_no_throw data pos e : scan_step data pos ≠ Throw e.
Proof.
  unfold scan_step. repeat case_decide; try done.
  match goal with H : find _ _ _ ≠ -1 |- _ => apply find_lower in H end.
  pose proof (slice_len data (find data MAGIC pos + 4)
                (find data MAGIC pos + 6) ltac:(lia) ltac:(lia)) as Hl.
  destruct (slice data _ _) as [|b0 [|b1 [|b2 l]]]; unfold len in Hl;
    simpl in Hl; try lia.
  simpl. case_decide; done.
Qed.

(** The scan returns: when the handler does not raise, no iteration
    raises, and the loop terminates. *)
Lemma scan_total {A : Type} (handle : raw_frame → result (list A)) data pos :
  (∀ f, ∃ xs, handle f = Ok xs) →
  ∃ l, scan handle data pos = Ok l.
Proof.
  intros Hh. revert pos. apply (scan_pos_ind data). intros pos IH.
  rewrite scan_eq. pose proof (scan_step_progress data pos) as Hp.
  destruct (scan_step data pos) as [|pos'|f pos'|e] eqn:E.
  - by eexists.
  - apply IH; lia.
  - destruct (IH pos') as [rest ->]; [lia.. |].
    destruct (Hh f) as [xs ->]. by eexists.
  - by apply scan_step_no_throw in E.
Qed.

(** Frames of a scan started at [pos] lie at or after [pos], one after the
    end of the other. *)
Lemma scan_packets_ordered data pos :
  ∃ pkts, scan (λ f, Ok [packet_of f]) data pos = Ok pkts ∧
    Forall (λ p, pos ≤ pkt_offset p ∧ 0 ≤ pkt_offset p ∧ 0 ≤ pkt_size p) pkts ∧
    StronglySorted frame_before pkts.
Proof.
  revert pos. apply (scan_pos_ind data). intros pos IH.
  rewrite scan_eq. pose proof (scan_step_progress data pos) as Hp.
  destruct (scan_step data pos) as [|pos'|f pos'|e] eqn:E.
  - exists []. repeat split; constructor.
  - destruct (IH pos') as (pkts & -> & Hge & Hs); [lia.. |].
    exists pkts. repeat split; [|done].
    eapply Forall_impl; [exact Hge |]. simpl. intros p ?. lia.
  - destruct (IH pos') as (pkts & -> & Hge & Hs); [lia.. |].
    apply scan_step_produce in E as (? & ? & ? & ? & ? & ? & ? & ? & ? & ->).
    exists (packet_of f :: pkts). repeat split.
    + constructor; [simpl; lia |].
      eapply Forall_impl; [exact Hge |]. simpl. intros p ?. lia.
    + constructor; [done |].
      eapply Forall_impl; [exact Hge |]. unfold frame_before. simpl.
      intros p ?. lia.
  - by apply scan_step_no_throw in E.
Qed.

(** C9. One pass of [parse_packets] (and of [find_packets]) returns the
    frames in the order in which their bytes lie in the buffer: the start
    offsets of the returned frames are strictly increasing, and each frame
    begins at or after the end of the one before it. *)
Theorem parse_packets_offsets_increasing (data : bytes) :
  ∃ pkts, parse_packets data = Ok pkts ∧ find_packets data = Ok pkts ∧
    StronglySorted Z.lt (pkt_offset <$> pkts) ∧
    StronglySorted frame_before pkts.
Proof.
  destruct (scan_packets_ordered data 0) as (pkts & Hp & Hge & Hs).
  exists pkts. repeat split; try done.
  clear Hp. induction Hs as [|p pkts Hs IH Hall]; [constructor |].
  apply Forall_cons in Hge as [Hp Hge].
  rewrite fmap_cons. constructor; [by apply IH |].
  rewrite Forall_fmap. rewrite Forall_forall in Hall |- *.
  intros q Hq. specialize (Hall q Hq). unfold frame_before in Hall.
  simpl. lia.
Qed.

(** ** Encoding and delimiting one frame *)

Lemma byte_val_of z : 0 ≤ z < 256 → byte_val (byte_of z) = z.
Proof.
  intros Hz. unfold byte_val, byte_of. rewrite Z.mod_small by lia.
  destruct (Byte.of_N (Z.to_N z)) as [b|] eqn:E.
  - apply Byte.to_of_N in E. simpl. lia.
  - apply Byte.of_N_None_iff in E. lia.
Qed.

Lemma byte_val_range b : 0 ≤ byte_val b < 256.
Proof. unfold byte_val. pose proof (Byte.to_N_bounded b). lia. Qed.

Lemma unpack_pack_H n b : pack_H n = Ok b → unpack_H b = Ok n ∧ len b = 2.
Proof.
  unfold pack_H. case_decide; [|done]. intros [= <-]. simpl.
  pose proof (Z.div_mod n 256 ltac:(lia)).
  pose proof (Z.mod_pos_bound n 256 ltac:(lia)).
  assert (0 ≤ n / 256 < 256)
    by (split; [apply Z.div_pos | apply Z.div_lt_upper_bound]; lia).
  rewrite !byte_val_of by lia.
  split; [f_equal; lia | done].
Qed.

Lemma build_packet_eq ptype payload frame :
  build_packet ptype payload = Ok frame →
  ∃ size, pack_H (2 + len payload) = Ok size ∧
          frame = MAGIC ++ size ++ ptype ++ payload.
Proof.
  unfold build_packet. destruct (pack_H _) as [size|] eqn:E; [|done].
  intros [= <-]. by exists size.
Qed.

Lemma build_packet_ok ptype payload :
  len payload ≤ 65533 → ∃ frame, build_packet ptype payload = Ok frame.
Proof.
  intros Hl. unfold build_packet, pack_H. pose proof (len_nonneg payload).
  case_decide; [by eexists | lia].
Qed.

(** The magic constant has no border: a proper suffix of it is never a
    prefix of it.  So an occurrence of the magic cannot begin inside
    magic-free bytes and end inside a magic that follows them. *)
Lemma magic_no_straddle g rest :
  g ≠ [] → starts_with MAGIC g = false →
  starts_with MAGIC (g ++ MAGIC ++ rest) = false.
Proof.
  intros Hne Hg.
  destruct g as [|a [|b [|c [|d g]]]]; [done | | | | exact Hg];
    simpl in *; repeat (case_bool_decide; simpl; try done); simplify_eq.
Qed.

Lemma find_magic_after pre rest pos :
  0 ≤ pos ≤ len pre →
  (∀ j, pos ≤ j < len pre →
        starts_with MAGIC (drop (Z.to_nat j) pre) = false) →
  find (pre ++ MAGIC ++ rest) MAGIC pos = len pre.
Proof.
  intros Hpos Hfree. apply find_found.
  - lia.
  - rewrite len_app. pose proof (len_nonneg (MAGIC ++ rest)). lia.
  - unfold len. rewrite Nat2Z.id, drop_app_length. apply starts_with_app.
  - intros j Hj. unfold len in *.
    rewrite drop_app_le by lia. apply magic_no_straddle.
    + intros Hnil. apply (f_equal length) in Hnil.
      rewrite length_drop in Hnil. simpl in Hnil. lia.
    + apply Hfree. lia.
Qed.

(** One iteration of the scan, started in magic-free bytes that precede a
    frame built by [build_packet], delimits exactly that frame. *)
Lemma scan_step_frame pre ptype payload frame post pos :
  build_packet ptype payload = Ok frame → len ptype = 2 →
  0 ≤ pos ≤ len pre →
  (∀ j, pos ≤ j < len pre →
        starts_with MAGIC (drop (Z.to_nat j) pre) = false) →
  pos < len pre + len payload + len post →
  scan_step (pre ++ frame ++ post) pos =
    Produce (RawFrame (len pre) (2 + len payload) ptype payload)
            (len pre + 8 + len payload).
Proof.
  intros Hb Hty Hpos Hfree Hguard.
  apply build_packet_eq in Hb as (size & Hsz & ->).
  apply unpack_pack_H in Hsz as [Hun Hsl].
  pose proof (len_nonneg pre). pose proof (len_nonneg payload).
  pose proof (len_nonneg post).
  assert (len MAGIC = 4) as Hm by done.
  unfold scan_step.
  rewrite <- !app_assoc.
  rewrite (find_magic_after pre _ pos) by done.
  rewrite !len_app, Hm, Hsl, Hty.
  repeat case_decide; try lia.
  rewrite (slice_mid_eq _ (pre ++ MAGIC) size (ptype ++ payload ++ post));
    rewrite ?len_app, <- ?app_assoc; try done; try lia.
  rewrite Hun. case_decide; [lia |].
  rewrite (slice_mid_eq _ (pre ++ MAGIC ++ size) ptype (payload ++ post)),
    (slice_mid_eq _ (pre ++ MAGIC ++ size ++ ptype) payload post);
    rewrite ?len_app, <- ?app_assoc; try done; try lia.
  f_equal; lia.
Qed.

Lemma scan_at_end {A : Type} (handle : raw_frame → result (list A)) data pos :
  len data - 8 ≤ pos → scan handle data pos = Ok [].
Proof.
  intros Hpos. rewrite scan_eq. unfold scan_step. case_decide; [lia | done].
Qed.

(** A buffer made of magic-free bytes followed by one frame is scanned into
    that frame alone, unless both the leading bytes and the payload are
    empty: the guard [pos < len(data) - 8] of the loop then fails at once. *)
Lemma scan_resync {A : Type} (handle : raw_frame → result (list A))
    g ptype payload frame :
  find g MAGIC 0 = -1 → len ptype = 2 →
  build_packet ptype payload = Ok frame →
  0 < len g + len payload →
  scan handle (g ++ frame) 0 =
    (xs ← handle (RawFrame (len g) (2 + len payload) ptype payload);
     mret (xs ++ [])).
Proof.
  intros Hg Hty Hb Hne. pose proof (len_nonneg g).
  rewrite scan_eq.
  rewrite <- (app_nil_r frame) at 1.
  rewrite (scan_step_frame g ptype payload frame [] 0 Hb Hty);
    [| lia | intros j _; by apply find_none | unfold len at 3; simpl; lia ].
  rewrite scan_at_end; [done |].
  apply build_packet_eq in Hb as (size & Hsz & ->).
  apply unpack_pack_H in Hsz as [_ Hsl].
  rewrite ?app_nil_r, !len_app, Hsl, Hty. change (len MAGIC) with 4. lia.
Qed.

(** ** Float parameters: building and decoding a PV frame *)

Lemma byte_of_ascii_inj_nul c : 0 < c < 128 → byte_of c ≠ Byte.x00.
Proof.
  intros Hc Heq. apply (f_equal byte_val) in Heq.
  rewrite byte_val_of in Heq by lia. change (byte_val Byte.x00) with 0 in Heq.
  lia.
Qed.

Lemma encode_ascii_ok (s : str) :
  Forall (λ c, 0 < c < 128) s → encode_ascii s = Ok (byte_of <$> s).
Proof.
  intros Hs. unfold encode_ascii. rewrite bool_decide_eq_true_2; [done |].
  eapply Forall_impl; [exact Hs |]. simpl. lia.
Qed.

Lemma decode_encode_ascii (s : str) :
  Forall (λ c, 0 < c < 128) s → decode_ascii_replace (byte_of <$> s) = s.
Proof.
  induction 1 as [|c s Hc Hs IH]; [done |].
  unfold decode_ascii_replace in *. rewrite !fmap_cons, IH.
  rewrite byte_val_of by lia. case_decide; [done | lia].
Qed.

(** No NUL byte begins anywhere inside NUL-free bytes. *)
Lemma starts_with_nul_free (b rest : bytes) k :
  Forall (λ x, x ≠ Byte.x00) b → (k < length b)%nat →
  starts_with NUL (drop k (b ++ rest)) = false.
Proof.
  intros Hb. revert k. induction Hb as [|x b Hx Hb IH]; intros k Hk.
  - simpl in Hk. lia.
  - destruct k as [|k].
    + simpl. rewrite bool_decide_eq_false_2; [done |]. congruence.
    + simpl. apply IH. simpl in Hk. lia.
Qed.

Lemma find_at_absent sub data i :
  (∀ j, starts_with sub (drop j data) = false) → find_at sub data i = -1.
Proof.
  revert i. induction data as [|x data IH]; intros i Hno.
  - pose proof (Hno 0%nat) as H0. rewrite drop_0 in H0.
    simpl. by rewrite H0.
  - pose proof (Hno 0%nat) as H0. rewrite drop_0 in H0.
    simpl find_at. rewrite H0. apply IH. intros j. apply (Hno (S j)).
Qed.

(** Searching for the terminator from the start of NUL-free bytes: it is
    found right after them, or not at all when nothing follows. *)
Lemma find_nul_terminated (pre b rest : bytes) :
  Forall (λ x, x ≠ Byte.x00) b →
  find (pre ++ b ++ NUL ++ rest) NUL (len pre) = len pre + len b.
Proof.
  intros Hb. pose proof (len_nonneg pre). pose proof (len_nonneg b).
  apply find_found.
  - lia.
  - rewrite !len_app. pose proof (len_nonneg rest).
    change (len NUL) with 1. lia.
  - replace (Z.to_nat (len pre + len b)) with (length pre + length b)%nat
      by (unfold len in *; lia).
    rewrite <- drop_drop, !drop_app_length. apply starts_with_app.
  - intros j Hj.
    replace (Z.to_nat j) with (length pre + Z.to_nat (j - len pre))%nat
      by (unfold len in *; lia).
    rewrite <- drop_drop, drop_app_length.
    apply starts_with_nul_free; [done |]. unfold len in *. lia.
Qed.

Lemma find_nul_absent (pre b : bytes) :
  Forall (λ x, x ≠ Byte.x00) b → find (pre ++ b) NUL (len pre) = -1.
Proof.
  intros Hb. unfold find, clamp_index. rewrite len_app.
  pose proof (len_nonneg pre). pose proof (len_nonneg b).
  repeat case_decide; try lia.
  rewrite Z.min_l by lia. unfold len. rewrite Nat2Z.id, drop_app_length.
  apply find_at_absent. intros j.
  destruct (decide (j < length b)%nat) as [Hj|Hj].
  - rewrite <- (app_nil_r b). by apply starts_with_nul_free.
  - by rewrite drop_ge by lia.
Qed.

Lemma ascii_bytes_nul_free (s : str) :
  Forall (λ c, 0 < c < 128) s → Forall (λ x, x ≠ Byte.x00) (byte_of <$> s).
Proof.
  intros Hs. rewrite Forall_fmap. eapply Forall_impl; [exact Hs |].
  intros c Hc. by apply byte_of_ascii_inj_nul.
Qed.

(** Position of the terminator of the path in a parameter payload. *)
Lemma find_nul_after_token tok (s : str) rest :
  len tok = 4 → Forall (λ c, 0 < c < 128) s →
  find (tok ++ (byte_of <$> s) ++ NUL ++ rest) NUL 4 = 4 + len s.
Proof.
  intros Htok Hs. rewrite <- Htok, <- (len_fmap byte_of s).
  apply find_nul_terminated. by apply ascii_bytes_nul_free.
Qed.

Lemma slice_from_suffix {A : Type} (a b : list A) :
  0 < len b → slice_from (a ++ b) (- len b) = b.
Proof.
  intros Hb. unfold slice_from, slice, clamp_index.
  rewrite len_app. pose proof (len_nonneg a).
  repeat case_decide; try lia.
  rewrite Z.max_r, Z.min_l by lia.
  replace (Z.to_nat (- len b + (len a + len b))) with (length a)
    by (unfold len in *; lia).
  rewrite drop_app_length. apply take_ge. unfold len in *. lia.
Qed.

Lemma unpack_pack_I n b : pack_I n = Ok b → unpack_I b = Ok n ∧ len b = 4.
Proof.
  unfold pack_I. case_decide; [|done]. intros [= <-]. simpl.
  pose proof (Z.div_mod n 256 ltac:(lia)).
  pose proof (Z.mod_pos_bound n 256 ltac:(lia)).
  pose proof (Z.div_mod (n / 256) 256 ltac:(lia)).
  pose proof (Z.mod_pos_bound (n / 256) 256 ltac:(lia)).
  pose proof (Z.div_mod (n / 65536) 256 ltac:(lia)).
  pose proof (Z.mod_pos_bound (n / 65536) 256 ltac:(lia)).
  assert (n / 256 / 256 = n / 65536) by (rewrite Z.div_div by lia; done).
  assert (n / 65536 / 256 = n / 16777216) by (rewrite Z.div_div by lia; done).
  assert (0 ≤ n / 16777216 < 256)
    by (split; [apply Z.div_pos | apply Z.div_lt_upper_bound]; lia).
  rewrite !byte_val_of by lia.
  split; [f_equal; lia | done].
Qed.

(** The runtime of bit patterns meets the law of [PySingle]: its values
    are the bit patterns themselves. *)
Lemma bits_single : @PySingle bits_runtime.
Proof.
  constructor. intros b v b' _ Hpack. simpl in *.
  unfold bits_pack_f in Hpack.
  destruct (pack_I v) as [b0|e] eqn:Hp; [| done].
  injection Hpack as <-. by apply unpack_pack_I in Hp as [Hun _].
Qed.

(** So does the runtime whose codec rounds to the even values. *)
Lemma coarse_single : @PySingle coarse_runtime.
Proof.
  constructor. intros b v b' Hun Hpack. simpl in *.
  unfold coarse_unpack_f in *. unfold coarse_pack_f, bits_pack_f in Hpack.
  destruct (unpack_I b) as [n|e] eqn:Hn; [| done]. injection Hun as <-.
  rewrite (Z.mul_comm 2 n), Z.div_mul in Hpack by lia.
  destruct (pack_I n) as [b0|e] eqn:Hp; [| done].
  injection Hpack as <-. by apply unpack_pack_I in Hp as [-> _].
Qed.

Section pv_round_trip.
Context `{PyRuntime}.

(** Layout facts about the payload that [build_pv] assembles. *)
Lemma pv_payload_layout tok (path : str) pad vb :
  len tok = 4 → Forall (λ c, 0 < c < 128) path → len pad = 2 → len vb = 4 →
  let payload := tok ++ ((byte_of <$> path) ++ NUL) ++ pad ++ vb in
  len payload = len path + 11 ∧
  find payload NUL 4 = 4 + len path ∧
  slice payload 4 (4 + len path) = byte_of <$> path ∧
  slice_from payload (-4) = vb.
Proof.
  intros Htok Hpath Hpad Hvb payload. subst payload.
  pose proof (len_nonneg path).
  repeat split.
  - rewrite !len_app, len_fmap, Htok, Hpad, Hvb. change (len NUL) with 1. lia.
  - rewrite <- app_assoc. by apply find_nul_after_token.
  - apply (slice_mid_eq _ tok (byte_of <$> path) (NUL ++ pad ++ vb));
      rewrite <- ?app_assoc, ?len_fmap; try done; lia.
  - replace (-4) with (- len vb) by lia.
    rewrite !app_assoc. apply slice_from_suffix. lia.
Qed.

(** Decoding, by listen_params.py, of a delimited frame that carries a
    well-formed float payload. *)
Lemma listen_frame_pv idx size tok (path : str) pad vb v :
  len tok = 4 → path ≠ [] → Forall (λ c, 0 < c < 128) path →
  len pad = 2 → len vb = 4 → unpack_f vb = Ok v →
  listen_frame
    (RawFrame idx size TYPE_PV (tok ++ ((byte_of <$> path) ++ NUL) ++ pad ++ vb))
  = Ok [UpdPV path v].
Proof.
  intros Htok Hne Hpath Hpad Hvb Hv.
  destruct (pv_payload_layout tok path pad vb) as (Hl & Hf & Hs & Hv4);
    try done.
  assert (0 < len path)
    by (destruct path; [done | unfold len; simpl; lia]).
  unfold listen_frame. cbn [rf_payload rf_ptype].
  rewrite decide_True by done.
  rewrite Hf, Hl, Hs, Hv4, Hv, decode_encode_ascii by done.
  rewrite decide_True by lia. done.
Qed.

(** The same for [extract_pv_params] of discover_parameters.py. *)
Lemma extract_pv_step_pv params off size tystr tok (path : str) pad vb v :
  len tok = 4 → Forall (λ c, 0 < c < 128) path →
  len pad = 2 → len vb = 4 → unpack_f vb = Ok v →
  extract_pv_step params
    (Packet off size TYPE_PV tystr
       (tok ++ ((byte_of <$> path) ++ NUL) ++ pad ++ vb))
  = <[path := v]> params.
Proof.
  intros Htok Hpath Hpad Hvb Hv.
  destruct (pv_payload_layout tok path pad vb) as (Hl & Hf & Hs & Hv4);
    try done.
  pose proof (len_nonneg path).
  unfold extract_pv_step. cbn [pkt_payload pkt_type].
  rewrite decide_True by done.
  rewrite Hf, Hl, Hs, Hv4, Hv, decode_encode_ascii by done.
  rewrite decide_False by lia. rewrite decide_False by lia.
  rewrite decide_True by lia. done.
Qed.

Context `{!PySingle}.

(** C2 (as amended).  For a non-empty ASCII path without NUL of at most
    65522 characters, a 4-byte token and a float that [struct] can pack to
    single precision, the PV packet built by [build_pv] decodes to exactly
    one update: listen_params.py yields the single tuple [('PV', path, v')]
    and discover_parameters.py the single entry [{path: v'}], where [v'] is
    what [struct] unpacks from the four bytes it packed for [v].  The
    value is recovered exactly when it is representable: [v' = v] if and
    only if [v] is a single-precision value; in any case [v'] is one. *)
Theorem pv_round_trip (path : str) (v : pyfloat) (tok vb : bytes) :
  path ≠ [] → Forall (λ c, 0 < c < 128) path → len path ≤ 65522 →
  len tok = 4 → pack_f v = Ok vb →
  ∃ pkt v', build_pv path v tok = Ok pkt ∧ unpack_f vb = Ok v' ∧
    listen_parse_packets pkt = Ok [UpdPV path v'] ∧
    (extract_pv_params <$> parse_packets pkt) = Ok {[path := v']} ∧
    single v' ∧ (v' = v ↔ single v).
Proof.
  intros Hne Hpath Hlen Htok Hvb.
  pose proof (pack_f_len _ _ Hvb) as Hvl.
  destruct (unpack_f_ok vb Hvl) as [v' Hv'].
  set (pad := [Byte.x00; Byte.x00]).
  set (payload := tok ++ ((byte_of <$> path) ++ NUL) ++ pad ++ vb).
  destruct (pv_payload_layout tok path pad vb) as (Hl & _); try done.
  destruct (build_packet_ok TYPE_PV payload) as [pkt Hpkt];
    [fold payload in Hl; lia |].
  assert (build_pv path v tok = Ok pkt) as Hbuild.
  { unfold build_pv. rewrite encode_ascii_ok by done. simpl.
    rewrite Hvb. exact Hpkt. }
  pose proof (len_nonneg path).
  assert (∀ A (handle : raw_frame → result (list A)),
    scan handle pkt 0 =
      (xs ← handle (RawFrame 0 (2 + len payload) TYPE_PV payload);
       mret (xs ++ []))) as Hscan.
  { intros A handle.
    apply (scan_resync handle [] TYPE_PV payload pkt); try done.
    fold payload in Hl. change (len []) with 0. lia. }
  exists pkt, v'.
  split; [done |]. split; [done |]. split; [| split; [| split]].
  - unfold listen_parse_packets. rewrite Hscan.
    unfold payload. by rewrite (listen_frame_pv _ _ _ _ _ _ v').
  - unfold parse_packets. rewrite Hscan.
    change (Ok (extract_pv_step ∅
                  (Packet 0 (2 + len payload) TYPE_PV
                     (decode_ascii_replace TYPE_PV) payload))
            = Ok {[path := v']}).
    unfold payload.
    by rewrite (extract_pv_step_pv _ _ _ _ _ _ _ _ v'), insert_empty.
  - by exists vb.
  - split.
    + intros <-. by exists vb.
    + intros [b Hb]. pose proof (unpack_f_stable b v vb Hb Hvb) as Hst.
      rewrite Hv' in Hst. by injection Hst.
Qed.

End pv_round_trip.

(** Instances of the round trip at path [main/ch1/volume] and the client
    token: the value 0.5 in the runtime of bit patterns, where it is
    representable, and the odd value 3 in the runtime that rounds to even
    values, where it is not. *)
Lemma pv_round_trip_witness :
  (∃ pkt v',
     @build_pv bits_runtime (str_of "main/ch1/volume") 1056964608 UC_CBYTES
       = Ok pkt ∧
     unpack_I [Byte.x00; Byte.x00; Byte.x00; Byte.x3f] = Ok v' ∧
     @listen_parse_packets bits_runtime pkt
       = Ok [@UpdPV bits_runtime (str_of "main/ch1/volume") v'] ∧
     (@extract_pv_params bits_runtime <$> parse_packets pkt)
       = Ok {[str_of "main/ch1/volume" := v']} ∧
     @single bits_runtime v' ∧
     (v' = 1056964608 ↔ @single bits_runtime 1056964608)) ∧
  (∃ pkt v',
     @build_pv coarse_runtime (str_of "main/ch1/volume") 3 UC_CBYTES
       = Ok pkt ∧
     coarse_unpack_f [Byte.x01; Byte.x00; Byte.x00; Byte.x00] = Ok v' ∧
     @listen_parse_packets coarse_runtime pkt
       = Ok [@UpdPV coarse_runtime (str_of "main/ch1/volume") v'] ∧
     (@extract_pv_params coarse_runtime <$> parse_packets pkt)
       = Ok {[str_of "main/ch1/volume" := v']} ∧
     @single coarse_runtime v' ∧
     (v' = 3 ↔ @single coarse_runtime 3)).
Proof.
  split.
  - apply (@pv_round_trip bits_runtime bits_single (str_of "main/ch1/volume")
             1056964608 UC_CBYTES [Byte.x00; Byte.x00; Byte.x00; Byte.x3f]).
    + discriminate.
    + apply (bool_decide_unpack _). vm_compute. exact I.
    + vm_compute. discriminate.
    + reflexivity.
    + reflexivity.
  - apply (@pv_round_trip coarse_runtime coarse_single
             (str_of "main/ch1/volume") 3 UC_CBYTES
             [Byte.x01; Byte.x00; Byte.x00; Byte.x00]).
    + discriminate.
    + apply (bool_decide_unpack _). vm_compute. exact I.
    + vm_compute. discriminate.
    + reflexivity.
    + reflexivity.
Defined.

(** C2, counterexample.  A path of 65523 ASCII letters is non-empty and
    NUL-free, yet no packet is built from it: the size field of the frame
    would be 65536, which [struct.pack('<H', ...)] refuses, so there is
    nothing to decode. *)
Lemma pv_round_trip_long_path_fails :
  long_path ≠ [] ∧ Forall (λ c, 0 < c < 128) long_path ∧
  len UC_CBYTES = 4 ∧
  @build_pv bits_runtime long_path 1056964608 UC_CBYTES = Raise StructError.
Proof.
  split; [| split; [| split]].
  - intros Heq. apply (f_equal length) in Heq. unfold long_path in Heq.
    rewrite length_replicate in Heq. simpl in Heq. lia.
  - apply Forall_replicate. lia.
  - reflexivity.
  - vm_compute. reflexivity.
Qed.

(** ** Resynchronisation *)

(** The scanners of discover_parameters.py and parse_zb_packets.py skip
    leading magic-free bytes and return the one frame that follows them,
    provided the leading bytes and the payload are not both empty. *)
Lemma parse_packets_resync g ptype payload frame :
  find g MAGIC 0 = -1 → len ptype = 2 →
  build_packet ptype payload = Ok frame →
  0 < len g + len payload →
  parse_packets (g ++ frame) =
    Ok [Packet (len g) (2 + len payload) ptype
          (decode_ascii_replace ptype) payload].
Proof.
  intros Hg Hty Hb Hne. unfold parse_packets.
  by rewrite (scan_resync _ g ptype payload frame).
Qed.

Lemma recv_drain_eq buffer :
  recv_drain buffer =
    match recv_step buffer with
    | Break => Ok ([], buffer)
    | Throw e => Raise e
    | Continue buffer' => recv_drain buffer'
    | Produce pkt buffer' =>
        r ← recv_drain buffer'; mret (pkt :: r.1, r.2)
    end.
Proof.
  simp recv_drain. unfold inspect.
  generalize (@eq_refl _ (recv_step buffer)).
  generalize (recv_step buffer) at 2 4 5.
  intros s Hs. destruct s; simp recv_drain; reflexivity.
Qed.

Lemma slice_to_all {A : Type} (l : list A) : slice_to l (len l) = l.
Proof.
  unfold slice_to, slice, clamp_index. pose proof (len_nonneg l).
  repeat case_decide; try lia.
  rewrite !Z.min_l by lia. simpl. rewrite drop_0.
  apply take_ge. unfold len. lia.
Qed.

Lemma slice_from_all {A : Type} (l : list A) : slice_from l (len l) = [].
Proof.
  unfold slice_from, slice, clamp_index. pose proof (len_nonneg l).
  repeat case_decide; try lia.
  rewrite !Z.min_l by lia. rewrite Z.sub_diag. apply take_0.
Qed.

Lemma slice_from_app {A : Type} (a b : list A) : slice_from (a ++ b) (len a) = b.
Proof.
  unfold slice_from, slice, clamp_index. rewrite len_app.
  pose proof (len_nonneg a). pose proof (len_nonneg b).
  repeat case_decide; try lia.
  rewrite !Z.min_l by lia.
  unfold len. rewrite Nat2Z.id, drop_app_length. apply take_ge. lia.
Qed.

Lemma slice_to_app {A : Type} (a b : list A) : slice_to (a ++ b) (len a) = a.
Proof.
  unfold slice_to, slice, clamp_index. rewrite len_app.
  pose proof (len_nonneg a). pose proof (len_nonneg b).
  repeat case_decide; try lia.
  rewrite !Z.min_l by lia. simpl. rewrite drop_0, Z.sub_0_r.
  unfold len. rewrite Nat2Z.id. apply take_app_length.
Qed.

Lemma slice_to_magic data :
  slice_to data 4 = MAGIC → starts_with MAGIC data = true.
Proof.
  intros Hs. apply starts_with_prefix.
  unfold slice_to, slice, clamp_index in Hs. pose proof (len_nonneg data).
  repeat case_decide; try lia.
  rewrite (Z.min_l 0) in Hs by lia. change (Z.to_nat 0) with 0%nat in Hs.
  rewrite drop_0 in Hs. rewrite <- Hs. apply prefix_take.
Qed.

(** [parse_ucnet_packet] on the bytes of one frame. *)
Lemma parse_ucnet_packet_frame ptype payload frame :
  build_packet ptype payload = Ok frame → len ptype = 2 →
  parse_ucnet_packet frame =
    Ok (Some (UPacket (2 + len payload) ptype
                (decode_ascii_replace ptype) payload)).
Proof.
  intros Hb Hty.
  apply build_packet_eq in Hb as (size & Hsz & ->).
  apply unpack_pack_H in Hsz as [Hun Hsl].
  pose proof (len_nonneg payload).
  assert (len MAGIC = 4) as Hm by done.
  unfold parse_ucnet_packet.
  rewrite !len_app, Hm, Hsl, Hty.
  rewrite decide_False by lia.
  pose proof (slice_to_app MAGIC (size ++ ptype ++ payload)) as Hst.
  change (len MAGIC) with 4 in Hst. rewrite Hst.
  rewrite decide_False by (intros Hc; by apply Hc).
  rewrite (slice_mid_eq _ MAGIC size (ptype ++ payload) 4 6)
    by (rewrite ?Hm; (done || lia)).
  rewrite Hun. simpl.
  rewrite (slice_mid_eq _ (MAGIC ++ size) ptype payload 6 8);
    rewrite ?len_app, <- ?app_assoc, ?Hm; try done; try lia.
  rewrite decide_True by lia.
  rewrite (slice_mid_eq _ (MAGIC ++ size ++ ptype) payload [] 8);
    rewrite ?len_app, <- ?app_assoc, ?app_nil_r, ?Hm; try done; lia.
Qed.

(** The receive loop handles a buffer that holds exactly one frame. *)
Lemma recv_drain_frame ptype payload frame :
  build_packet ptype payload = Ok frame → len ptype = 2 →
  recv_drain frame =
    Ok ([UPacket (2 + len payload) ptype
           (decode_ascii_replace ptype) payload], []).
Proof.
  intros Hb Hty.
  pose proof (parse_ucnet_packet_frame _ _ _ Hb Hty) as Hparse.
  apply build_packet_eq in Hb as (size & Hsz & Hframe).
  apply unpack_pack_H in Hsz as [Hun Hsl].
  pose proof (len_nonneg payload).
  assert (len MAGIC = 4) as Hm by done.
  assert (len frame = 8 + len payload) as Hlen
    by (rewrite Hframe, !len_app, Hm, Hsl, Hty; lia).
  rewrite recv_drain_eq. unfold recv_step.
  rewrite decide_True by lia.
  rewrite decide_False; cycle 1.
  { intros Hc. apply Hc. rewrite Hframe. apply (slice_to_app MAGIC). }
  replace (slice frame 4 6) with size; cycle 1.
  { symmetry. rewrite Hframe.
    apply (slice_mid_eq _ MAGIC size (ptype ++ payload));
      rewrite ?Hm; (done || lia). }
  rewrite Hun. rewrite decide_True by lia.
  replace (6 + (2 + len payload)) with (len frame) by lia.
  rewrite slice_to_all, slice_from_all, Hparse.
  rewrite recv_drain_eq. unfold recv_step.
  rewrite decide_False by (unfold len; simpl; lia). done.
Qed.

(** The receive loop of test_ucdaemon_control.py resynchronises in every
    case: magic-free bytes followed by one frame leave exactly that frame
    handled and an empty buffer. *)
Lemma recv_drain_resync g ptype payload frame :
  find g MAGIC 0 = -1 → len ptype = 2 →
  build_packet ptype payload = Ok frame →
  recv_drain (g ++ frame) =
    Ok ([UPacket (2 + len payload) ptype
           (decode_ascii_replace ptype) payload], []).
Proof.
  intros Hg Hty Hb.
  destruct g as [|b g]; [by apply recv_drain_frame |].
  set (g' := b :: g) in *.
  pose proof (recv_drain_frame _ _ _ Hb Hty) as Hdrain.
  apply build_packet_eq in Hb as (size & Hsz & ->).
  apply unpack_pack_H in Hsz as [Hun Hsl].
  pose proof (len_nonneg payload).
  assert (0 < len g') as Hg' by (unfold len, g'; simpl; lia).
  assert (len MAGIC = 4) as Hm by done.
  rewrite recv_drain_eq. unfold recv_step.
  rewrite decide_True by (rewrite !len_app, Hm, Hsl, Hty; lia).
  rewrite decide_True; cycle 1.
  { intros Hc. apply slice_to_magic in Hc.
    rewrite magic_no_straddle in Hc; [done | done |].
    apply (find_none _ _ Hg 0%nat). }
  rewrite (find_magic_after g' _ 1);
    [| lia | intros j _; by apply find_none].
  rewrite decide_True by lia.
  by rewrite slice_from_app.
Qed.

(** C3, at the failing input.  The keepalive frame with an empty payload,
    as built by [build_keepalive_packet] of test_ucnet_network.py, preceded
    by no other byte, is a completely received valid frame; the scanners
    [parse_packets] and [find_packets] return no frame for it, because
    their loop guard [pos < len(data) - 8] is already false at [pos = 0],
    whereas the receive loop of test_ucdaemon_control.py, whose guard is
    [len(buffer) >= 8], decodes it. *)
Theorem empty_payload_frame_not_scanned :
  build_keepalive_packet = Ok KA_FRAME ∧
  find [] MAGIC 0 = -1 ∧
  parse_packets ([] ++ KA_FRAME) = Ok [] ∧
  find_packets ([] ++ KA_FRAME) = Ok [] ∧
  recv_drain ([] ++ KA_FRAME) = Ok ([UPacket 2 TYPE_KA (str_of "KA") []], []).
Proof.
  split; [reflexivity |]. split; [reflexivity |].
  split; [| split].
  - unfold parse_packets. by rewrite scan_at_end.
  - unfold find_packets, parse_packets. by rewrite scan_at_end.
  - by rewrite (recv_drain_resync [] TYPE_KA [] KA_FRAME).
Qed.

(** ** Truncated frames *)

Lemma find_at_start data sub :
  starts_with sub data = true → find data sub 0 = 0.
Proof.
  intros Hs. apply find_found; [lia | apply len_nonneg | done | lia].
Qed.

(** [parse_packet] of monitor_and_send.py reports a truncated frame as
    incomplete and leaves the offset where it was. *)
Lemma parse_packet_incomplete data size :
  unpack_H (slice data 4 6) = Ok size → len data < 6 + size →
  slice data 0 4 = MAGIC →
  parse_packet data 0 = Ok (None, 0).
Proof.
  intros Hsz Hlen Hm. unfold parse_packet. rewrite !Z.add_0_l.
  case_decide; [done |]. rewrite Hm. rewrite decide_False by naive_solver.
  rewrite Hsz. simpl. by rewrite decide_True by lia.
Qed.

(** The scanners do not stop at a truncated frame: they look for the next
    magic from the second byte of the buffer on. *)
Lemma scan_truncated {A : Type} (handle : raw_frame → result (list A))
    data size :
  starts_with MAGIC data = true →
  unpack_H (slice data 4 6) = Ok size → len data < 6 + size →
  scan handle data 0 = scan handle data 1.
Proof.
  intros Hm Hsz Hlen. rewrite scan_eq. unfold scan_step.
  rewrite (find_at_start _ _ Hm). rewrite !Z.add_0_l.
  case_decide.
  - rewrite decide_False by lia. rewrite decide_False by lia.
    rewrite Hsz. by rewrite decide_True by lia.
  - by rewrite scan_at_end by lia.
Qed.

(** C4 (as amended).  On a buffer that begins with the magic and whose
    declared frame length exceeds the bytes available, [parse_packet] of
    monitor_and_send.py returns no frame and the unchanged offset; the
    scanners [parse_packets] of discover_parameters.py and listen_params.py
    return no frame that starts at that magic, and resume the search for a
    magic at offset 1, inside the truncated frame. *)
Theorem truncated_frame_incomplete `{PyRuntime} (data : bytes) (size : Z) :
  starts_with MAGIC data = true →
  unpack_H (slice data 4 6) = Ok size →
  len data < 6 + size →
  parse_packet data 0 = Ok (None, 0) ∧
  parse_packets data = scan (λ f, Ok [packet_of f]) data 1 ∧
  listen_parse_packets data = scan listen_frame data 1 ∧
  ∃ pkts, parse_packets data = Ok pkts ∧
          Forall (λ p, 0 < pkt_offset p) pkts.
Proof.
  intros Hm Hsz Hlen. repeat split.
  - apply (parse_packet_incomplete data size); try done.
    apply starts_with_prefix in Hm as [rest ->].
    apply (slice_mid_eq _ [] MAGIC rest); done.
  - by apply (scan_truncated _ data size).
  - by apply (scan_truncated _ data size).
  - unfold parse_packets. rewrite (scan_truncated _ data size) by done.
    destruct (scan_packets_ordered data 1) as (pkts & -> & Hge & _).
    exists pkts. split; [done |].
    eapply Forall_impl; [exact Hge |]. simpl. intros p ?. lia.
Qed.

Lemma truncated_frame_incomplete_witness :
  parse_packet TRUNCATED_ZB 0 = Ok (None, 0) ∧
  parse_packets TRUNCATED_ZB = scan (λ f, Ok [packet_of f]) TRUNCATED_ZB 1 ∧
  @listen_parse_packets bits_runtime TRUNCATED_ZB
    = scan (@listen_frame bits_runtime) TRUNCATED_ZB 1 ∧
  ∃ pkts, parse_packets TRUNCATED_ZB = Ok pkts ∧
          Forall (λ p, 0 < pkt_offset p) pkts.
Proof.
  apply (@truncated_frame_incomplete bits_runtime TRUNCATED_ZB 65535).
  - reflexivity.
  - reflexivity.
  - vm_compute. reflexivity.
Defined.

(** C4, counterexample.  The buffer begins with the magic and declares
    65535 bytes where 14 follow, yet [parse_packets] produces a frame: the
    keepalive frame that lies inside the truncated one, at offset 8. *)
Lemma truncated_frame_scanned_into :
  starts_with MAGIC TRUNCATED_ZB = true ∧
  unpack_H (slice TRUNCATED_ZB 4 6) = Ok 65535 ∧
  len TRUNCATED_ZB < 6 + 65535 ∧
  parse_packets TRUNCATED_ZB =
    Ok [Packet 8 6 TYPE_KA (str_of "KA")
          [Byte.x6a; Byte.x00; Byte.x65; Byte.x00]].
Proof.
  split; [reflexivity |]. split; [reflexivity |].
  split; [vm_compute; reflexivity |]. vm_compute. reflexivity.
Qed.

(** ** Malformed parameter frames *)

Section malformed_frames.
Context `{PyRuntime}.

Lemma extract_pv_step_malformed params bad :
  malformed (pkt_payload bad) → extract_pv_step params bad = params.
Proof.
  intros [Hnul|Hshort]; unfold extract_pv_step;
    repeat case_decide; try done; try lia.
Qed.

Lemma extract_ps_step_malformed params bad :
  malformed (pkt_payload bad) → extract_ps_step params bad = params.
Proof.
  intros [Hnul|Hshort]; unfold extract_ps_step;
    repeat case_decide; try done; try lia.
Qed.

(** C6.  A parameter frame whose payload has no NUL terminator for the
    path after the 4-byte token, or is shorter than the minimum size,
    contributes no update to [extract_pv_params] nor to
    [extract_ps_params], and the frames before and after it are decoded as
    if it were absent.  Neither function can raise: the only operation in
    them that can, [struct.unpack], is under the bare [except], which is
    part of [extract_pv_step]. *)
Theorem malformed_frame_skipped (before after : list packet) (bad : packet) :
  malformed (pkt_payload bad) →
  (∀ params, extract_pv_step params bad = params) ∧
  (∀ params, extract_ps_step params bad = params) ∧
  extract_pv_params (before ++ bad :: after)
    = extract_pv_params (before ++ after) ∧
  extract_ps_params (before ++ bad :: after)
    = extract_ps_params (before ++ after).
Proof.
  intros Hbad. repeat split.
  - intros params. by apply extract_pv_step_malformed.
  - intros params. by apply extract_ps_step_malformed.
  - unfold extract_pv_params. rewrite !foldl_app. simpl.
    by rewrite extract_pv_step_malformed.
  - unfold extract_ps_params. rewrite !foldl_app. simpl.
    by rewrite extract_ps_step_malformed.
Qed.

End malformed_frames.

Lemma malformed_frame_skipped_witness :
  (∀ params, @extract_pv_step bits_runtime params BAD_PACKET = params) ∧
  (∀ params, extract_ps_step params BAD_PACKET = params) ∧
  @extract_pv_params bits_runtime ([GOOD_PACKET] ++ BAD_PACKET :: [GOOD_PACKET])
    = @extract_pv_params bits_runtime ([GOOD_PACKET] ++ [GOOD_PACKET]) ∧
  extract_ps_params ([GOOD_PACKET] ++ BAD_PACKET :: [GOOD_PACKET])
    = extract_ps_params ([GOOD_PACKET] ++ [GOOD_PACKET]).
Proof.
  apply (@malformed_frame_skipped bits_runtime).
  left. vm_compute. reflexivity.
Defined.

(** ** String parameters *)

Section ps_value.
Context `{PyRuntime}.

Lemma slice_to_end {A : Type} (a b : list A) :
  slice (a ++ b) (len a) (len (a ++ b)) = b.
Proof. apply slice_from_app. Qed.

(** Layout of a string payload: where the terminator of the path is, and
    where the search for the terminator of the value ends. *)
Lemma ps_payload_layout tok pathb p0 p1 value after :
  len tok = 4 →
  Forall (λ x, x ≠ Byte.x00) pathb → Forall (λ x, x ≠ Byte.x00) value →
  after = [] ∨ (∃ after', after = Byte.x00 :: after') →
  let payload := tok ++ pathb ++ NUL ++ [p0; p1] ++ value ++ after in
  let null_idx := 4 + len pathb in
  find payload NUL 4 = null_idx ∧
  slice payload 4 null_idx = pathb ∧
  find payload NUL (null_idx + 3)
    = (if decide (after = []) then -1 else null_idx + 3 + len value) ∧
  slice payload (null_idx + 3) (null_idx + 3 + len value) = value ∧
  len payload = null_idx + 3 + len value + len after.
Proof.
  intros Htok Hpath Hvalue Hafter payload null_idx.
  pose proof (len_nonneg pathb). pose proof (len_nonneg value).
  set (pre := tok ++ pathb ++ NUL ++ [p0; p1]).
  assert (len pre = null_idx + 3) as Hpre.
  { unfold pre, null_idx. rewrite !len_app, Htok.
    change (len NUL) with 1. change (len [p0; p1]) with 2. lia. }
  assert (payload = pre ++ value ++ after) as Hpay.
  { unfold payload, pre. by rewrite <- !app_assoc. }
  split; [| split; [| split; [| split]]].
  - unfold payload, null_idx. rewrite <- Htok. apply find_nul_terminated.
    exact Hpath.
  - apply (slice_mid_eq _ tok pathb (NUL ++ [p0; p1] ++ value ++ after));
      unfold null_idx; (done || lia).
  - rewrite Hpay, <- Hpre.
    destruct Hafter as [-> | [after' ->]].
    + rewrite decide_True by done. rewrite app_nil_r.
      by apply find_nul_absent.
    + rewrite decide_False by done.
      by apply (find_nul_terminated pre value after').
  - apply (slice_mid_eq _ pre value after); (done || lia).
  - rewrite Hpay, !len_app, Hpre. lia.
Qed.

(** C7 (as amended).  For a string payload made of a 4-byte token, a
    non-empty NUL-terminated path and at least two further bytes, the
    string value begins 3 bytes after the terminator of the path and runs
    to the next NUL byte or, when none follows, to the end of the payload:
    [extract_ps_params] of discover_parameters.py decodes exactly that
    value provided the payload has at least 10 bytes, and [parse_packets]
    of listen_params.py yields it provided it is not empty and a NUL byte
    follows it, and yields nothing otherwise. *)
Theorem ps_value_extent (params : gmap str str) (off size : Z) (tystr : str)
    (tok pathb value after : bytes) (p0 p1 : byte) :
  len tok = 4 → pathb ≠ [] →
  Forall (λ x, x ≠ Byte.x00) pathb → Forall (λ x, x ≠ Byte.x00) value →
  after = [] ∨ (∃ after', after = Byte.x00 :: after') →
  let payload := tok ++ pathb ++ NUL ++ [p0; p1] ++ value ++ after in
  10 ≤ len payload →
  extract_ps_step params (Packet off size TYPE_PS tystr payload)
    = <[decode_ascii_replace pathb := decode_ascii_replace value]> params ∧
  listen_frame (RawFrame off size TYPE_PS payload)
    = Ok (if decide (value ≠ [] ∧ after ≠ [])
          then [UpdPS (decode_ascii_replace pathb) (decode_utf8_replace value)]
          else []).
Proof.
  intros Htok Hne Hpath Hvalue Hafter payload Hlen.
  destruct (ps_payload_layout tok pathb p0 p1 value after)
    as (Hf & Hs & Hf2 & Hs2 & Hl); try done.
  fold payload in Hf, Hs, Hf2, Hs2, Hl.
  pose proof (len_nonneg value). pose proof (len_nonneg after).
  assert (0 < len pathb)
    by (destruct pathb; [done | unfold len; simpl; lia]).
  split.
  - unfold extract_ps_step. cbn [pkt_payload pkt_type].
    rewrite decide_True by done. rewrite decide_False by lia.
    rewrite Hf, Hs, Hf2. rewrite decide_False by lia.
    destruct (decide (after = [])) as [->|Hafter'].
    + rewrite decide_True by done.
      replace (len payload) with (4 + len pathb + 3 + len value)
        by (rewrite Hl; unfold len at 5; simpl; lia).
      by rewrite Hs2.
    + rewrite decide_False by lia. by rewrite Hs2.
  - unfold listen_frame. cbn [rf_payload rf_ptype].
    rewrite decide_False by done. rewrite decide_True by done.
    rewrite Hf, Hs, Hf2. rewrite decide_True by lia.
    destruct (decide (after = [])) as [->|Hafter'].
    + rewrite decide_False by lia.
      by rewrite decide_False by (intros [_ ?]; done).
    + destruct (decide (value = [])) as [->|Hv].
      * change (len []) with 0. rewrite decide_False by lia.
        by rewrite decide_False by (intros [? _]; done).
      * assert (0 < len value)
          by (destruct value; [done | unfold len; simpl; lia]).
        rewrite decide_True by lia. rewrite Hs2.
        by rewrite decide_True by done.
Qed.

End ps_value.

Lemma ps_value_extent_witness :
  extract_ps_step ∅
    (Packet 13 13 TYPE_PS (str_of "PS")
       (UC_CBYTES ++ bytes_of "ab" ++ NUL ++ [Byte.x00; Byte.x00]
          ++ bytes_of "xy" ++ []))
    = <[decode_ascii_replace (bytes_of "ab")
        := decode_ascii_replace (bytes_of "xy")]> ∅ ∧
  @listen_frame bits_runtime
    (RawFrame 13 13 TYPE_PS
       (UC_CBYTES ++ bytes_of "ab" ++ NUL ++ [Byte.x00; Byte.x00]
          ++ bytes_of "xy" ++ []))
    = Ok (if decide (bytes_of "xy" ≠ [] ∧ @nil byte ≠ [])
          then [@UpdPS bits_runtime (decode_ascii_replace (bytes_of "ab"))
                  (decode_ascii_replace (bytes_of "xy"))]
          else []).
Proof.
  apply (@ps_value_extent bits_runtime ∅ 13 13 (str_of "PS") UC_CBYTES
    (bytes_of "ab") (bytes_of "xy") [] Byte.x00 Byte.x00).
  - reflexivity.
  - discriminate.
  - by repeat constructor.
  - by repeat constructor.
  - by left.
  - vm_compute. discriminate.
Defined.

(** C7, counterexample.  The 9-byte payload made of a token, the path [a],
    its NUL, two padding bytes and the value [x] has the shape the claim
    requires, but [extract_ps_params] decodes no value from it (it demands
    10 bytes), and neither does listen_params.py (no NUL follows [x]). *)
Lemma ps_short_payload_not_decoded :
  len UC_CBYTES = 4 ∧ PS_SHORT = UC_CBYTES ++ bytes_of "a" ++ NUL
     ++ [Byte.x00; Byte.x00] ++ bytes_of "x" ++ [] ∧
  extract_ps_params [Packet 0 11 TYPE_PS (str_of "PS") PS_SHORT] = ∅ ∧
  @listen_frame bits_runtime (RawFrame 0 11 TYPE_PS PS_SHORT) = Ok [].
Proof.
  split; [reflexivity |]. split; [reflexivity |].
  split; reflexivity.
Qed.

(** ** JSON frames with an over-declared length *)

Lemma slice_beyond_end {A : Type} (a b : list A) hi :
  len (a ++ b) ≤ hi → slice (a ++ b) (len a) hi = b.
Proof.
  intros Hhi. unfold slice, clamp_index. rewrite len_app in *.
  pose proof (len_nonneg a). pose proof (len_nonneg b).
  repeat case_decide; try lia.
  rewrite (Z.min_r hi), (Z.min_l (len a)) by lia.
  unfold len. rewrite Nat2Z.id, drop_app_length. apply take_ge. lia.
Qed.

Lemma unpack_I_len b n : unpack_I b = Ok n → len b = 4.
Proof.
  destruct b as [|b0 [|b1 [|b2 [|b3 [|b4 b]]]]]; simpl; try done.
Qed.

(** C10.  When the 4-byte little-endian length of a JM payload declares
    more JSON bytes than follow the 8-byte prefix, decoding does not raise
    and reads nothing outside the payload: the slice
    [payload[8:8+json_len]] is cut at the end of the payload, so the text
    decoded is that of the bytes that remain, and the excess goes
    unnoticed.  (When no byte at all follows the prefix, the branch is
    skipped and nothing is printed.) *)
Theorem jm_overlong_length_truncates `{PyRuntime}
    (tok lenb rest : bytes) (json_len : Z) :
  len tok = 4 → unpack_I lenb = Ok json_len → len rest < json_len →
  let payload := tok ++ lenb ++ rest in
  slice payload 8 (8 + json_len) = rest ∧
  jm_json_text payload
    = Ok (if decide (rest = []) then None
          else Some (decode_utf8_replace rest)) ∧
  jm_json_line payload
    = Ok (if decide (rest = []) then None
          else Some (match decode_utf8 rest with
                     | Ok s => JsonLine s
                     | Raise _ => DecodeErrorLine
                     end)).
Proof.
  intros Htok Hlenb Hlong payload.
  pose proof (unpack_I_len _ _ Hlenb) as Hl4.
  pose proof (len_nonneg rest).
  assert (len payload = 8 + len rest) as Hlen
    by (unfold payload; rewrite !len_app; lia).
  assert (slice payload 4 8 = lenb) as Hs4.
  { apply (slice_mid_eq _ tok lenb rest); (done || lia). }
  assert (slice payload 8 (8 + json_len) = rest) as Hs8.
  { unfold payload. rewrite app_assoc.
    replace 8 with (len (tok ++ lenb)) at 1 by (rewrite len_app; lia).
    apply slice_beyond_end. rewrite !len_app. lia. }
  split; [exact Hs8 |].
  unfold jm_json_text, jm_json_line.
  destruct (decide (rest = [])) as [->|Hne].
  - change (len []) with 0 in Hlen. by rewrite !decide_False by lia.
  - assert (0 < len rest)
      by (destruct rest; [done | unfold len; simpl; lia]).
    rewrite !decide_True by lia. rewrite Hs4, Hlenb.
    cbn [mbind result_bind mret result_ret]. by rewrite Hs8.
Qed.

Lemma jm_overlong_length_truncates_witness :
  slice (REPLY_TOKEN ++ [Byte.xff; Byte.x00; Byte.x00; Byte.x00] ++ REPLY_JSON)
        8 (8 + 255) = REPLY_JSON ∧
  @jm_json_text bits_runtime
    (REPLY_TOKEN ++ [Byte.xff; Byte.x00; Byte.x00; Byte.x00] ++ REPLY_JSON)
    = Ok (if decide (REPLY_JSON = []) then None
          else Some (@decode_utf8_replace bits_runtime REPLY_JSON)) ∧
  @jm_json_line bits_runtime
    (REPLY_TOKEN ++ [Byte.xff; Byte.x00; Byte.x00; Byte.x00] ++ REPLY_JSON)
    = Ok (if decide (REPLY_JSON = []) then None
          else Some (match @decode_utf8 bits_runtime REPLY_JSON with
                     | Ok s => JsonLine s
                     | Raise _ => DecodeErrorLine
                     end)).
Proof.
  apply (@jm_overlong_length_truncates bits_runtime REPLY_TOKEN
           [Byte.xff; Byte.x00; Byte.x00; Byte.x00] REPLY_JSON 255).
  - reflexivity.
  - reflexivity.
  - vm_compute. reflexivity.
Defined.

(** ** Adoption of the session token *)

(** The backward loop returns the token of the nearest JM header at or
    before the position it starts from, when that header is among the
    positions it visits. *)
Lemma scan_back_found state i0 n session i :
  i ≤ i0 → i0 - Z.of_nat n < i →
  json_header_at state i →
  (∀ j, i < j ≤ i0 → ¬ json_header_at state j) →
  scan_back state i0 n session = slice state (i + 8) (i + 12).
Proof.
  revert i0. induction n as [|n IH]; intros i0 Hle Hlow Hat Hnone.
  - lia.
  - simpl. destruct (decide (i = i0)) as [->|Hne].
    + by rewrite decide_True.
    + rewrite decide_False by (apply Hnone; lia).
      apply IH; [lia | lia | done |]. intros j Hj. apply Hnone. lia.
Qed.

Lemma session_cbytes_found state idx i :
  find state SUBSCRIPTION_REPLY 0 = idx →
  0 < i ≤ idx → idx - 50 < i →
  json_header_at state i →
  (∀ j, i < j ≤ idx → ¬ json_header_at state j) →
  session_cbytes state = slice state (i + 8) (i + 12).
Proof.
  intros Hidx Hi Hnear Hat Hnone. unfold session_cbytes. rewrite Hidx.
  rewrite decide_True by lia.
  apply scan_back_found; try done; lia.
Qed.

(** The token of a PV frame built by [build_pv] is at bytes 8 to 12 of the
    frame, that is in the first four bytes of its payload. *)
Lemma build_pv_token `{PyRuntime} key value tok pkt :
  build_pv key value tok = Ok pkt → len tok = 4 →
  slice pkt 8 12 = tok ∧
  ∃ rest, pkt = MAGIC ++ slice pkt 4 6 ++ TYPE_PV ++ tok ++ rest.
Proof.
  unfold build_pv. destruct (encode_ascii key) as [kb|]; [|done].
  destruct (pack_f value) as [vb|]; [|done].
  cbn [mbind result_bind]. intros Hb Htok.
  apply build_packet_eq in Hb as (size & Hsz & ->).
  apply unpack_pack_H in Hsz as [_ Hsl].
  assert (len MAGIC = 4) as Hm by done.
  split.
  - rewrite <- !app_assoc.
    apply (slice_mid_eq _ (MAGIC ++ size ++ TYPE_PV) tok
             ((kb ++ NUL) ++ [Byte.x00; Byte.x00] ++ vb));
      rewrite ?len_app, <- ?app_assoc, ?Hm, ?Hsl, ?Htok; try done.
  - exists ((kb ++ NUL) ++ [Byte.x00; Byte.x00] ++ vb).
    rewrite (slice_mid_eq _ MAGIC size
               (TYPE_PV ++ tok ++ (kb ++ NUL) ++ [Byte.x00; Byte.x00] ++ vb)
               4 6);
      rewrite ?Hm, ?Hsl; try done.
Qed.

(** C1 (as amended).  Once the received bytes contain the acceptance
    marker [SubscriptionReply] and the header of the JM frame that carries
    it lies after the first received byte and at most 49 bytes before the
    marker, the token [T] read from the 4 bytes that follow the type tag
    of that frame is adopted: the first parameter frame written afterwards
    has [T] in the first four bytes of its payload.  It is followed by a
    second frame for the same parameter, written with the client-chosen
    token [72 00 65 00]. *)
Theorem session_token_adopted `{PyRuntime}
    (state : bytes) (idx i : Z) (T : bytes) (key : str) (value : pyfloat)
    (sent : list bytes) :
  find state SUBSCRIPTION_REPLY 0 = idx →
  0 < i ≤ idx → idx - 50 < i →
  json_header_at state i →
  (∀ j, i < j ≤ idx → ¬ json_header_at state j) →
  slice state (i + 8) (i + 12) = T → len T = 4 →
  test_parameter_sends state key value = Ok sent →
  session_cbytes state = T ∧
  ∃ pv pv2, sent = [pv; pv2] ∧
    build_pv key value T = Ok pv ∧ slice pv 8 12 = T ∧
    build_pv key value UC_CBYTES = Ok pv2 ∧ slice pv2 8 12 = UC_CBYTES.
Proof.
  intros Hidx Hi Hnear Hat Hnone HT HlT Hsent.
  pose proof (session_cbytes_found state idx i Hidx Hi Hnear Hat Hnone) as Hs.
  rewrite HT in Hs. split; [exact Hs |].
  unfold test_parameter_sends in Hsent. rewrite Hs in Hsent.
  destruct (build_pv key value T) as [pv|] eqn:Hpv; [|done].
  destruct (build_pv key value UC_CBYTES) as [pv2|] eqn:Hpv2; [|done].
  cbn [mbind result_bind mret result_ret] in Hsent.
  injection Hsent as <-.
  exists pv, pv2. repeat split; try done.
  - by apply (build_pv_token key value T pv).
  - by apply (build_pv_token key value UC_CBYTES pv2).
Qed.

Lemma no_json_header_between (state : bytes) (i idx : Z) :
  Forall (λ j, ¬ json_header_at state j) (seqZ (i + 1) (idx - i)) →
  ∀ j, i < j ≤ idx → ¬ json_header_at state j.
Proof.
  intros Hall j Hj. rewrite Forall_forall in Hall. apply Hall.
  apply elem_of_seqZ. lia.
Qed.

Lemma session_token_adopted_witness :
  session_cbytes REPLY_STATE = REPLY_TOKEN ∧
  ∃ pv pv2, [PV_SESSION_FRAME; PV_CLIENT_FRAME] = [pv; pv2] ∧
    @build_pv bits_runtime (str_of "main/ch1/volume") 1056964608 REPLY_TOKEN
      = Ok pv ∧
    slice pv 8 12 = REPLY_TOKEN ∧
    @build_pv bits_runtime (str_of "main/ch1/volume") 1056964608 UC_CBYTES
      = Ok pv2 ∧
    slice pv2 8 12 = UC_CBYTES.
Proof.
  apply (@session_token_adopted bits_runtime REPLY_STATE 36 12 REPLY_TOKEN
           (str_of "main/ch1/volume") 1056964608
           [PV_SESSION_FRAME; PV_CLIENT_FRAME]).
  - vm_compute. reflexivity.
  - lia.
  - lia.
  - apply (bool_decide_unpack _). vm_compute. exact I.
  - apply no_json_header_between.
    apply (bool_decide_unpack _). vm_compute. exact I.
  - vm_compute. reflexivity.
  - reflexivity.
  - vm_compute. reflexivity.
Defined.

(** C1, counterexample.  The received bytes hold an acceptance reply whose
    token [6b 00 65 00] is found and adopted, and yet the second frame
    written afterwards carries the client-chosen token [72 00 65 00] in the
    first four bytes of its payload. *)
Lemma client_token_frame_still_sent :
  contains REPLY_STATE SUBSCRIPTION_REPLY = true ∧
  session_cbytes REPLY_STATE = REPLY_TOKEN ∧
  @main_sends bits_runtime REPLY_STATE 1056964608
    = Ok [PV_SESSION_FRAME; PV_CLIENT_FRAME] ∧
  slice PV_CLIENT_FRAME 8 12 = UC_CBYTES ∧
  UC_CBYTES ≠ REPLY_TOKEN.
Proof.
  split; [vm_compute; reflexivity |].
  split; [vm_compute; reflexivity |].
  split; [vm_compute; reflexivity |].
  split; [vm_compute; reflexivity | discriminate].
Qed.

(** ** Parameter writes and the state of the session *)

(** When [build_parameter_packet] returns a frame: the path encodes to
    ASCII, the size field fits 16 bits, and the value packs. *)
Lemma build_parameter_packet_ok_iff `{PyRuntime} (path : str)
    (value : pyfloat) :
  (∃ packet, build_parameter_packet path value = Ok packet) ↔
  Forall (λ c, 0 ≤ c < 128) path ∧ len path ≤ 65522 ∧
  ∃ vb, pack_f value = Ok vb.
Proof.
  unfold build_parameter_packet, encode_ascii.
  pose proof (len_nonneg path).
  destruct (bool_decide (Forall (λ c, 0 ≤ c < 128) path)) eqn:Hascii.
  - apply bool_decide_eq_true in Hascii. cbn [mbind result_bind].
    destruct (pack_f value) as [vb|e] eqn:Hvb.
    + cbn [mbind result_bind]. pose proof (pack_f_len _ _ Hvb) as Hvl.
      unfold build_ucnet_packet, pack_H.
      rewrite !len_app, len_fmap, Hvl.
      change (len TYPE_PV) with 2. change (len DIR_CLIENT_TO_DAEMON) with 4.
      change (len NUL) with 1. change (len [Byte.x00; Byte.x00]) with 2.
      case_decide as Hsz; cbn [mbind result_bind].
      * split; [intros _ | by eexists].
        split; [done |]. split; [lia | by eexists].
      * split; [by intros [? ?] | intros (_ & Hlen & _); lia].
    + cbn [mbind result_bind].
      split; [by intros [? ?] | by intros (_ & _ & ? & ?)].
  - apply bool_decide_eq_false in Hascii. cbn [mbind result_bind].
    split; [by intros [? ?] | by intros [? _]].
Qed.

(** C5 (as amended).  [set_parameter] looks at one thing only, whether the
    client holds a socket.  Without one (before [connect], after
    [disconnect]) it prints [Not connected], returns normally and writes no
    frame.  With one, in whatever state the handshake is, it builds the PV
    frame: when [build_parameter_packet] returns a frame, exactly that one
    frame is written and [Sent: ...] is printed (after the debug lines, if
    asked for); when it raises, the exception leaves [set_parameter] and
    nothing is written.  A frame is returned exactly when the path encodes
    to ASCII, has at most 65522 characters, and the value packs to single
    precision.  No error for a session that is not ready exists. *)
Theorem set_parameter_checks_socket_only `{PyRuntime}
    (c : client) (path : str) (value : pyfloat) (debug : bool) :
  (sock c = None →
     set_parameter c path value debug = Ok (c, [LineNotConnected])) ∧
  (∀ wire, sock c = Some wire →
     (∀ packet, build_parameter_packet path value = Ok packet →
        set_parameter c path value debug
          = Ok (Client (Some (wire ++ [packet])) (running c),
                (if debug then [LineDebug packet] else [])
                  ++ [LineSent path value])) ∧
     (∀ e, build_parameter_packet path value = Raise e →
        set_parameter c path value debug = Raise e)) ∧
  ((∃ packet, build_parameter_packet path value = Ok packet) ↔
   Forall (λ c, 0 ≤ c < 128) path ∧ len path ≤ 65522 ∧
   ∃ vb, pack_f value = Ok vb).
Proof.
  split; [| split].
  - unfold set_parameter. by intros ->.
  - intros wire Hsock. unfold set_parameter. rewrite Hsock.
    split; [by intros packet -> | by intros e ->].
  - apply build_parameter_packet_ok_iff.
Qed.

(** C5, counterexample.  Right after [connect], when Hello, Subscribe and
    a KeepAlive have been written and nothing has been received yet,
    [set_parameter] returns normally and has written the PV frame. *)
Lemma set_parameter_before_ack_writes :
  ∃ hello subscribe ka,
    connect new_client
      = Ok (Client (Some [hello; subscribe; ka]) true) ∧
    @set_parameter bits_runtime (Client (Some [hello; subscribe; ka]) true)
      (str_of "global/mainOutVolume") 1056964608 false
      = Ok (Client (Some [hello; subscribe; ka; MAIN_VOLUME_FRAME]) true,
            [@LineSent bits_runtime (str_of "global/mainOutVolume")
               1056964608]).
Proof.
  do 3 eexists. split; reflexivity.
Qed.

(** ** Matching by derivatives *)

Lemma nullable_matches r : nullable r = true ↔ matches r [].
Proof.
  induction r as [| |p|r IHr s IHs|r IHr s IHs|r IHr]; simpl.
  - split; [done | inversion 1].
  - split; [constructor | done].
  - split; [done | inversion 1].
  - rewrite andb_true_iff, IHr, IHs. split.
    + intros [Hr Hs]. by apply (MSeq r s [] []).
    + inversion 1 as [| |? ? u v Hu Hv Heq| | | |]; subst.
      match goal with
      | Hnil : _ ++ _ = [] |- _ => apply app_eq_nil in Hnil as [-> ->]
      end. done.
  - rewrite orb_true_iff, IHr, IHs. split.
    + intros [Hr|Hs]; [by apply MAltL | by apply MAltR].
    + inversion 1; subst; [by left | by right].
  - split; [constructor | done].
Qed.

Lemma matches_star_cons r c s :
  matches (RStar r) (c :: s) →
  ∃ u v, s = u ++ v ∧ matches r (c :: u) ∧ matches (RStar r) v.
Proof.
  intros Hm. remember (RStar r) as rs eqn:Hrs.
  remember (c :: s) as cs eqn:Hcs.
  revert s Hcs. induction Hm as [| | | | | |r' u v Hu _ Hv IHv];
    intros t Hcs; try discriminate.
  injection Hrs as ->.
  destruct u as [|c' u]; simpl in Hcs.
  - by apply IHv.
  - injection Hcs as -> <-. by exists u, v.
Qed.

Lemma matches_seq_cons r r2 c s :
  matches (RSeq r r2) (c :: s) →
  (matches r [] ∧ matches r2 (c :: s)) ∨
  (∃ u v, s = u ++ v ∧ matches r (c :: u) ∧ matches r2 v).
Proof.
  intros Hm. remember (RSeq r r2) as rs eqn:Hrs.
  remember (c :: s) as cs eqn:Hcs.
  destruct Hm as [| |r' s' u v Hu Hv| | | |]; try discriminate.
  injection Hrs as -> ->.
  destruct u as [|c' u]; simpl in Hcs.
  - subst v. by left.
  - injection Hcs as -> <-. right. by exists u, v.
Qed.

Lemma deriv_matches r c s : matches (deriv c r) s ↔ matches r (c :: s).
Proof.
  revert s. induction r as [| |p|r IHr r2 IHr2|r IHr r2 IHr2|r IHr];
    intros s; simpl.
  - split; inversion 1.
  - split; inversion 1.
  - destruct (p c) eqn:Hp; split.
    + inversion 1; subst. by constructor.
    + inversion 1; subst. constructor.
    + inversion 1.
    + inversion 1; subst. congruence.
  - assert (matches (RSeq (deriv c r) r2) s →
            matches (RSeq r r2) (c :: s)) as Hleft.
    { inversion 1 as [| |? ? u v Hu Hv| | | |]; subst.
      apply IHr in Hu. by apply (MSeq r r2 (c :: u) v). }
    destruct (nullable r) eqn:Hn; split.
    + inversion 1 as [| | |? ? ? Hl|? ? ? Hr| |]; subst; [by apply Hleft |].
      apply IHr2 in Hr. apply nullable_matches in Hn.
      by apply (MSeq r r2 [] (c :: s)).
    + intros Hm. apply matches_seq_cons in Hm
        as [[Hnil Hs] | (u & v & -> & Hu & Hv)].
      * apply MAltR. by apply IHr2.
      * apply MAltL. constructor; [|done]. by apply IHr.
    + exact Hleft.
    + intros Hm. apply matches_seq_cons in Hm
        as [[Hnil Hs] | (u & v & -> & Hu & Hv)].
      * apply nullable_matches in Hnil. congruence.
      * constructor; [|done]. by apply IHr.
  - split.
    + inversion 1; subst; [apply MAltL; by apply IHr
                          | apply MAltR; by apply IHr2].
    + inversion 1; subst; [apply MAltL; by apply IHr
                          | apply MAltR; by apply IHr2].
  - split.
    + inversion 1 as [| |? ? u v Hu Hv| | | |]; subst.
      apply IHr in Hu. by apply (MStarApp r (c :: u) v).
    + intros Hm. apply matches_star_cons in Hm as (u & v & -> & Hu & Hv).
      constructor; [|done]. by apply IHr.
Qed.

(** The matcher decides membership in the language of the expression. *)
Lemma fullmatch_matches r s : fullmatch r s = true ↔ matches r s.
Proof.
  revert r. induction s as [|c s IH]; intros r; simpl.
  - apply nullable_matches.
  - rewrite IH. apply deriv_matches.
Qed.

Lemma matches_star_concat r s :
  matches (RStar r) s ↔ ∃ parts, Forall (matches r) parts ∧ s = concat parts.
Proof.
  split.
  - intros Hm. remember (RStar r) as rs eqn:Hrs.
    induction Hm as [| | | | | |r' u v Hu _ Hv IHv]; try discriminate.
    + by exists [].
    + injection Hrs as ->. destruct (IHv eq_refl) as (parts & Hall & ->).
      exists (u :: parts). split; [by constructor | done].
  - intros (parts & Hall & ->). induction Hall as [|u parts Hu _ IH]; simpl.
    + constructor.
    + by constructor.
Qed.

Lemma matches_star_class p s :
  matches (RStar (RClass p)) s ↔ Forall (λ x, p x = true) s.
Proof.
  rewrite matches_star_concat. split.
  - intros (parts & Hall & ->).
    induction Hall as [|u parts Hu _ IH]; simpl; [constructor |].
    inversion Hu; subst. simpl. by constructor.
  - intros Hall. exists ((λ x, [x]) <$> s). split.
    + rewrite Forall_fmap. eapply Forall_impl; [exact Hall |].
      intros x Hx. by constructor.
    + induction s as [|x s IH]; [done |]. simpl. f_equal. apply IH.
      by inversion Hall.
Qed.

(** ** The path grammar *)

Lemma matches_segment s : matches segment_re s ↔ is_segment s.
Proof.
  unfold segment_re, is_segment. split.
  - inversion 1 as [| |? ? u v Hu Hv| | | |]; subst.
    inversion Hu; subst. apply matches_star_class in Hv.
    by eexists _, _.
  - intros (c & rest & -> & Hc & Hrest).
    apply (MSeq _ _ [c] rest); [by constructor |].
    by apply matches_star_class.
Qed.

Lemma matches_slash_segment t :
  matches slash_segment t ↔ ∃ seg, is_segment seg ∧ t = 47 :: seg.
Proof.
  unfold slash_segment. split.
  - inversion 1 as [| |? ? u v Hu Hv| | | |]; subst.
    inversion Hu as [|? c Hc| | | | |]; subst.
    apply bool_decide_eq_true in Hc as ->.
    apply matches_segment in Hv. by exists v.
  - intros (seg & Hseg & ->).
    apply (MSeq _ _ [47] seg); [by constructor |].
    by apply matches_segment.
Qed.

Lemma matches_slash_segments parts :
  Forall (matches slash_segment) parts ↔
  ∃ segs, Forall is_segment segs ∧ parts = (λ x, 47 :: x) <$> segs.
Proof.
  split.
  - induction 1 as [|t parts Ht _ (segs & Hsegs & ->)].
    + by exists [].
    + apply matches_slash_segment in Ht as (seg & Hseg & ->).
      exists (seg :: segs). split; [by constructor | done].
  - intros (segs & Hsegs & ->). rewrite Forall_fmap.
    eapply Forall_impl; [exact Hsegs |]. intros seg Hseg.
    apply matches_slash_segment. by exists seg.
Qed.

(** The language of [path_pattern]: two or more segments joined by [/]. *)
Lemma matches_path_pattern s : matches path_pattern s ↔ path_grammar 2 s.
Proof.
  unfold path_pattern, RPlus, path_grammar.
  fold slash_segment. split.
  - inversion 1 as [| |? ? seg0 v Hseg0 Hv| | | |]; subst.
    inversion Hv as [| |? ? t w Ht Hw| | | |]; subst.
    apply matches_segment in Hseg0.
    apply matches_slash_segment in Ht as (seg1 & Hseg1 & ->).
    apply matches_star_concat in Hw as (parts & Hparts & ->).
    apply matches_slash_segments in Hparts as (segs & Hsegs & ->).
    exists (seg0 :: seg1 :: segs). split; [simpl; lia |].
    split; [by repeat constructor | done].
  - intros (segs & Hlen & Hall & ->).
    destruct segs as [|seg0 [|seg1 segs]]; simpl in Hlen; try lia.
    apply Forall_cons in Hall as [Hseg0 Hall].
    apply Forall_cons in Hall as [Hseg1 Hall].
    simpl. constructor; [by apply matches_segment |].
    apply (MSeq _ _ (47 :: seg1)).
    + apply matches_slash_segment. by exists seg1.
    + apply matches_star_concat. eexists. split; [|done].
      apply matches_slash_segments. by exists segs.
Qed.

(** ** Printable runs and their classification *)

Lemma extract_strings_loop_printable data min_len current strings :
  Forall printable current → Forall (Forall printable) strings →
  Forall (Forall printable) (extract_strings_loop data min_len current strings).
Proof.
  revert current strings.
  induction data as [|b data IH]; intros current strings Hcur Hstr; simpl.
  - case_decide; [|done]. apply Forall_app. split; [done | by constructor].
  - case_decide.
    + apply IH; [|done]. apply Forall_app. split; [done |].
      by constructor.
    + apply IH; [constructor |].
      case_decide; [|done]. apply Forall_app. split; [done | by constructor].
Qed.

Lemma extract_strings_printable data min_len :
  Forall (Forall printable) (extract_strings data min_len).
Proof. by apply extract_strings_loop_printable. Qed.

(** On a string without newline the anchor [$] only holds at the end. *)
Lemma match_anchored_printable r s :
  Forall printable s → match_anchored r s = fullmatch r s.
Proof.
  intros Hs. unfold match_anchored.
  destruct (reverse s) as [|c s'] eqn:Hrev; [by rewrite orb_false_r |].
  assert (printable c) as Hc.
  { rewrite Forall_forall in Hs. apply Hs.
    apply elem_of_reverse. rewrite Hrev. left. }
  unfold printable in Hc.
  destruct c as [|p|p]; try lia.
  do 4 (destruct p as [p|p|]; try lia; try by rewrite orb_false_r).
Qed.

(** C8 (as amended).  A printable run extracted from a decompressed block
    is kept as a parameter path if and only if it consists of two or more
    identifier segments separated by [/], each beginning with a letter;
    every other run, a single identifier included, is left out. *)
Theorem path_classification (data : bytes) (s : str) :
  s ∈ analyze_strings data →
  (s ∈ analyze_paths data ↔ path_grammar 2 s).
Proof.
  intros Hin. unfold analyze_paths, find_parameter_paths.
  rewrite list_elem_of_filter.
  assert (Forall printable s) as Hp.
  { pose proof (extract_strings_printable data 3) as Hall.
    rewrite Forall_forall in Hall. by apply Hall. }
  rewrite (match_anchored_printable _ _ Hp), fullmatch_matches,
    matches_path_pattern.
  split; [by intros [? _] | by intros ?].
Qed.

Lemma path_classification_witness :
  str_of "main/ch1/pan" ∈ analyze_paths (bytes_of "main/ch1/pan")
  ↔ path_grammar 2 (str_of "main/ch1/pan").
Proof.
  apply (path_classification (bytes_of "main/ch1/pan") (str_of "main/ch1/pan")).
  apply (bool_decide_unpack _). vm_compute. exact I.
Defined.

(** C8, counterexample.  The run [volume] is extracted, and it consists of
    one identifier segment that begins with a letter, but it is not kept
    as a path: the pattern asks for at least one [/]. *)
Lemma single_segment_not_a_path :
  str_of "volume" ∈ analyze_strings (bytes_of "volume") ∧
  path_grammar 1 (str_of "volume") ∧
  str_of "volume" ∉ analyze_paths (bytes_of "volume").
Proof.
  split; [| split].
  - apply (bool_decide_unpack _). vm_compute. exact I.
  - exists [str_of "volume"]. split; [simpl; lia |]. split; [|done].
    constructor; [|constructor].
    exists 118, (str_of "olume"). split; [done |]. split; [done |].
    apply (bool_decide_unpack _). vm_compute. exact I.
  - apply (bool_decide_unpack _). vm_compute. exact I.
Qed.

Lemma set_parameter_checks_socket_only_witness :
  @set_parameter bits_runtime new_client (str_of "global/mainOutVolume")
      1056964608 false
    = Ok (new_client, [@LineNotConnected bits_runtime]) ∧
  @set_parameter bits_runtime (Client (Some []) true)
      (str_of "global/mainOutVolume") 1056964608 true
    = Ok (Client (Some ([] ++ [MAIN_VOLUME_FRAME])) true,
          [@LineDebug bits_runtime MAIN_VOLUME_FRAME]
            ++ [@LineSent bits_runtime (str_of "global/mainOutVolume")
                  1056964608]) ∧
  @set_parameter bits_runtime (Client (Some []) true) [233] 1056964608 false
    = Raise UnicodeEncodeError ∧
  @set_parameter bits_runtime (Client (Some []) true)
      (str_of "global/mainOutVolume") 4294967296 false
    = Raise OverflowError.
Proof.
  split; [| split; [| split]].
  - apply (@set_parameter_checks_socket_only bits_runtime new_client
             (str_of "global/mainOutVolume") 1056964608 false).
    reflexivity.
  - destruct (@set_parameter_checks_socket_only bits_runtime
                (Client (Some []) true)
                (str_of "global/mainOutVolume") 1056964608 true)
      as (_ & Hsock & _).
    destruct (Hsock [] eq_refl) as [Hok _]. apply Hok. reflexivity.
  - destruct (@set_parameter_checks_socket_only bits_runtime
                (Client (Some []) true) [233] 1056964608 false)
      as (_ & Hsock & _).
    destruct (Hsock [] eq_refl) as [_ Hraise]. apply Hraise. reflexivity.
  - destruct (@set_parameter_checks_socket_only bits_runtime
                (Client (Some []) true)
                (str_of "global/mainOutVolume") 4294967296 false)
      as (_ & Hsock & _).
    destruct (Hsock [] eq_refl) as [_ Hraise]. apply Hraise. reflexivity.
Defined.

(** * Further properties of the scripts *)

(** ** Building a frame *)

(** X1.  [build_packet] succeeds exactly when the payload has at most 65533
    bytes; the frame it returns is 8 bytes longer than the payload, begins
    with the magic, and its size field reads back as the payload length
    plus 2.  With a longer payload it raises [struct.error]. *)
Theorem build_packet_size_limit (ptype payload : bytes) :
  len ptype = 2 →
  if decide (len payload ≤ 65533)
  then ∃ frame, build_packet ptype payload = Ok frame ∧
         len frame = 8 + len payload ∧
         slice frame 0 4 = MAGIC ∧
         unpack_H (slice frame 4 6) = Ok (2 + len payload) ∧
         slice frame 6 8 = ptype ∧
         slice_from frame 8 = payload
  else build_packet ptype payload = Raise StructError.
Proof.
  intros Hty. pose proof (len_nonneg payload). case_decide.
  - destruct (build_packet_ok ptype payload) as [frame Hb]; [done |].
    exists frame. split; [done |].
    apply build_packet_eq in Hb as (size & Hsz & ->).
    apply unpack_pack_H in Hsz as [Hun Hsl].
    assert (len MAGIC = 4) as Hm by done.
    repeat split.
    + rewrite !len_app, Hm, Hsl, Hty. lia.
    + by apply (slice_mid_eq _ [] MAGIC (size ++ ptype ++ payload)).
    + rewrite (slice_mid_eq _ MAGIC size (ptype ++ payload) 4 6);
        rewrite ?Hm, ?Hsl; done.
    + apply (slice_mid_eq _ (MAGIC ++ size) ptype payload);
        rewrite ?len_app, <- ?app_assoc, ?Hm, ?Hsl, ?Hty; done.
    + rewrite !app_assoc.
      replace 8 with (len ((MAGIC ++ size) ++ ptype))
        by (rewrite !len_app, Hm, Hsl, Hty; lia).
      apply slice_from_app.
  - unfold build_packet, pack_H. by rewrite decide_False by lia.
Qed.

Lemma build_packet_size_limit_witness :
  if decide (len (bytes_of "abc") ≤ 65533)
  then ∃ frame, build_packet TYPE_KA (bytes_of "abc") = Ok frame ∧
         len frame = 8 + len (bytes_of "abc") ∧
         slice frame 0 4 = MAGIC ∧
         unpack_H (slice frame 4 6) = Ok (2 + len (bytes_of "abc")) ∧
         slice frame 6 8 = TYPE_KA ∧
         slice_from frame 8 = bytes_of "abc"
  else build_packet TYPE_KA (bytes_of "abc") = Raise StructError.
Proof.
  apply (build_packet_size_limit TYPE_KA (bytes_of "abc")). reflexivity.
Defined.

(** ** What the scanners return *)

Lemma find_at_occurs sub data i :
  find_at sub data i ≠ -1 → 0 ≤ i →
  starts_with sub (drop (Z.to_nat (find_at sub data i - i)) data) = true.
Proof.
  revert i. induction data as [|b data IH]; intros i; simpl.
  - destruct (starts_with sub []) eqn:E; [|done].
    intros _ _. by rewrite Z.sub_diag.
  - destruct (starts_with sub (b :: data)) eqn:E.
    + intros _ _. by rewrite Z.sub_diag.
    + intros Hne Hi. pose proof (find_at_lower _ _ _ Hne ltac:(lia)).
      specialize (IH (i + 1) Hne ltac:(lia)).
      replace (Z.to_nat (find_at sub data (i + 1) - i))
        with (S (Z.to_nat (find_at sub data (i + 1) - (i + 1)))) by lia.
      exact IH.
Qed.

(** A successful search returns a position where [sub] occurs. *)
Lemma find_occurs data sub start :
  find data sub start ≠ -1 →
  starts_with sub (drop (Z.to_nat (find data sub start)) data) = true.
Proof.
  unfold find, clamp_index. pose proof (len_nonneg data).
  repeat case_decide; try done; intros Hne;
    pose proof (find_at_lower _ _ _ Hne ltac:(lia));
    apply find_at_occurs in Hne; try lia;
    rewrite drop_drop in Hne;
    match goal with
    | H : starts_with _ (drop ?a _) = true |- starts_with _ (drop ?b _) = true =>
        replace b with a by lia; exact H
    end.
Qed.

Lemma slice_same {A : Type} (l : list A) i : slice l i i = [].
Proof. unfold slice. by rewrite Z.sub_diag. Qed.

Lemma starts_with_slice sub data idx :
  0 ≤ idx → starts_with sub (drop (Z.to_nat idx) data) = true →
  slice data idx (idx + len sub) = sub.
Proof.
  intros Hidx Hs. apply starts_with_prefix in Hs as [rest Hrest].
  destruct (decide (Z.to_nat idx ≤ length data)%nat) as [Hle|Hgt].
  - apply (slice_mid_eq _ (take (Z.to_nat idx) data) sub rest).
    + by rewrite <- Hrest, take_drop.
    + unfold len. rewrite length_take. lia.
    + unfold len. rewrite length_take. lia.
  - rewrite drop_ge in Hrest by lia.
    destruct sub; [|done]. change (len []) with 0.
    rewrite Z.add_0_r. apply slice_same.
Qed.

(** X2.  Every packet that [parse_packets] (or [find_packets]) returns is
    really in the buffer: a magic lies at its offset, its size is the
    little-endian 16-bit number that follows, its type and payload are the
    bytes after that, and the whole frame ends inside the buffer. *)
Theorem parse_packets_sound (data : bytes) :
  ∃ pkts, parse_packets data = Ok pkts ∧ Forall (frame_in_buffer data) pkts.
Proof.
  unfold parse_packets. generalize 0 as pos.
  apply (scan_pos_ind data). intros pos IH.
  rewrite scan_eq. pose proof (scan_step_progress data pos) as Hp.
  destruct (scan_step data pos) as [|pos'|f pos'|e] eqn:E.
  - by exists [].
  - apply IH; lia.
  - destruct (IH pos') as (pkts & -> & Hall); [lia.. |].
    exists (packet_of f :: pkts). split; [done |].
    constructor; [|done].
    pose proof E as E'.
    apply scan_step_produce in E
      as (Hg & Hidx & H0 & Hpos & Hsz & Hrange & Hend & Hty & Hpay & ->).
    unfold frame_in_buffer, packet_of. simpl.
    assert (rf_idx f + 8 ≤ len data) as H8.
    { unfold scan_step in E'. rewrite <- Hidx in E'.
      repeat case_decide; try done; lia. }
    assert (find data MAGIC pos ≠ -1) as Hne by lia.
    apply find_occurs in Hne. rewrite <- Hidx in Hne.
    repeat split; try done.
    by apply (starts_with_slice MAGIC).
  - by apply scan_step_no_throw in E.
Qed.

(** X3.  Bytes that hold no magic, followed by one frame, are scanned by
    [parse_packets] into that frame alone, at the offset where it begins,
    as long as the leading bytes and the payload are not both empty. *)
Theorem parse_packets_skips_leading_bytes (g ptype payload frame : bytes) :
  find g MAGIC 0 = -1 → len ptype = 2 →
  build_packet ptype payload = Ok frame →
  0 < len g + len payload →
  parse_packets (g ++ frame) =
    Ok [Packet (len g) (2 + len payload) ptype
          (decode_ascii_replace ptype) payload].
Proof. apply parse_packets_resync. Qed.

Lemma parse_packets_skips_leading_bytes_witness :
  parse_packets (bytes_of "junk" ++ KA_FRAME) =
    Ok [Packet (len (bytes_of "junk")) (2 + len (@nil byte)) TYPE_KA
          (decode_ascii_replace TYPE_KA) []].
Proof.
  apply (parse_packets_skips_leading_bytes (bytes_of "junk") TYPE_KA []
           KA_FRAME).
  - vm_compute. reflexivity.
  - reflexivity.
  - reflexivity.
  - vm_compute. reflexivity.
Defined.

(** One frame in the middle of a buffer, reached by the scan at the very
    position where it begins. *)
Lemma scan_frame_at {A : Type} (handle : raw_frame → result (list A))
    pre ptype payload frame post :
  build_packet ptype payload = Ok frame → len ptype = 2 →
  0 < len payload + len post →
  scan handle (pre ++ frame ++ post) (len pre) =
    (xs ← handle (RawFrame (len pre) (2 + len payload) ptype payload);
     rest ← scan handle ((pre ++ frame) ++ post) (len (pre ++ frame));
     mret (xs ++ rest)).
Proof.
  intros Hb Hty Hne. pose proof (len_nonneg pre).
  rewrite scan_eq.
  rewrite (scan_step_frame pre ptype payload frame post (len pre) Hb Hty);
    [| lia | intros j Hj; lia | lia].
  apply build_packet_eq in Hb as (size & Hsz & ->).
  apply unpack_pack_H in Hsz as [_ Hsl].
  rewrite <- !app_assoc, !len_app, Hsl, Hty. change (len MAGIC) with 4.
  by replace (len pre + (4 + (2 + (2 + len payload))))
    with (len pre + 8 + len payload) by lia.
Qed.

Lemma build_packet_len ptype payload frame :
  build_packet ptype payload = Ok frame → len ptype = 2 →
  len frame = 8 + len payload.
Proof.
  intros Hb Hty. apply build_packet_eq in Hb as (size & Hsz & ->).
  apply unpack_pack_H in Hsz as [_ Hsl].
  rewrite !len_app, Hsl, Hty. change (len MAGIC) with 4. lia.
Qed.

Lemma scan_frames pre (items : list (bytes * bytes)) (frames : list bytes) :
  Forall2 (λ item frame,
             len item.1 = 2 ∧ build_packet item.1 item.2 = Ok frame)
          items frames →
  (∀ item, last items = Some item → item.2 ≠ []) →
  ∃ pkts, scan (λ f, Ok [packet_of f]) (pre ++ concat frames) (len pre)
            = Ok pkts ∧
          (λ p, (pkt_type p, pkt_payload p)) <$> pkts = items.
Proof.
  intros Hall. revert pre.
  induction Hall as [|[ptype payload] frame items frames [Hty Hb] Hall IH];
    intros pre Hlast.
  - exists []. split; [|done]. apply scan_at_end.
    simpl. rewrite app_nil_r. lia.
  - simpl in Hty, Hb. simpl concat.
    pose proof (len_nonneg payload). pose proof (len_nonneg (concat frames)).
    rewrite (scan_frame_at _ pre ptype payload frame (concat frames) Hb Hty).
    + destruct (IH (pre ++ frame)) as (pkts & -> & Hproj).
      { intros item Hitem. apply Hlast.
        destruct items; [done | exact Hitem]. }
      exists (packet_of (RawFrame (len pre) (2 + len payload) ptype payload)
              :: pkts).
      split; [done |]. rewrite fmap_cons, Hproj. done.
    + destruct Hall as [|[ptype' payload'] frame' items frames [Hty' Hb'] _].
      * assert (payload ≠ []) as Hne by (by apply (Hlast (ptype, payload))).
        destruct payload; [done |]. unfold len. simpl. lia.
      * simpl in Hty', Hb'. simpl concat. rewrite len_app.
        rewrite (build_packet_len _ _ _ Hb' Hty').
        pose proof (len_nonneg payload'). pose proof (len_nonneg (concat frames)).
        lia.
Qed.

(** X4.  A buffer that is the concatenation of frames built by
    [build_packet], whatever their payloads contain, is scanned by
    [parse_packets] into exactly those frames, in order, provided the
    payload of the last frame is not empty. *)
Theorem parse_packets_stream (items : list (bytes * bytes))
    (frames : list bytes) :
  Forall2 (λ item frame,
             len item.1 = 2 ∧ build_packet item.1 item.2 = Ok frame)
          items frames →
  (∀ item, last items = Some item → item.2 ≠ []) →
  ∃ pkts, parse_packets (concat frames) = Ok pkts ∧
          (λ p, (pkt_type p, pkt_payload p)) <$> pkts = items.
Proof.
  intros Hall Hlast. unfold parse_packets.
  by apply (scan_frames [] items frames).
Qed.

Lemma parse_packets_stream_witness :
  ∃ pkts, parse_packets (concat [KA_FRAME; PV_CLIENT_FRAME]) = Ok pkts ∧
          (λ p, (pkt_type p, pkt_payload p)) <$> pkts
            = [(TYPE_KA, []); (TYPE_PV, slice_from PV_CLIENT_FRAME 8)].
Proof.
  apply (parse_packets_stream
           [(TYPE_KA, []); (TYPE_PV, slice_from PV_CLIENT_FRAME 8)]
           [KA_FRAME; PV_CLIENT_FRAME]).
  - repeat constructor.
  - intros item [= <-]. discriminate.
Defined.

(** ** The receive loop of test_ucdaemon_control.py *)

Lemma slice_len2 (data : bytes) lo :
  0 ≤ lo → lo + 2 ≤ len data → ∃ b0 b1, slice data lo (lo + 2) = [b0; b1].
Proof.
  intros Hlo Hhi.
  pose proof (slice_len data lo (lo + 2) ltac:(lia) ltac:(lia)) as Hl.
  destruct (slice data lo (lo + 2)) as [|b0 [|b1 [|b2 l]]];
    unfold len in Hl; simpl in Hl; try lia.
  by exists b0, b1.
Qed.

Lemma unpack_H_ok (data : bytes) lo :
  0 ≤ lo → lo + 2 ≤ len data →
  ∃ size, unpack_H (slice data lo (lo + 2)) = Ok size ∧ 0 ≤ size ≤ 65535.
Proof.
  intros Hlo Hhi. destruct (slice_len2 data lo Hlo Hhi) as (b0 & b1 & Hs).
  rewrite Hs. eexists. split; [done |].
  pose proof (byte_val_range b0). pose proof (byte_val_range b1). lia.
Qed.

Lemma parse_ucnet_packet_total data : ∃ r, parse_ucnet_packet data = Ok r.
Proof.
  unfold parse_ucnet_packet. repeat case_decide; try by eexists.
  destruct (unpack_H_ok data 4) as (size & Hsz & _); [lia | lia |].
  change (4 + 2) with 6 in Hsz. rewrite Hsz. by eexists.
Qed.

Lemma recv_step_no_throw buffer e : recv_step buffer ≠ Throw e.
Proof.
  unfold recv_step. repeat case_decide; try done.
  destruct (unpack_H_ok buffer 4) as (size & Hsz & _); [lia | lia |].
  change (4 + 2) with 6 in Hsz. rewrite Hsz.
  case_decide; [|done].
  destruct (parse_ucnet_packet_total (slice_to buffer (6 + size)))
    as [[pkt|] ->]; done.
Qed.

Lemma slice_from_drop {A : Type} (l : list A) i :
  0 ≤ i → slice_from l i = drop (Z.to_nat i) l.
Proof.
  intros Hi. unfold slice_from, slice, clamp_index.
  pose proof (len_nonneg l). repeat case_decide; try lia.
  rewrite (Z.min_l (len l)) by lia.
  destruct (decide (i ≤ len l)).
  - rewrite Z.min_l by lia. apply take_ge. rewrite length_drop.
    unfold len in *. lia.
  - rewrite Z.min_r by lia. unfold len. rewrite Nat2Z.id.
    rewrite Z.sub_diag. simpl. rewrite take_0.
    symmetry. apply drop_ge. unfold len in *. lia.
Qed.

(** What an iteration leaves in the buffer is a suffix of it. *)
Lemma recv_step_suffix buffer :
  match recv_step buffer with
  | Continue b' | Produce _ b' => b' `suffix_of` buffer
  | _ => True
  end.
Proof.
  unfold recv_step. case_decide; [|done]. case_decide.
  - case_decide.
    + rewrite slice_from_drop by lia. apply suffix_drop.
    + apply suffix_nil.
  - destruct (unpack_H _) as [size|] eqn:Hsz; [|done].
    apply unpack_H_range in Hsz.
    case_decide; [|done].
    destruct (parse_ucnet_packet _) as [[pkt|]|]; [| |done];
      rewrite slice_from_drop by lia; apply suffix_drop.
Qed.

(** X5.  The inner loop of [_receive_loop] returns on every buffer: it
    never raises.  What it leaves for the next [recv] is a suffix of the
    buffer, and is either shorter than 8 bytes or begins with the magic of
    a frame whose declared length has not been received in full. *)
Theorem recv_drain_returns (buffer : bytes) :
  ∃ pkts rest, recv_drain buffer = Ok (pkts, rest) ∧
    rest `suffix_of` buffer ∧
    (len rest < 8 ∨
     (slice_to rest 4 = MAGIC ∧
      ∃ size, unpack_H (slice rest 4 6) = Ok size ∧ len rest < 6 + size)).
Proof.
  remember (length buffer) as n eqn:Hn. revert buffer Hn.
  induction (lt_wf n) as [n _ IH]. intros buffer ->.
  rewrite recv_drain_eq.
  pose proof (recv_step_progress buffer) as Hp.
  pose proof (recv_step_suffix buffer) as Hs.
  destruct (recv_step buffer) as [|b'|pkt b'|e] eqn:E.
  - exists [], buffer. split; [done |]. split; [done |].
    unfold recv_step in E. case_decide; [|left; lia].
    case_decide; [by case_decide |].
    destruct (unpack_H (slice buffer 4 6)) as [size|] eqn:Hsz; [|done].
    case_decide.
    + by destruct (parse_ucnet_packet _) as [[?|]|].
    + right. split.
      { destruct (decide (slice_to buffer 4 = MAGIC)) as [Hm|Hm]; [exact Hm |].
        contradiction. }
      exists size. split; [done | lia].
  - destruct (IH (length b') Hp b' eq_refl) as (pkts & rest & -> & Hsuf & Hrest).
    exists pkts, rest. split; [done |]. split; [by etrans | done].
  - destruct (IH (length b') Hp b' eq_refl) as (pkts & rest & -> & Hsuf & Hrest).
    exists (pkt :: pkts), rest. split; [done |]. split; [by etrans | done].
  - by apply recv_step_no_throw in E.
Qed.

(** With a two-byte type the daemon client's builder is [build_packet]. *)
Lemma build_ucnet_packet_2 ptype payload :
  len ptype = 2 → build_ucnet_packet ptype payload = build_packet ptype payload.
Proof. intros Hty. unfold build_ucnet_packet, build_packet. by rewrite Hty. Qed.

(** X6.  The receive loop resynchronises: bytes that hold no magic,
    followed by one frame, leave exactly that frame handled and an empty
    buffer, whatever the lengths of the leading bytes and of the payload. *)
Theorem recv_drain_skips_leading_bytes (g ptype payload frame : bytes) :
  find g MAGIC 0 = -1 → len ptype = 2 →
  build_ucnet_packet ptype payload = Ok frame →
  recv_drain (g ++ frame) =
    Ok ([UPacket (2 + len payload) ptype
           (decode_ascii_replace ptype) payload], []).
Proof.
  intros Hg Hty Hb. rewrite build_ucnet_packet_2 in Hb by done.
  by apply recv_drain_resync.
Qed.

Lemma recv_drain_skips_leading_bytes_witness :
  recv_drain (bytes_of "junk" ++ KA_FRAME) =
    Ok ([UPacket (2 + len (@nil byte)) TYPE_KA
           (decode_ascii_replace TYPE_KA) []], []).
Proof.
  apply (recv_drain_skips_leading_bytes (bytes_of "junk") TYPE_KA []
           KA_FRAME).
  - vm_compute. reflexivity.
  - reflexivity.
  - reflexivity.
Defined.

(** One iteration on a buffer that begins with a complete frame. *)
Lemma recv_step_frame ptype payload frame post :
  build_packet ptype payload = Ok frame → len ptype = 2 →
  recv_step (frame ++ post) =
    Produce (UPacket (2 + len payload) ptype
               (decode_ascii_replace ptype) payload) post.
Proof.
  intros Hb Hty.
  pose proof (parse_ucnet_packet_frame _ _ _ Hb Hty) as Hparse.
  pose proof (build_packet_len _ _ _ Hb Hty) as Hlen.
  apply build_packet_eq in Hb as (size & Hsz & Hframe).
  apply unpack_pack_H in Hsz as [Hun Hsl].
  pose proof (len_nonneg payload). pose proof (len_nonneg post).
  assert (len MAGIC = 4) as Hm by done.
  unfold recv_step. rewrite len_app.
  rewrite decide_True by lia.
  rewrite decide_False; cycle 1.
  { intros Hc. apply Hc. rewrite Hframe, <- !app_assoc.
    apply (slice_to_app MAGIC). }
  replace (slice (frame ++ post) 4 6) with size; cycle 1.
  { symmetry. rewrite Hframe, <- !app_assoc.
    apply (slice_mid_eq _ MAGIC size (ptype ++ payload ++ post));
      rewrite ?Hm; (done || lia). }
  rewrite Hun. rewrite decide_True by lia.
  replace (6 + (2 + len payload)) with (len frame) by lia.
  by rewrite slice_to_app, slice_from_app, Hparse.
Qed.

(** A strict prefix of a frame is left in the buffer untouched. *)
Lemma recv_drain_partial ptype payload frame (k : nat) :
  build_packet ptype payload = Ok frame → len ptype = 2 →
  (k < length frame)%nat →
  recv_drain (take k frame) = Ok ([], take k frame).
Proof.
  intros Hb Hty Hk.
  pose proof (build_packet_len _ _ _ Hb Hty) as Hlen.
  apply build_packet_eq in Hb as (size & Hsz & Hframe).
  apply unpack_pack_H in Hsz as [Hun Hsl].
  pose proof (len_nonneg payload).
  assert (len MAGIC = 4) as Hm by done.
  assert (len (take k frame) = Z.of_nat k) as Hlk
    by (unfold len; rewrite length_take; lia).
  rewrite recv_drain_eq. unfold recv_step. rewrite Hlk.
  case_decide; [|done].
  assert (take k frame = MAGIC ++ size ++ take (k - 6) (ptype ++ payload))
    as Htake.
  { rewrite Hframe. rewrite (app_assoc MAGIC size).
    rewrite take_app_ge
      by (rewrite length_app; unfold len in *; simpl in *; lia).
    rewrite <- app_assoc. do 2 f_equal.
    rewrite length_app. unfold len in *. simpl in *. f_equal. lia. }
  rewrite decide_False; cycle 1.
  { intros Hc. apply Hc. rewrite Htake. apply (slice_to_app MAGIC). }
  replace (slice (take k frame) 4 6) with size; cycle 1.
  { symmetry. rewrite Htake.
    apply (slice_mid_eq _ MAGIC size (take (k - 6) (ptype ++ payload)));
      rewrite ?Hm; (done || lia). }
  rewrite Hun. rewrite decide_False; [done |]. unfold len in *. lia.
Qed.

Lemma recv_drain_frames (items : list (bytes * bytes)) (frames : list bytes)
    (tail : bytes) :
  Forall2 (λ item frame,
             len item.1 = 2 ∧ build_packet item.1 item.2 = Ok frame)
          items frames →
  recv_drain tail = Ok ([], tail) →
  ∃ pkts, recv_drain (concat frames ++ tail) = Ok (pkts, tail) ∧
          (λ p, (up_type p, up_payload p)) <$> pkts = items.
Proof.
  intros Hall Htail.
  induction Hall as [|[ptype payload] frame items frames [Hty Hb] Hall IH].
  - by exists [].
  - simpl in Hty, Hb. destruct IH as (pkts & Hrec & Hproj).
    exists (UPacket (2 + len payload) ptype
              (decode_ascii_replace ptype) payload :: pkts).
    simpl concat. rewrite <- app_assoc. rewrite recv_drain_eq.
    rewrite (recv_step_frame ptype payload frame _ Hb Hty), Hrec.
    split; [done |]. rewrite fmap_cons. cbn [up_type up_payload].
    by rewrite Hproj.
Qed.

(** X7.  A buffer made of complete frames followed by a strict prefix of
    one more frame (possibly empty, possibly cut inside the header): the
    receive loop handles all the complete frames, in order, and keeps
    exactly the unfinished bytes for the next [recv]. *)
Theorem recv_drain_stream (items : list (bytes * bytes))
    (frames : list bytes) (ptype payload frame : bytes) (k : nat) :
  Forall2 (λ item frame,
             len item.1 = 2 ∧ build_ucnet_packet item.1 item.2 = Ok frame)
          items frames →
  len ptype = 2 → build_ucnet_packet ptype payload = Ok frame →
  (k < length frame)%nat →
  ∃ pkts, recv_drain (concat frames ++ take k frame)
            = Ok (pkts, take k frame) ∧
          (λ p, (up_type p, up_payload p)) <$> pkts = items.
Proof.
  intros Hall Hty Hb Hk. rewrite build_ucnet_packet_2 in Hb by done.
  apply recv_drain_frames.
  - eapply Forall2_impl; [exact Hall |]. intros item fr [Hi Hf].
    split; [done |]. by rewrite <- build_ucnet_packet_2.
  - by apply (recv_drain_partial ptype payload).
Qed.

Lemma recv_drain_stream_witness :
  ∃ pkts, recv_drain (concat [KA_FRAME; PV_CLIENT_FRAME] ++ take 9 PV_SESSION_FRAME)
            = Ok (pkts, take 9 PV_SESSION_FRAME) ∧
          (λ p, (up_type p, up_payload p)) <$> pkts
            = [(TYPE_KA, []); (TYPE_PV, slice_from PV_CLIENT_FRAME 8)].
Proof.
  apply (recv_drain_stream
           [(TYPE_KA, []); (TYPE_PV, slice_from PV_CLIENT_FRAME 8)]
           [KA_FRAME; PV_CLIENT_FRAME]
           TYPE_PV (slice_from PV_SESSION_FRAME 8) PV_SESSION_FRAME 9).
  - repeat constructor.
  - reflexivity.
  - reflexivity.
  - vm_compute. lia.
Defined.

Lemma find_absent data sub start :
  (∀ j, starts_with sub (drop j data) = false) → find data sub start = -1.
Proof.
  intros Hno. unfold find. case_decide; [done |].
  apply find_at_absent. intros j. rewrite drop_drop. apply Hno.
Qed.

(** X8.  A buffer of at least 8 bytes that holds no magic is thrown away
    whole by the receive loop, the last bytes included even when they are
    the beginning of a magic whose end has not arrived yet. *)
Theorem recv_drain_discards_magic_free (buffer : bytes) :
  find buffer MAGIC 0 = -1 → 8 ≤ len buffer →
  recv_drain buffer = Ok ([], []).
Proof.
  intros Hfree Hlen. pose proof (find_none _ _ Hfree) as Hno.
  rewrite recv_drain_eq. unfold recv_step.
  rewrite decide_True by lia.
  rewrite decide_True; cycle 1.
  { intros Hc. apply slice_to_magic in Hc.
    specialize (Hno 0%nat). rewrite drop_0 in Hno. congruence. }
  rewrite (find_absent _ _ 1 Hno). rewrite decide_False by lia.
  rewrite recv_drain_eq. unfold recv_step.
  by rewrite decide_False by (unfold len; simpl; lia).
Qed.

Lemma recv_drain_discards_magic_free_witness :
  recv_drain (bytes_of "garbage" ++ [Byte.x55; Byte.x43; Byte.x00])
    = Ok ([], []).
Proof.
  apply (recv_drain_discards_magic_free
           (bytes_of "garbage" ++ [Byte.x55; Byte.x43; Byte.x00])).
  - vm_compute. reflexivity.
  - vm_compute. discriminate.
Defined.

(** ** Streams of parameter frames *)

Section pv_stream.
Context `{PyRuntime}.

(** What [build_pv] builds: a frame around the payload
    [cbytes + key + NUL + padding + value]. *)
Lemma build_pv_inv (key : str) (v : pyfloat) (tok frame : bytes) :
  Forall (λ c, 0 < c < 128) key → build_pv key v tok = Ok frame →
  ∃ vb, pack_f v = Ok vb ∧
        build_packet TYPE_PV
          (tok ++ ((byte_of <$> key) ++ NUL) ++ [Byte.x00; Byte.x00] ++ vb)
          = Ok frame.
Proof.
  intros Hkey Hb. unfold build_pv in Hb.
  rewrite (encode_ascii_ok _ Hkey) in Hb. cbn [mbind result_bind] in Hb.
  destruct (pack_f v) as [vb|e] eqn:Hvb; [|done].
  by exists vb.
Qed.

Lemma extract_pv_params_frames (tok : bytes) (items : list (str * pyfloat))
    (values : list pyfloat) (pkts : list packet) (params : gmap str pyfloat) :
  len tok = 4 →
  Forall2 (λ item v', Forall (λ c, 0 < c < 128) item.1 ∧
             ∃ vb, pack_f item.2 = Ok vb ∧ unpack_f vb = Ok v')
          items values →
  Forall2 (λ item pkt, ∃ vb, pack_f item.2 = Ok vb ∧
             pkt_type pkt = TYPE_PV ∧
             pkt_payload pkt =
               tok ++ ((byte_of <$> item.1) ++ NUL) ++ [Byte.x00; Byte.x00] ++ vb)
          items pkts →
  foldl extract_pv_step params pkts
    = foldl (λ m kv, <[kv.1 := kv.2]> m) params (zip items.*1 values).
Proof.
  intros Htok Hvals. revert pkts params.
  induction Hvals as [|[key v] v' items values [Hkey (vb & Hvb & Hv')] _ IH];
    intros pkts params Hpk.
  - by apply Forall2_nil_inv_l in Hpk as ->.
  - apply Forall2_cons_inv_l in Hpk
      as ([off size ty tystr payload] & pkts' & (vb' & Hvb' & Hty & Hpay) & Hpk & ->).
    cbn [pkt_type pkt_payload fst snd] in *. subst ty payload.
    rewrite Hvb in Hvb'. injection Hvb' as <-.
    cbn [foldl zip_with fmap list_fmap fst snd].
    rewrite (extract_pv_step_pv params off size tystr tok key
               [Byte.x00; Byte.x00] vb v');
      [by apply IH | done | done | done | by eapply pack_f_len | done].
Qed.

(** The frames of a stream built by [build_pv], with their payloads and
    the values their four last bytes decode to. *)
Lemma build_pv_frames (tok : bytes) (items : list (str * pyfloat))
    (frames : list bytes) :
  Forall2 (λ item frame, Forall (λ c, 0 < c < 128) item.1 ∧
             build_pv item.1 item.2 tok = Ok frame)
          items frames →
  ∃ values payloads,
    Forall2 (λ item v', Forall (λ c, 0 < c < 128) item.1 ∧
               ∃ vb, pack_f item.2 = Ok vb ∧ unpack_f vb = Ok v')
            items values ∧
    Forall2 (λ item payload, ∃ vb, pack_f item.2 = Ok vb ∧
               payload = tok ++ ((byte_of <$> item.1) ++ NUL)
                           ++ [Byte.x00; Byte.x00] ++ vb)
            items payloads ∧
    Forall2 (λ payload frame, build_packet TYPE_PV payload = Ok frame)
            payloads frames.
Proof.
  intros Hall.
  induction Hall as [|[key v] frame items frames [Hkey Hb] _ IH].
  - exists [], []. by repeat split.
  - destruct IH as (values & payloads & ? & ? & ?). simpl in Hkey, Hb.
    destruct (build_pv_inv _ _ _ _ Hkey Hb) as (vb & Hvb & Hframe).
    destruct (unpack_f_ok vb (pack_f_len _ _ Hvb)) as [v' Hv'].
    exists (v' :: values),
      ((tok ++ ((byte_of <$> key) ++ NUL) ++ [Byte.x00; Byte.x00] ++ vb)
         :: payloads).
    split; [| split]; constructor; (done || by eauto).
Qed.

(** A PV payload is never empty. *)
Lemma pv_payloads_nonempty (tok : bytes) (items : list (str * pyfloat))
    (payloads : list bytes) :
  Forall2 (λ item payload, ∃ vb, pack_f item.2 = Ok vb ∧
             payload = tok ++ ((byte_of <$> item.1) ++ NUL)
                         ++ [Byte.x00; Byte.x00] ++ vb)
          items payloads →
  ∀ item : bytes * bytes,
    last ((λ p, (TYPE_PV, p)) <$> payloads) = Some item → item.2 ≠ [].
Proof.
  intros Hpay [ty p] Hlast. rewrite fmap_last in Hlast.
  destruct (last payloads) as [p'|] eqn:Hp'; [|done].
  injection Hlast as <- <-. simpl.
  apply last_Some_elem_of in Hp'.
  apply list_elem_of_lookup in Hp' as [i Hi].
  destruct (Forall2_lookup_r _ _ _ _ _ Hpay Hi) as (item & _ & vb & _ & ->).
  intros Hnil. apply (f_equal length) in Hnil.
  rewrite !length_app in Hnil. simpl in Hnil. lia.
Qed.

(** X9.  A state dump that is a sequence of parameter-value frames built by
    [build_pv] is turned by [parse_packets] and [extract_pv_params] into
    the dictionary obtained by assigning the decoded values to their keys
    in the order of the frames: every key of the stream is present, and a
    key sent several times keeps its last value. *)
Theorem pv_stream_extracted (tok : bytes) (items : list (str * pyfloat))
    (frames : list bytes) :
  len tok = 4 →
  Forall2 (λ item frame, Forall (λ c, 0 < c < 128) item.1 ∧
             build_pv item.1 item.2 tok = Ok frame)
          items frames →
  ∃ values,
    Forall2 (λ item v', ∃ vb, pack_f item.2 = Ok vb ∧ unpack_f vb = Ok v')
            items values ∧
    extract_pv_params <$> parse_packets (concat frames)
      = Ok (foldl (λ m kv, <[kv.1 := kv.2]> m) ∅ (zip items.*1 values)).
Proof.
  intros Htok Hall.
  destruct (build_pv_frames tok items frames Hall)
    as (values & payloads & Hvals & Hpay & Hfr).
  exists values. split.
  { eapply Forall2_impl; [exact Hvals |]. by intros ?? [_ ?]. }
  destruct (scan_frames [] ((λ p, (TYPE_PV, p)) <$> payloads) frames)
    as (pkts & Hscan & Hproj).
  - apply Forall2_fmap_l. eapply Forall2_impl; [exact Hfr |]. done.
  - by apply (pv_payloads_nonempty tok items).
  - assert (parse_packets (concat frames) = Ok pkts) as -> by exact Hscan.
    cbn [fmap result_fmap]. f_equal.
    unfold extract_pv_params.
    apply (extract_pv_params_frames tok); [done | done |].
    clear Hscan Hvals Hfr Hall.
    revert pkts Hproj. induction Hpay as [|item payload items payloads
      (vb & Hvb & ->) _ IH]; intros pkts Hproj.
    + apply fmap_nil_inv in Hproj as ->. constructor.
    + destruct pkts as [|pkt pkts]; [done |].
      rewrite !fmap_cons in Hproj. injection Hproj as Hty Hpl Hrest.
      constructor; [by exists vb | by apply IH].
Qed.

(** A stream of frames under an arbitrary handler whose result on each
    frame does not depend on where the frame lies. *)
Lemma scan_frames_handle {A : Type} (handle : raw_frame → result (list A))
    pre (items : list (bytes * bytes)) (frames : list bytes)
    (outs : list (list A)) :
  Forall2 (λ item frame,
             len item.1 = 2 ∧ build_packet item.1 item.2 = Ok frame)
          items frames →
  Forall2 (λ item out, ∀ idx size,
             handle (RawFrame idx size item.1 item.2) = Ok out)
          items outs →
  (∀ item, last items = Some item → item.2 ≠ []) →
  scan handle (pre ++ concat frames) (len pre) = Ok (concat outs).
Proof.
  intros Hall. revert pre outs.
  induction Hall as [|[ptype payload] frame items frames [Hty Hb] Hall IH];
    intros pre outs Houts Hlast.
  - apply Forall2_nil_inv_l in Houts as ->. apply scan_at_end.
    simpl. rewrite app_nil_r. lia.
  - apply Forall2_cons_inv_l in Houts as (out & outs' & Hout & Houts & ->).
    simpl in Hty, Hb, Hout. simpl concat.
    pose proof (len_nonneg payload). pose proof (len_nonneg (concat frames)).
    rewrite (scan_frame_at _ pre ptype payload frame (concat frames) Hb Hty).
    + rewrite Hout. rewrite (IH (pre ++ frame) outs' Houts); [done |].
      intros item Hitem. apply Hlast. destruct items; [done | exact Hitem].
    + destruct Hall as [|[ptype' payload'] frame' items frames [Hty' Hb'] _].
      * assert (payload ≠ []) as Hne by (by apply (Hlast (ptype, payload))).
        destruct payload; [done |]. unfold len. simpl. lia.
      * simpl in Hty', Hb'. simpl concat. rewrite len_app.
        rewrite (build_packet_len _ _ _ Hb' Hty').
        pose proof (len_nonneg payload'). pose proof (len_nonneg (concat frames)).
        lia.
Qed.

(** The generator of listen_params.py yields nothing for a PV frame whose
    key is empty: it asks for [null_idx > key_start]. *)
Lemma listen_frame_pv_empty_key idx size (tok pad vb : bytes) :
  len tok = 4 → len pad = 2 → len vb = 4 →
  listen_frame (RawFrame idx size TYPE_PV (tok ++ ([] ++ NUL) ++ pad ++ vb))
    = Ok [].
Proof.
  intros Htok Hpad Hvb.
  destruct (pv_payload_layout tok [] pad vb) as (_ & Hfind & _); try done.
  unfold listen_frame. cbn [rf_ptype rf_payload].
  rewrite decide_True by done.
  change (byte_of <$> []) with (@nil byte) in Hfind. rewrite Hfind.
  change (len []) with 0. by rewrite decide_False by lia.
Qed.

(** X10.  Run on a sequence of parameter-value frames built by [build_pv],
    the generator [parse_packets] of listen_params.py yields one
    [('PV', key, value)] per frame, in the order of the frames, except that
    a frame with an empty key yields nothing. *)
Theorem listen_stream_updates (tok : bytes) (items : list (str * pyfloat))
    (frames : list bytes) :
  len tok = 4 →
  Forall2 (λ item frame, Forall (λ c, 0 < c < 128) item.1 ∧
             build_pv item.1 item.2 tok = Ok frame)
          items frames →
  ∃ values,
    Forall2 (λ item v', ∃ vb, pack_f item.2 = Ok vb ∧ unpack_f vb = Ok v')
            items values ∧
    listen_parse_packets (concat frames)
      = Ok (concat ((λ kv, if decide (kv.1 = []) then []
                           else [UpdPV kv.1 kv.2])
                      <$> zip items.*1 values)).
Proof.
  intros Htok Hall.
  destruct (build_pv_frames tok items frames Hall)
    as (values & payloads & Hvals & Hpay & Hfr).
  exists values. split.
  { eapply Forall2_impl; [exact Hvals |]. by intros ?? [_ ?]. }
  unfold listen_parse_packets.
  apply (scan_frames_handle listen_frame []
           ((λ p, (TYPE_PV, p)) <$> payloads) frames).
  - apply Forall2_fmap_l. eapply Forall2_impl; [exact Hfr |]. done.
  - clear Hfr Hall. revert payloads Hpay.
    induction Hvals as [|[key v] v' items values [Hkey (vb & Hvb & Hv')] _ IH];
      intros payloads Hpay.
    + apply Forall2_nil_inv_l in Hpay as ->. constructor.
    + apply Forall2_cons_inv_l in Hpay
        as (payload & payloads' & (vb' & Hvb' & ->) & Hpay & ->).
      cbn [fst snd] in *. rewrite Hvb in Hvb'. injection Hvb' as <-.
      rewrite !fmap_cons. cbn [zip_with fst snd].
      rewrite fmap_cons. cbn [fst snd].
      constructor; [| by apply IH].
      intros idx size. cbn [fst snd].
      pose proof (pack_f_len _ _ Hvb) as Hlen.
      case_decide as Hk.
      * subst key. by apply listen_frame_pv_empty_key.
      * by apply listen_frame_pv.
  - by apply (pv_payloads_nonempty tok items).
Qed.

End pv_stream.

Lemma pv_stream_extracted_witness :
  ∃ values,
    Forall2 (λ item v', ∃ vb, @pack_f bits_runtime item.2 = Ok vb ∧
                              @unpack_f bits_runtime vb = Ok v')
            [(str_of "main/ch1/volume", 1056964608);
             (str_of "main/ch1/volume", 0)] values ∧
    @extract_pv_params bits_runtime
        <$> parse_packets (concat [PV_CLIENT_FRAME; PV_ZERO_FRAME])
      = Ok (foldl (λ m kv, <[kv.1 := kv.2]> m) ∅
              (zip [(str_of "main/ch1/volume", 1056964608);
                    (str_of "main/ch1/volume", 0)].*1 values)).
Proof.
  apply (@pv_stream_extracted bits_runtime UC_CBYTES
           [(str_of "main/ch1/volume", 1056964608);
            (str_of "main/ch1/volume", 0)]
           [PV_CLIENT_FRAME; PV_ZERO_FRAME]).
  - reflexivity.
  - repeat constructor;
      try (apply (bool_decide_unpack _); vm_compute; exact I).
Defined.

Lemma listen_stream_updates_witness :
  ∃ values,
    Forall2 (λ item v', ∃ vb, @pack_f bits_runtime item.2 = Ok vb ∧
                              @unpack_f bits_runtime vb = Ok v')
            [([], 1056964608); (str_of "main/ch1/volume", 1056964608)]
            values ∧
    @listen_parse_packets bits_runtime
        (concat [PV_EMPTY_KEY_FRAME; PV_CLIENT_FRAME])
      = Ok (concat ((λ kv, if decide (kv.1 = []) then []
                           else [@UpdPV bits_runtime kv.1 kv.2])
                      <$> zip [([], 1056964608);
                               (str_of "main/ch1/volume", 1056964608)].*1
                              values)).
Proof.
  apply (@listen_stream_updates bits_runtime UC_CBYTES
           [([], 1056964608); (str_of "main/ch1/volume", 1056964608)]
           [PV_EMPTY_KEY_FRAME; PV_CLIENT_FRAME]).
  - reflexivity.
  - repeat constructor.
Defined.

(** ** Categories of parameters *)

Lemma split_on_nonempty sep s : split_on sep s ≠ [].
Proof.
  destruct s as [|c s]; [done |]. simpl.
  case_decide; [done |]. by destruct (split_on sep s).
Qed.

Lemma split_on_no_sep sep (a : str) : sep ∉ a → split_on sep a = [a].
Proof.
  induction a as [|c a IH]; [done |]. intros Hnot.
  apply not_elem_of_cons in Hnot as [Hc Ha]. simpl.
  rewrite decide_False by done. by rewrite IH.
Qed.

Lemma split_on_first sep (a b : str) :
  sep ∉ a → split_on sep (a ++ sep :: b) = a :: split_on sep b.
Proof.
  induction a as [|c a IH]; intros Hnot.
  - simpl. by rewrite decide_True.
  - apply not_elem_of_cons in Hnot as [Hc Ha]. simpl.
    rewrite decide_False by done. by rewrite IH.
Qed.

(** X12.  The category of a key is the text before its first slash, and
    ['other'] when the key has no slash; so a key that begins with a slash
    is filed under the empty category, and [other/x] shares the category of
    the keys without a slash. *)
Theorem category_of_first_segment (a b : str) :
  SLASH ∉ a →
  category_of (a ++ SLASH :: b) = a ∧ category_of a = str_of "other".
Proof.
  intros Hnot. unfold category_of. split.
  - rewrite (split_on_first _ _ _ Hnot).
    pose proof (split_on_nonempty SLASH b).
    destruct (split_on SLASH b) as [|p ps] eqn:Hs; [done |].
    rewrite decide_True; [done |].
    unfold len. simpl. lia.
  - rewrite (split_on_no_sep _ _ Hnot).
    by rewrite decide_False by (unfold len; simpl; lia).
Qed.

Lemma category_of_first_segment_witness :
  category_of (str_of "main" ++ SLASH :: str_of "ch1/volume") = str_of "main"
  ∧ category_of (str_of "main") = str_of "other".
Proof.
  apply (category_of_first_segment (str_of "main") (str_of "ch1/volume")).
  apply (bool_decide_unpack _). vm_compute. exact I.
Defined.

Section categorize_thms.
Context {V : Type}.

(** X11.  [categorize_params] partitions the parameters: the entry of a
    category is exactly the sub-dictionary of the parameters whose key has
    that category, with their values unchanged, and a category is present
    only if it has a parameter. *)
Theorem categorize_params_partition (params : gmap str V) (c : str)
    (sub : gmap str V) :
  categorize_params params !! c = Some sub ↔
  sub = filter (λ kv, category_of kv.1 = c) params ∧ sub ≠ ∅.
Proof.
  revert c sub. unfold categorize_params.
  apply (map_fold_weak_ind
    (λ r m, ∀ c sub, r !! c = Some sub ↔
       sub = filter (λ kv, category_of kv.1 = c) m ∧ sub ≠ ∅)).
  - intros c sub. rewrite lookup_empty, map_filter_empty.
    split; [done | by intros [-> ?]].
  - intros key v m r Hfresh IH c sub. unfold categorize_step.
    destruct (decide (category_of key = c)) as [<-|Hc].
    + rewrite lookup_insert_eq.
      rewrite map_filter_insert_True by done.
      assert (default ∅ (r !! category_of key)
              = filter (λ kv, category_of kv.1 = category_of key) m) as ->.
      { destruct (r !! category_of key) as [old|] eqn:Hold.
        - by apply IH in Hold as [-> _].
        - simpl. symmetry. apply map_empty. intros k.
          destruct (filter _ m !! k) as [x|] eqn:Hk; [|done].
          assert (r !! category_of key
                  = Some (filter (λ kv, category_of kv.1 = category_of key) m))
            as Hsome; [| congruence].
          apply IH. split; [done |]. intros Hemp.
          by rewrite Hemp, lookup_empty in Hk. }
      split.
      * intros [= <-]. split; [done |]. apply insert_non_empty.
      * by intros [-> _].
    + rewrite lookup_insert_ne by done.
      rewrite map_filter_insert_not by (intros ?; done).
      apply IH.
Qed.

End categorize_thms.

(** ** Printable strings of a block (parse_zb_packets.py) *)

(** The strings found so far are only ever appended to. *)
Lemma extract_strings_loop_acc data min_len current strings :
  extract_strings_loop data min_len current strings
    = strings ++ extract_strings_loop data min_len current [].
Proof.
  revert current strings.
  induction data as [|b data IH]; intros current strings; simpl.
  - destruct (decide (len current >= min_len)); [done |].
    by rewrite app_nil_r.
  - destruct (decide (32 ≤ byte_val b < 127)); [apply IH |].
    rewrite IH. rewrite (IH [] (if decide _ then _ else _)).
    destruct (decide (len current >= min_len)); [by rewrite app_assoc |].
    done.
Qed.

Lemma extract_strings_loop_split (a b : bytes) (sep : byte) min_len current :
  ¬ (32 ≤ byte_val sep < 127) →
  extract_strings_loop (a ++ sep :: b) min_len current []
    = extract_strings_loop a min_len current []
        ++ extract_strings_loop b min_len [] [].
Proof.
  intros Hsep. revert current.
  induction a as [|x a IH]; intros current; simpl.
  - rewrite decide_False by done. rewrite extract_strings_loop_acc.
    by case_decide.
  - case_decide; [apply IH |].
    rewrite extract_strings_loop_acc, IH.
    rewrite (extract_strings_loop_acc a _ _ (if decide _ then _ else _)).
    by rewrite app_assoc.
Qed.

(** X13.  A byte outside the printable range cuts the data in two: the
    strings of the whole are the strings of what precedes the byte followed
    by the strings of what follows it.  No string runs across such a byte,
    and none is lost next to it. *)
Theorem extract_strings_split (a b : bytes) (sep : byte) (min_len : Z) :
  ¬ (32 ≤ byte_val sep < 127) →
  extract_strings (a ++ sep :: b) min_len
    = extract_strings a min_len ++ extract_strings b min_len.
Proof. intros Hsep. by apply extract_strings_loop_split. Qed.

Lemma extract_strings_split_witness :
  extract_strings (bytes_of "main" ++ Byte.x00 :: bytes_of "ch1") 4
    = extract_strings (bytes_of "main") 4 ++ extract_strings (bytes_of "ch1") 4.
Proof.
  apply (extract_strings_split (bytes_of "main") (bytes_of "ch1") Byte.x00 4).
  vm_compute. intros [? _]. done.
Defined.

Lemma extract_strings_loop_run (a : bytes) min_len current :
  Forall (λ x, 32 ≤ byte_val x < 127) a →
  extract_strings_loop a min_len current []
    = if decide (len (current ++ (byte_val <$> a)) >= min_len)
      then [current ++ (byte_val <$> a)] else [].
Proof.
  intros Ha. revert current.
  induction Ha as [|x a Hx Ha IH]; intros current; simpl.
  - by rewrite app_nil_r.
  - rewrite decide_True by done. rewrite IH.
    by rewrite <- app_assoc.
Qed.

(** X14.  Data made of printable bytes only gives one string, the whole
    data, when it has at least [min_len] bytes, and no string otherwise. *)
Theorem extract_strings_run (a : bytes) (min_len : Z) :
  Forall (λ x, 32 ≤ byte_val x < 127) a →
  extract_strings a min_len
    = if decide (len a >= min_len) then [byte_val <$> a] else [].
Proof.
  intros Ha. unfold extract_strings.
  rewrite (extract_strings_loop_run a min_len [] Ha).
  rewrite app_nil_l. by rewrite len_fmap.
Qed.

Lemma extract_strings_run_witness :
  extract_strings (bytes_of "ch1") 4
    = if decide (len (bytes_of "ch1") >= 4) then [byte_val <$> bytes_of "ch1"]
      else [].
Proof.
  apply (extract_strings_run (bytes_of "ch1") 4).
  apply (bool_decide_unpack _). vm_compute. exact I.
Defined.

(** ** The receiver of monitor_and_send.py *)

Lemma receiver_loop_eq {A : Type} (handle : mpacket → result (list A))
    buffer offset :
  monitor.receiver_loop handle buffer offset =
    match monitor.receiver_step buffer offset with
    | Break => Ok ([], offset)
    | Throw e => Raise e
    | Continue offset' => monitor.receiver_loop handle buffer offset'
    | Produce pkt offset' =>
        out ← handle pkt;
        r ← monitor.receiver_loop handle buffer offset';
        mret (out ++ r.1, r.2)
    end.
Proof.
  simp receiver_loop. unfold inspect.
  generalize (@eq_refl _ (monitor.receiver_step buffer offset)).
  generalize (monitor.receiver_step buffer offset) at 2 4 5.
  intros s Hs. destruct s; simp receiver_loop; reflexivity.
Qed.

Lemma monitor_build_packet_2 ptype payload :
  len ptype = 2 →
  monitor.build_packet ptype payload = build_packet ptype payload.
Proof.
  intros Hty. unfold monitor.build_packet, build_packet. by rewrite Hty.
Qed.

(** [parse_packet] at the offset where a complete frame begins. *)
Lemma parse_packet_frame_at pre ptype payload frame post :
  build_packet ptype payload = Ok frame → len ptype = 2 →
  parse_packet (pre ++ frame ++ post) (len pre) =
    Ok (Some (MPacket (decode_ascii_replace ptype) (2 + len payload) payload),
        len pre + len frame).
Proof.
  intros Hb Hty.
  pose proof (build_packet_len _ _ _ Hb Hty) as Hlen.
  apply build_packet_eq in Hb as (size & Hsz & Hframe).
  apply unpack_pack_H in Hsz as [Hun Hsl].
  pose proof (len_nonneg payload). pose proof (len_nonneg post).
  pose proof (len_nonneg pre).
  assert (len MAGIC = 4) as Hm by done.
  assert (pre ++ frame ++ post
          = pre ++ MAGIC ++ size ++ ptype ++ payload ++ post) as Hdata
    by (by rewrite Hframe, <- !app_assoc).
  unfold parse_packet. rewrite !len_app.
  rewrite decide_False by lia.
  rewrite (slice_mid_eq (pre ++ frame ++ post) pre MAGIC
             (size ++ ptype ++ payload ++ post)
             (len pre) (len pre + 4)) by (done || lia).
  rewrite decide_False by (by intros Hc; apply Hc).
  rewrite (slice_mid_eq (pre ++ frame ++ post) (pre ++ MAGIC) size
             (ptype ++ payload ++ post)
             (len pre + 4) (len pre + 6))
    by (rewrite ?len_app, <- ?app_assoc; (done || lia)).
  rewrite Hun. cbn [mbind result_bind].
  rewrite decide_False by lia.
  rewrite (slice_mid_eq (pre ++ frame ++ post) (pre ++ MAGIC ++ size) ptype
             (payload ++ post)
             (len pre + 6) (len pre + 8))
    by (rewrite ?len_app, <- ?app_assoc; (done || lia)).
  rewrite (slice_mid_eq (pre ++ frame ++ post)
             (pre ++ MAGIC ++ size ++ ptype) payload post
             (len pre + 8) (len pre + 6 + (2 + len payload)))
    by (rewrite ?len_app, <- ?app_assoc; (done || lia)).
  replace (len pre + len frame) with (len pre + 6 + (2 + len payload))
    by lia.
  done.
Qed.

Lemma receiver_step_frame pre ptype payload frame post :
  build_packet ptype payload = Ok frame → len ptype = 2 →
  monitor.receiver_step (pre ++ frame ++ post) (len pre) =
    Produce (MPacket (decode_ascii_replace ptype) (2 + len payload) payload)
            (len pre + len frame).
Proof.
  intros Hb Hty. unfold monitor.receiver_step.
  pose proof (build_packet_len _ _ _ Hb Hty).
  pose proof (len_nonneg payload). pose proof (len_nonneg post).
  rewrite decide_True by (rewrite !len_app; lia).
  by rewrite (parse_packet_frame_at pre ptype payload frame post Hb Hty).
Qed.

(** Complete frames are handled one after the other. *)
Lemma receiver_loop_frames {A : Type} (handle : mpacket → result (list A))
    pre (items : list (bytes * bytes)) (frames : list bytes) tail
    (outs : list (list A)) final :
  Forall2 (λ item frame,
             len item.1 = 2 ∧ build_packet item.1 item.2 = Ok frame)
          items frames →
  Forall2 (λ item out,
             handle (MPacket (decode_ascii_replace item.1)
                       (2 + len item.2) item.2) = Ok out)
          items outs →
  (∀ pre', monitor.receiver_loop handle (pre' ++ tail) (len pre')
           = Ok ([], final pre')) →
  monitor.receiver_loop handle (pre ++ concat frames ++ tail) (len pre)
    = Ok (concat outs, final (pre ++ concat frames)).
Proof.
  intros Hall. revert pre outs.
  induction Hall as [|[ptype payload] frame items frames [Hty Hb] Hall IH];
    intros pre outs Houts Htail.
  - apply Forall2_nil_inv_l in Houts as ->. simpl.
    rewrite app_nil_r. apply Htail.
  - apply Forall2_cons_inv_l in Houts as (out & outs' & Hout & Houts & ->).
    simpl in Hty, Hb, Hout. simpl concat. rewrite <- (app_assoc frame).
    rewrite receiver_loop_eq.
    rewrite (receiver_step_frame pre ptype payload frame _ Hb Hty).
    rewrite Hout. cbn [mbind result_bind].
    rewrite <- len_app. rewrite (app_assoc pre frame).
    rewrite (IH (pre ++ frame) outs' Houts Htail).
    cbn. by rewrite <- !app_assoc.
Qed.

(** A strict prefix of a frame stops the loop where it begins. *)
Lemma receiver_loop_partial {A : Type} (handle : mpacket → result (list A))
    pre ptype payload frame (k : nat) :
  build_packet ptype payload = Ok frame → len ptype = 2 →
  (k < length frame)%nat →
  monitor.receiver_loop handle (pre ++ take k frame) (len pre)
    = Ok ([], len pre).
Proof.
  intros Hb Hty Hk.
  pose proof (build_packet_len _ _ _ Hb Hty) as Hlen.
  apply build_packet_eq in Hb as (size & Hsz & Hframe).
  apply unpack_pack_H in Hsz as [Hun Hsl].
  pose proof (len_nonneg payload). pose proof (len_nonneg pre).
  assert (len MAGIC = 4) as Hm by done.
  assert (len (take k frame) = Z.of_nat k) as Hlk
    by (unfold len; rewrite length_take; lia).
  rewrite receiver_loop_eq. unfold monitor.receiver_step.
  rewrite len_app, Hlk.
  case_decide; [|done]. unfold parse_packet. rewrite len_app, Hlk.
  case_decide; [cbn; by rewrite decide_True |].
  assert (take k frame = MAGIC ++ size ++ take (k - 6) (ptype ++ payload))
    as Htake.
  { rewrite Hframe. rewrite (app_assoc MAGIC size).
    rewrite take_app_ge
      by (rewrite length_app; unfold len in *; simpl in *; lia).
    rewrite <- app_assoc. do 2 f_equal.
    rewrite length_app. unfold len in *. simpl in *. f_equal. lia. }
  rewrite Htake.
  rewrite (slice_mid_eq _ pre MAGIC (size ++ take (k - 6) (ptype ++ payload))
             (len pre) (len pre + 4)) by (done || lia).
  rewrite decide_False by (by intros Hc; apply Hc).
  rewrite (slice_mid_eq _ (pre ++ MAGIC) size (take (k - 6) (ptype ++ payload))
             (len pre + 4) (len pre + 6))
    by (rewrite ?len_app, <- ?app_assoc; (done || lia)).
  rewrite Hun. cbn [mbind result_bind].
  rewrite decide_True by (unfold len in *; lia).
  cbn. by rewrite decide_True.
Qed.

Section monitor_receiver.
Context `{PyRuntime}.

(** Printing a packet never raises: the value is read from four bytes, and
    so is the length of the JSON text. *)
Lemma receiver_print_total pkt :
  ∃ out, monitor.receiver_print pkt = Ok out.
Proof.
  unfold monitor.receiver_print. pose proof (len_nonneg (mp_payload pkt)).
  destruct (decide (mp_type pkt = str_of "PV")).
  - destruct (decide (len (mp_payload pkt) > 8)); [| by eexists].
    destruct (decide (find (slice_from (mp_payload pkt) 4) NUL 0 > 0));
      [| by eexists].
    destruct (unpack_f_ok (slice_from (slice_from (mp_payload pkt) 4) (-4)))
      as [v Hv].
    + assert (len (slice_from (mp_payload pkt) 4) = len (mp_payload pkt) - 4)
        as Hrest by (unfold slice_from; apply slice_len; lia).
      unfold slice_from at 1. rewrite Hrest.
      unfold slice, clamp_index. rewrite Hrest.
      repeat case_decide; try lia.
      unfold len in *. rewrite length_take, length_drop. lia.
    + rewrite Hv. by eexists.
  - destruct (decide (mp_type pkt = str_of "JM")).
    + destruct (decide (len (mp_payload pkt) > 8)); [| by eexists].
      destruct (unpack_I_ok (slice (mp_payload pkt) 4 8)) as [jl Hjl].
      * rewrite slice_len by lia. lia.
      * rewrite Hjl. by eexists.
    + destruct (decide (mp_type pkt = str_of "KA")); by eexists.
Qed.

(** X15.  Complete frames followed by a strict prefix of one more frame:
    one pass of the receiver prints what each complete frame gives, in
    order, and keeps exactly the unfinished bytes in the buffer. *)
Theorem receiver_pass_stream (items : list (bytes * bytes))
    (frames : list bytes) (ptype payload frame : bytes) (k : nat) :
  Forall2 (λ item frame,
             len item.1 = 2 ∧ monitor.build_packet item.1 item.2 = Ok frame)
          items frames →
  len ptype = 2 → monitor.build_packet ptype payload = Ok frame →
  (k < length frame)%nat →
  ∃ outs,
    Forall2 (λ item out,
               monitor.receiver_print
                 (MPacket (decode_ascii_replace item.1)
                    (2 + len item.2) item.2) = Ok out)
            items outs ∧
    monitor.receiver_pass (concat frames ++ take k frame)
      = Ok (concat outs, take k frame).
Proof.
  intros Hall Hty Hb Hk. rewrite monitor_build_packet_2 in Hb by done.
  assert (∃ outs, Forall2 (λ item out,
               monitor.receiver_print
                 (MPacket (decode_ascii_replace item.1)
                    (2 + len item.2) item.2) = Ok out) items outs)
    as [outs Houts].
  { clear Hall. induction items as [|item items [outs IH]]; [by exists [] |].
    destruct (receiver_print_total
                (MPacket (decode_ascii_replace item.1)
                   (2 + len item.2) item.2)) as [out Hout].
    exists (out :: outs). by constructor. }
  exists outs. split; [done |].
  unfold monitor.receiver_pass.
  pose proof (receiver_loop_frames monitor.receiver_print [] items frames
                (take k frame) outs (λ pre', len pre')) as Hloop.
  cbn [app] in Hloop. change (len []) with 0 in Hloop.
  rewrite Hloop.
  - cbn. by rewrite slice_from_app.
  - eapply Forall2_impl; [exact Hall |]. intros item fr [Hi Hf].
    split; [done |]. by rewrite <- monitor_build_packet_2.
  - done.
  - intros pre'. by apply (receiver_loop_partial _ pre' ptype payload).
Qed.

End monitor_receiver.

Lemma receiver_pass_stream_witness :
  ∃ outs,
    Forall2 (λ item out,
               @monitor.receiver_print bits_runtime
                 (MPacket (decode_ascii_replace item.1)
                    (2 + len item.2) item.2) = Ok out)
            [(TYPE_KA, []); (TYPE_PV, slice_from PV_CLIENT_FRAME 8)] outs ∧
    @monitor.receiver_pass bits_runtime
        (concat [KA_FRAME; PV_CLIENT_FRAME] ++ take 9 PV_SESSION_FRAME)
      = Ok (concat outs, take 9 PV_SESSION_FRAME).
Proof.
  apply (@receiver_pass_stream bits_runtime
           [(TYPE_KA, []); (TYPE_PV, slice_from PV_CLIENT_FRAME 8)]
           [KA_FRAME; PV_CLIENT_FRAME]
           TYPE_PV (slice_from PV_SESSION_FRAME 8) PV_SESSION_FRAME 9).
  - repeat constructor.
  - reflexivity.
  - reflexivity.
  - vm_compute. lia.
Defined.

(** A buffer without magic: the loop moves on byte by byte while at least
    eight bytes remain. *)
Lemma receiver_loop_magic_free {A : Type} (handle : mpacket → result (list A))
    buffer offset :
  find buffer MAGIC 0 = -1 → 0 ≤ offset →
  monitor.receiver_loop handle buffer offset
    = Ok ([], Z.max offset (len buffer - 7)).
Proof.
  intros Hfree. pose proof (find_none _ _ Hfree) as Hno.
  remember (Z.to_nat (len buffer - 7 - offset)) as n eqn:Hn.
  revert offset Hn. induction n as [|n IH]; intros offset Hn Hoff;
    rewrite receiver_loop_eq; unfold monitor.receiver_step, parse_packet.
  - case_decide; [| do 2 f_equal; lia].
    rewrite decide_True by lia. cbn. rewrite decide_True by done.
    do 2 f_equal. lia.
  - rewrite decide_True by lia. rewrite decide_False by lia.
    rewrite decide_True; cycle 1.
    { intros Hm. specialize (Hno (Z.to_nat offset)).
      rewrite slice_take_drop in Hm by lia.
      assert (starts_with MAGIC (drop (Z.to_nat offset) buffer) = true)
        as Hs; [| congruence].
      apply starts_with_prefix. rewrite <- Hm. apply prefix_take. }
    cbn. rewrite decide_False by lia.
    rewrite IH by lia. do 2 f_equal. lia.
Qed.

Section monitor_receiver_more.
Context `{PyRuntime}.

(** X16.  Given a buffer without magic, one pass of the receiver prints
    nothing and keeps the last seven bytes (the whole buffer when it is
    shorter): whatever may still become a frame header once more bytes
    arrive is kept. *)
Theorem receiver_pass_keeps_tail (buffer : bytes) :
  find buffer MAGIC 0 = -1 →
  monitor.receiver_pass buffer
    = Ok ([], slice_from buffer (Z.max 0 (len buffer - 7))).
Proof.
  intros Hfree. unfold monitor.receiver_pass.
  by rewrite (receiver_loop_magic_free _ buffer 0 Hfree).
Qed.

End monitor_receiver_more.

Lemma receiver_pass_keeps_tail_witness :
  @monitor.receiver_pass bits_runtime
      (bytes_of "garbage" ++ [Byte.x55; Byte.x43; Byte.x00])
    = Ok ([], slice_from (bytes_of "garbage" ++ [Byte.x55; Byte.x43; Byte.x00])
                (Z.max 0 (len (bytes_of "garbage"
                                 ++ [Byte.x55; Byte.x43; Byte.x00]) - 7))).
Proof.
  apply (@receiver_pass_keeps_tail bits_runtime
           (bytes_of "garbage" ++ [Byte.x55; Byte.x43; Byte.x00])).
  vm_compute. reflexivity.
Defined.

(** Leading bytes without magic are stepped over one by one. *)
Lemma receiver_loop_skip {A : Type} (handle : mpacket → result (list A))
    (g rest : bytes) offset :
  find g MAGIC 0 = -1 → 0 ≤ offset ≤ len g → 4 ≤ len rest →
  monitor.receiver_loop handle (g ++ MAGIC ++ rest) offset
    = monitor.receiver_loop handle (g ++ MAGIC ++ rest) (len g).
Proof.
  intros Hfree Hoff Hrest. pose proof (find_none _ _ Hfree) as Hno.
  remember (Z.to_nat (len g - offset)) as n eqn:Hn.
  revert offset Hn Hoff. induction n as [|n IH]; intros offset Hn Hoff.
  { by replace offset with (len g) by lia. }
  assert (len MAGIC = 4) as Hm by done.
  rewrite receiver_loop_eq. unfold monitor.receiver_step, parse_packet.
  rewrite !len_app, Hm.
  rewrite decide_True by lia. rewrite decide_False by lia.
  rewrite decide_True; cycle 1.
  { intros Hs.
    rewrite slice_take_drop in Hs by (rewrite ?len_app, ?Hm; lia).
    assert (starts_with MAGIC (drop (Z.to_nat offset) (g ++ MAGIC ++ rest))
            = true) as Hst.
    { apply starts_with_prefix.
      pose proof (prefix_take (drop (Z.to_nat offset) (g ++ MAGIC ++ rest))
                    (Z.to_nat (offset + 4 - offset))) as Hp.
      by rewrite Hs in Hp. }
    rewrite drop_app_le in Hst by (unfold len in *; lia).
    rewrite magic_no_straddle in Hst; [done | | apply Hno].
    intros Hnil. apply (f_equal length) in Hnil.
    rewrite length_drop in Hnil. unfold len in *. simpl in Hnil. lia. }
  cbn. rewrite decide_False by lia. apply IH; lia.
Qed.

Lemma receiver_loop_end {A : Type} (handle : mpacket → result (list A))
    (pre : bytes) :
  monitor.receiver_loop handle (pre ++ []) (len pre) = Ok ([], len pre).
Proof.
  rewrite receiver_loop_eq. unfold monitor.receiver_step.
  by rewrite app_nil_r, decide_False by lia.
Qed.

Section monitor_round_trip.
Context `{PyRuntime}.

(** X17.  The receiver resynchronises: leading bytes without magic,
    followed by one complete frame, are passed over, the frame is printed,
    and the buffer is left empty. *)
Theorem receiver_pass_skips_leading_bytes (g ptype payload frame : bytes) :
  find g MAGIC 0 = -1 → len ptype = 2 →
  monitor.build_packet ptype payload = Ok frame →
  ∃ out,
    monitor.receiver_print
      (MPacket (decode_ascii_replace ptype) (2 + len payload) payload)
      = Ok out ∧
    monitor.receiver_pass (g ++ frame) = Ok (out, []).
Proof.
  intros Hfree Hty Hb. rewrite monitor_build_packet_2 in Hb by done.
  destruct (receiver_print_total
              (MPacket (decode_ascii_replace ptype) (2 + len payload) payload))
    as [out Hout].
  exists out. split; [done |].
  pose proof (len_nonneg g). pose proof (len_nonneg payload).
  pose proof (build_packet_len _ _ _ Hb Hty) as Hlen.
  pose proof (receiver_loop_frames monitor.receiver_print g
                [(ptype, payload)] [frame] [] [out] (λ pre', len pre'))
    as Hloop.
  cbn [concat] in Hloop. rewrite !app_nil_r in Hloop.
  unfold monitor.receiver_pass.
  assert (monitor.receiver_loop monitor.receiver_print (g ++ frame) 0
          = monitor.receiver_loop monitor.receiver_print (g ++ frame) (len g))
    as ->.
  { destruct (build_packet_eq _ _ _ Hb) as (size & Hsz & ->).
    apply unpack_pack_H in Hsz as [_ Hsl].
    apply receiver_loop_skip; [done | lia |].
    rewrite !len_app. lia. }
  rewrite Hloop.
  - cbn [mbind result_bind mret result_ret fst snd concat].
    by rewrite slice_from_all, ?app_nil_r.
  - by repeat constructor.
  - by repeat constructor.
  - intros pre'. apply receiver_loop_end.
Qed.

(** What the receiver prints for the payload [build_param_pv] builds. *)
Lemma receiver_print_pv (path : str) (vb : bytes) (v : pyfloat) size :
  path ≠ [] → Forall (λ c, 0 < c < 128) path →
  len vb = 4 → unpack_f vb = Ok v →
  monitor.receiver_print
    (MPacket (decode_ascii_replace TYPE_PV) size
       ([Byte.x75; Byte.x00; Byte.x68; Byte.x00]
          ++ ((byte_of <$> path) ++ [Byte.x00; Byte.x00; Byte.x00]) ++ vb))
    = Ok [monitor.RxPV "u->h" path v].
Proof.
  intros Hne Hpath Hvb Hv.
  set (dir := [Byte.x75; Byte.x00; Byte.x68; Byte.x00]).
  set (rest := ((byte_of <$> path) ++ [Byte.x00; Byte.x00; Byte.x00]) ++ vb).
  assert (0 < len path) as Hlp.
  { destruct path; [done |]. unfold len. simpl. lia. }
  unfold monitor.receiver_print. cbn [mp_type mp_payload].
  rewrite decide_True by reflexivity.
  rewrite decide_True; cycle 1.
  { unfold rest. rewrite !len_app, len_fmap, Hvb.
    unfold len. simpl. lia. }
  cbv zeta.
  assert (slice_to (dir ++ rest) 4 = dir) as -> by apply (slice_to_app dir).
  assert (slice_from (dir ++ rest) 4 = rest) as ->
    by apply (slice_from_app dir).
  assert (rest = [] ++ (byte_of <$> path) ++ NUL ++ [Byte.x00; Byte.x00] ++ vb)
    as Hrest by (unfold rest; by rewrite <- app_assoc).
  assert (find rest NUL 0 = len path) as ->.
  { rewrite Hrest.
    rewrite (find_nul_terminated [] (byte_of <$> path)
               ([Byte.x00; Byte.x00] ++ vb))
      by by apply ascii_bytes_nul_free.
    rewrite len_fmap. done. }
  rewrite decide_True by lia.
  assert (slice_to rest (len path) = byte_of <$> path) as ->.
  { unfold rest. rewrite <- app_assoc.
    rewrite <- (len_fmap byte_of path). apply slice_to_app. }
  rewrite (decode_encode_ascii _ Hpath).
  assert (slice_from rest (-4) = vb) as ->.
  { unfold rest. replace (-4) with (- len vb) by lia.
    apply slice_from_suffix. lia. }
  rewrite Hv. cbn [mbind result_bind].
  by rewrite decide_False by done.
Qed.

(** X18.  What [build_param_pv] builds for a non-empty ASCII path is
    printed back by the receiver as that path with the value its four
    bytes decode to, in the direction [u->h], and leaves the buffer
    empty. *)
Theorem monitor_pv_round_trip (path : str) (value : pyfloat) (frame : bytes) :
  path ≠ [] → Forall (λ c, 0 < c < 128) path →
  monitor.build_param_pv path value = Ok frame →
  ∃ vb v', pack_f value = Ok vb ∧ unpack_f vb = Ok v' ∧
    monitor.receiver_pass frame = Ok ([monitor.RxPV "u->h" path v'], []).
Proof.
  intros Hne Hpath Hb. unfold monitor.build_param_pv in Hb.
  rewrite (encode_ascii_ok _ Hpath) in Hb. cbn [mbind result_bind] in Hb.
  destruct (pack_f value) as [vb|e] eqn:Hvb; [|done].
  cbn [mbind result_bind] in Hb.
  pose proof (pack_f_len _ _ Hvb) as Hlen.
  destruct (unpack_f_ok vb Hlen) as [v' Hv'].
  exists vb, v'. split; [done |]. split; [done |].
  rewrite monitor_build_packet_2 in Hb by done.
  pose proof (receiver_loop_frames monitor.receiver_print []
                [(TYPE_PV,
                  [Byte.x75; Byte.x00; Byte.x68; Byte.x00]
                    ++ ((byte_of <$> path)
                          ++ [Byte.x00; Byte.x00; Byte.x00]) ++ vb)]
                [frame] [] [[monitor.RxPV "u->h" path v']]
                (λ pre', len pre')) as Hloop.
  cbn [concat app] in Hloop. rewrite !app_nil_r in Hloop.
  unfold monitor.receiver_pass. change (len []) with 0 in Hloop.
  rewrite Hloop.
  - cbn [mbind result_bind mret result_ret fst snd concat app].
    by rewrite slice_from_all.
  - repeat constructor. exact Hb.
  - repeat constructor. cbn [fst snd]. by apply receiver_print_pv.
  - intros pre'. apply receiver_loop_end.
Qed.

End monitor_round_trip.

Lemma receiver_pass_skips_leading_bytes_witness :
  ∃ out,
    @monitor.receiver_print bits_runtime
      (MPacket (decode_ascii_replace TYPE_KA) (2 + len (@nil byte)) [])
      = Ok out ∧
    @monitor.receiver_pass bits_runtime (bytes_of "junk" ++ KA_FRAME)
      = Ok (out, []).
Proof.
  apply (@receiver_pass_skips_leading_bytes bits_runtime
           (bytes_of "junk") TYPE_KA [] KA_FRAME).
  - vm_compute. reflexivity.
  - reflexivity.
  - reflexivity.
Defined.

Lemma monitor_pv_round_trip_witness :
  ∃ vb v', @pack_f bits_runtime 1056964608 = Ok vb ∧
    @unpack_f bits_runtime vb = Ok v' ∧
    @monitor.receiver_pass bits_runtime MAIN_VOLUME_FRAME
      = Ok ([@monitor.RxPV bits_runtime "u->h"
               (str_of "global/mainOutVolume") v'], []).
Proof.
  apply (@monitor_pv_round_trip bits_runtime (str_of "global/mainOutVolume")
           1056964608 MAIN_VOLUME_FRAME).
  - discriminate.
  - apply (bool_decide_unpack _). vm_compute. exact I.
  - reflexivity.
Defined.

(** ** The session token: when the default is kept *)

Lemma scan_back_none state i0 n session :
  (∀ j, i0 - Z.of_nat n < j ≤ i0 → ¬ json_header_at state j) →
  scan_back state i0 n session = session.
Proof.
  revert i0. induction n as [|n IH]; intros i0 Hno; [done |]. simpl.
  rewrite decide_False by (apply Hno; lia).
  apply IH. intros j Hj. apply Hno. lia.
Qed.

(** X19.  The default token [65 00 6a 00] is kept whenever no JM header
    begins at one of the offsets the backward search visits: the offsets
    [idx], [idx-1], ... down to [max(0, idx-50) + 1], where [idx] is where
    [SubscriptionReply] is found.  Offset 0 is never visited, so a reply
    frame that is the very first thing received does not give its token;
    nor does any reply when [SubscriptionReply] is absent. *)
Theorem session_cbytes_default (state : bytes) :
  (∀ i, 0 < i →
        find state SUBSCRIPTION_REPLY 0 - 50 < i
          ≤ find state SUBSCRIPTION_REPLY 0 →
        ¬ json_header_at state i) →
  session_cbytes state = DEFAULT_SESSION_CBYTES.
Proof.
  intros Hno. unfold session_cbytes.
  case_decide; [|done].
  apply scan_back_none. intros j Hj. apply Hno; lia.
Qed.

Lemma session_cbytes_default_witness :
  session_cbytes REPLY_FIRST_STATE = DEFAULT_SESSION_CBYTES.
Proof.
  apply (session_cbytes_default REPLY_FIRST_STATE).
  assert (find REPLY_FIRST_STATE SUBSCRIPTION_REPLY 0 = 24) as ->
    by (vm_compute; reflexivity).
  intros i Hpos Hi.
  assert (i ∈ seqZ 1 24) as Hin by (apply elem_of_seqZ; lia).
  clear Hpos Hi. revert i Hin. apply Forall_forall.
  apply (bool_decide_unpack _). vm_compute. exact I.
Defined.

(** ** JSON frames: the length prefix *)

Section json_length.
Context `{PyRuntime}.

(** X20.  A JM payload laid out as the builders do, four token bytes, the
    length of the JSON text as [struct.pack('<I', ...)] and the text, is
    read back as exactly that text, whatever follows it in the payload:
    the lenient reader decodes it with replacement, the strict one
    decodes it or reports a decode error. *)
Theorem jm_length_prefix_round_trip (tok lenb json extra : bytes) :
  len tok = 4 → json ≠ [] → pack_I (len json) = Ok lenb →
  let payload := tok ++ lenb ++ json ++ extra in
  jm_json_text payload = Ok (Some (decode_utf8_replace json)) ∧
  jm_json_line payload
    = Ok (Some (match decode_utf8 json with
                | Ok s => JsonLine s
                | Raise _ => DecodeErrorLine
                end)).
Proof.
  intros Htok Hne Hpack payload.
  apply unpack_pack_I in Hpack as [Hun Hlen].
  assert (0 < len json) as Hj.
  { destruct json; [done |]. unfold len. simpl. lia. }
  pose proof (len_nonneg extra).
  assert (len payload > 8) as Hlp
    by (unfold payload; rewrite !len_app; lia).
  assert (slice payload 4 8 = lenb) as Hs1.
  { apply (slice_mid_eq _ tok lenb (json ++ extra)); (done || lia). }
  assert (slice payload 8 (8 + len json) = json) as Hs2.
  { apply (slice_mid_eq _ (tok ++ lenb) json extra).
    - unfold payload. by rewrite <- app_assoc.
    - rewrite len_app. lia.
    - rewrite len_app. lia. }
  unfold jm_json_text, jm_json_line.
  rewrite !decide_True by done.
  rewrite Hs1, Hun. cbn [mbind result_bind mret result_ret].
  by rewrite Hs2.
Qed.

End json_length.

Lemma jm_length_prefix_round_trip_witness :
  let payload :=
    REPLY_TOKEN ++ [Byte.x1b; Byte.x00; Byte.x00; Byte.x00]
      ++ REPLY_JSON ++ bytes_of "trailing" in
  @jm_json_text bits_runtime payload
    = Ok (Some (@decode_utf8_replace bits_runtime REPLY_JSON)) ∧
  @jm_json_line bits_runtime payload
    = Ok (Some (match @decode_utf8 bits_runtime REPLY_JSON with
                | Ok s => JsonLine s
                | Raise _ => DecodeErrorLine
                end)).
Proof.
  apply (@jm_length_prefix_round_trip bits_runtime REPLY_TOKEN
           [Byte.x1b; Byte.x00; Byte.x00; Byte.x00] REPLY_JSON
           (bytes_of "trailing")).
  - reflexivity.
  - discriminate.
  - reflexivity.
Defined.

(** ** [_handle_packet] of test_ucdaemon_control.py *)

Lemma slice_from_last4 (l : bytes) : 4 ≤ len l → len (slice_from l (-4)) = 4.
Proof.
  intros Hl. unfold slice_from, slice, clamp_index.
  repeat case_decide; try lia.
  unfold len in *. rewrite length_take, length_drop. lia.
Qed.

Section handle_packet_thms.
Context `{PyRuntime}.

(** X22.  [_handle_packet] never raises, whatever the packet: the value is
    only unpacked once the guards have made sure that four bytes are
    there.  So no packet can end the receive thread through the handler. *)
Theorem handle_packet_never_raises (pkt : upacket) :
  ∃ out, handle_packet pkt = Ok out.
Proof.
  unfold handle_packet.
  destruct (decide (up_type_str pkt = str_of "KA")); [by eexists |].
  destruct (decide (up_type_str pkt = str_of "PV")); [| by eexists].
  destruct (decide (len (up_payload pkt) > 4)); [| by eexists].
  destruct (decide (find (slice_from (up_payload pkt) 4) NUL 0 > 0));
    [| by eexists].
  destruct (decide (len (slice_from (up_payload pkt) 4)
                    >= find (slice_from (up_payload pkt) 4) NUL 0 + 5));
    [| by eexists].
  destruct (unpack_f_ok (slice_from (slice_from (up_payload pkt) 4) (-4)))
    as [v Hv]; [apply slice_from_last4; lia |].
  cbv zeta. rewrite Hv. by eexists.
Qed.

(** X21.  The frame [set_parameter] writes for a non-empty ASCII path, if
    it comes back on the socket, is delimited by the receive loop and
    printed by [_handle_packet] as a parameter value from client to
    daemon, with the path bytes decoded and the value its four bytes
    decode to. *)
Theorem parameter_packet_handled (path : str) (value : pyfloat)
    (frame : bytes) :
  path ≠ [] → Forall (λ c, 0 < c < 128) path →
  build_parameter_packet path value = Ok frame →
  ∃ vb v' pkt, pack_f value = Ok vb ∧ unpack_f vb = Ok v' ∧
    recv_drain frame = Ok ([pkt], []) ∧
    handle_packet pkt
      = Ok [HandledPV "client→daemon"
              (decode_utf8_replace (byte_of <$> path)) v'].
Proof.
  intros Hne Hpath Hb. unfold build_parameter_packet in Hb.
  rewrite (encode_ascii_ok _ Hpath) in Hb. cbn [mbind result_bind] in Hb.
  destruct (pack_f value) as [vb|e] eqn:Hvb; [|done].
  cbn [mbind result_bind] in Hb.
  pose proof (pack_f_len _ _ Hvb) as Hlen.
  destruct (unpack_f_ok vb Hlen) as [v' Hv'].
  rewrite build_ucnet_packet_2 in Hb by done.
  set (rest := ((byte_of <$> path) ++ NUL) ++ [Byte.x00; Byte.x00] ++ vb)
    in *.
  exists vb, v',
    (UPacket (2 + len (DIR_CLIENT_TO_DAEMON ++ rest)) TYPE_PV
       (decode_ascii_replace TYPE_PV) (DIR_CLIENT_TO_DAEMON ++ rest)).
  split; [done |]. split; [done |].
  split; [by apply recv_drain_frame |].
  assert (0 < len path) as Hlp.
  { destruct path; [done |]. unfold len. simpl. lia. }
  assert (len rest = len path + 7) as Hlr.
  { unfold rest. rewrite !len_app, len_fmap, Hlen. unfold len. simpl. lia. }
  unfold handle_packet. cbn [up_type_str up_payload]. cbv zeta.
  rewrite decide_False by done.
  rewrite decide_True by reflexivity.
  rewrite decide_True by (rewrite len_app; unfold len in *; simpl; lia).
  assert (slice_to (DIR_CLIENT_TO_DAEMON ++ rest) 4 = DIR_CLIENT_TO_DAEMON)
    as -> by apply (slice_to_app DIR_CLIENT_TO_DAEMON).
  assert (slice_from (DIR_CLIENT_TO_DAEMON ++ rest) 4 = rest) as ->
    by apply (slice_from_app DIR_CLIENT_TO_DAEMON).
  assert (find rest NUL 0 = len path) as ->.
  { pose proof (find_nul_terminated [] (byte_of <$> path)
                  ([Byte.x00; Byte.x00] ++ vb)
                  (ascii_bytes_nul_free _ Hpath)) as Hf.
    rewrite len_fmap in Hf. unfold rest. rewrite <- app_assoc. exact Hf. }
  rewrite decide_True by lia.
  rewrite decide_True by lia.
  assert (slice_to rest (len path) = byte_of <$> path) as ->.
  { unfold rest. rewrite <- app_assoc.
    rewrite <- (len_fmap byte_of path). apply slice_to_app. }
  assert (slice_from rest (-4) = vb) as ->.
  { unfold rest. rewrite app_assoc. replace (-4) with (- len vb) by lia.
    apply slice_from_suffix. lia. }
  rewrite Hv'. cbn [mbind result_bind].
  by rewrite decide_False by done.
Qed.

End handle_packet_thms.

Lemma parameter_packet_handled_witness :
  ∃ vb v' pkt, @pack_f bits_runtime 1056964608 = Ok vb ∧
    @unpack_f bits_runtime vb = Ok v' ∧
    recv_drain MAIN_VOLUME_FRAME = Ok ([pkt], []) ∧
    @handle_packet bits_runtime pkt
      = Ok [@HandledPV bits_runtime "client→daemon"
              (@decode_utf8_replace bits_runtime
                 (byte_of <$> str_of "global/mainOutVolume")) v'].
Proof.
  apply (@parameter_packet_handled bits_runtime
           (str_of "global/mainOutVolume") 1056964608 MAIN_VOLUME_FRAME).
  - discriminate.
  - apply (bool_decide_unpack _). vm_compute. exact I.
  - reflexivity.
Defined.

(** ** [decompress_zb] *)

Section decompress_thms.
Variable zlib_decompress : bytes → option bytes.

Lemma decompress_zb_from_first payload i0 n i d :
  i0 ≤ i < i0 + Z.of_nat n →
  zlib_header_at payload i →
  zlib_decompress (slice_from payload i) = Some d →
  (∀ j, i0 ≤ j < i → zlib_header_at payload j →
        zlib_decompress (slice_from payload j) = None) →
  decompress_zb_from zlib_decompress payload i0 n = d.
Proof.
  revert i0. induction n as [|n IH]; intros i0 Hi Hh Hd Hbefore; [lia |].
  simpl. destruct (decide (i0 = i)) as [->|Hne].
  - rewrite decide_True by done. by rewrite Hd.
  - assert (decompress_zb_from zlib_decompress payload (i0 + 1) n = d) as Hrec.
    { apply IH; [lia | done | done |]. intros j Hj. apply Hbefore. lia. }
    case_decide as Hh0; [| done].
    by rewrite (Hbefore i0 ltac:(lia) Hh0).
Qed.

Lemma decompress_zb_from_none payload i0 n :
  (∀ j, i0 ≤ j < i0 + Z.of_nat n → zlib_header_at payload j →
        zlib_decompress (slice_from payload j) = None) →
  decompress_zb_from zlib_decompress payload i0 n = [].
Proof.
  revert i0. induction n as [|n IH]; intros i0 Hno; [done |]. simpl.
  assert (decompress_zb_from zlib_decompress payload (i0 + 1) n = []) as Hrec.
  { apply IH. intros j Hj. apply Hno. lia. }
  case_decide as Hh0; [| done].
  by rewrite (Hno i0 ltac:(lia) Hh0).
Qed.

(** X23.  [decompress_zb] returns the decompression of the payload from
    the first index that both carries one of the three zlib headers and
    decompresses without error; earlier header look-alikes that fail are
    passed over.  Only the indices below [len(payload) - 2] are tried. *)
Theorem decompress_zb_first_stream (payload : bytes) (i : Z) (d : bytes) :
  0 ≤ i < len payload - 2 →
  zlib_header_at payload i →
  zlib_decompress (slice_from payload i) = Some d →
  (∀ j, 0 ≤ j < i → zlib_header_at payload j →
        zlib_decompress (slice_from payload j) = None) →
  decompress_zb zlib_decompress payload = d.
Proof.
  intros Hi Hh Hd Hbefore. unfold decompress_zb.
  apply (decompress_zb_from_first payload 0 _ i); (done || lia).
Qed.

(** X24.  When no index below [len(payload) - 2] carries a zlib header
    from which the payload decompresses, [decompress_zb] returns [b'']:
    no error escapes, and a stream that begins in the last two bytes is
    not tried. *)
Theorem decompress_zb_no_stream (payload : bytes) :
  (∀ j, 0 ≤ j < len payload - 2 → zlib_header_at payload j →
        zlib_decompress (slice_from payload j) = None) →
  decompress_zb zlib_decompress payload = [].
Proof.
  intros Hno. unfold decompress_zb. apply decompress_zb_from_none.
  intros j Hj. apply Hno. lia.
Qed.

End decompress_thms.

Lemma decompress_zb_first_stream_witness :
  decompress_zb toy_zlib ZB_PAYLOAD = bytes_of "main/ch1".
Proof.
  apply (decompress_zb_first_stream toy_zlib ZB_PAYLOAD 7
           (bytes_of "main/ch1")).
  - vm_compute. split; [discriminate | reflexivity].
  - apply (bool_decide_unpack _). vm_compute. exact I.
  - vm_compute. reflexivity.
  - intros j Hj _.
    assert (j ∈ seqZ 0 7) as Hin by (apply elem_of_seqZ; lia).
    clear Hj. revert j Hin. apply Forall_forall.
    apply (bool_decide_unpack _). vm_compute. exact I.
Defined.

Lemma decompress_zb_no_stream_witness :
  decompress_zb toy_zlib (UC_CBYTES ++ [Byte.x78; Byte.x01; Byte.x00]) = [].
Proof.
  apply (decompress_zb_no_stream toy_zlib
           (UC_CBYTES ++ [Byte.x78; Byte.x01; Byte.x00])).
  intros j Hj _.
  assert (j ∈ seqZ 0 5) as Hin.
  { apply elem_of_seqZ. revert Hj. vm_compute. intros [H1 H2].
    split; [exact H1 |]. destruct j; try done. }
  clear Hj. revert j Hin. apply Forall_forall.
  apply (bool_decide_unpack _). vm_compute. exact I.
Defined.

(** ** The scan of dump_state.py *)

Lemma dump_build_packet_2 ptype payload :
  len ptype = 2 →
  dump_state.build_packet ptype payload = build_packet ptype payload.
Proof.
  intros Hty. unfold dump_state.build_packet, build_packet. by rewrite Hty.
Qed.

Lemma unpack_H_short b : len b ≠ 2 → unpack_H b = Raise StructError.
Proof.
  destruct b as [|b0 [|b1 [|b2 b]]]; unfold len; simpl; try done; lia.
Qed.

(** A frame reached by the scan at the position where it begins. *)
Lemma dump_step_frame pre ptype payload frame post :
  build_packet ptype payload = Ok frame → len ptype = 2 →
  dump_state.dump_step (pre ++ frame ++ post) (len pre) =
    Produce (RawFrame (len pre) (2 + len payload) ptype payload)
            (len pre + len frame).
Proof.
  intros Hb Hty.
  pose proof (build_packet_len _ _ _ Hb Hty) as Hlen.
  apply build_packet_eq in Hb as (size & Hsz & Hframe).
  apply unpack_pack_H in Hsz as [Hun Hsl].
  pose proof (len_nonneg payload). pose proof (len_nonneg post).
  pose proof (len_nonneg pre).
  assert (len MAGIC = 4) as Hm by done.
  assert (pre ++ frame ++ post
          = pre ++ MAGIC ++ size ++ ptype ++ payload ++ post) as Hdata
    by (by rewrite Hframe, <- !app_assoc).
  unfold dump_state.dump_step. rewrite !len_app.
  rewrite decide_True by lia.
  rewrite (slice_mid_eq (pre ++ frame ++ post) pre MAGIC
             (size ++ ptype ++ payload ++ post)
             (len pre) (len pre + 4)) by (done || lia).
  rewrite decide_False by (by intros Hc; apply Hc).
  rewrite (slice_mid_eq (pre ++ frame ++ post) (pre ++ MAGIC) size
             (ptype ++ payload ++ post)
             (len pre + 4) (len pre + 6))
    by (rewrite ?len_app, <- ?app_assoc; (done || lia)).
  rewrite Hun. cbv zeta.
  rewrite (slice_mid_eq (pre ++ frame ++ post) (pre ++ MAGIC ++ size) ptype
             (payload ++ post)
             (len pre + 6) (len pre + 8))
    by (rewrite ?len_app, <- ?app_assoc; (done || lia)).
  rewrite (slice_mid_eq (pre ++ frame ++ post)
             (pre ++ MAGIC ++ size ++ ptype) payload post
             (len pre + 8) (len pre + 6 + (2 + len payload)))
    by (rewrite ?len_app, <- ?app_assoc; (done || lia)).
  replace (len pre + len frame) with (len pre + 6 + (2 + len payload))
    by lia.
  done.
Qed.

Section dump_state_thms.
Context `{PyRuntime}.
Variable zlib_decompress : bytes → Z → option bytes.

Lemma dump_scan_eq all_data pos :
  dump_state.dump_scan zlib_decompress all_data pos =
    match dump_state.dump_step all_data pos with
    | Break => Ok []
    | Throw e => Raise e
    | Continue pos' => dump_state.dump_scan zlib_decompress all_data pos'
    | Produce f pos' =>
        out ← dump_state.dump_print zlib_decompress f;
        rest ← dump_state.dump_scan zlib_decompress all_data pos';
        mret (out ++ rest)
    end.
Proof.
  simp dump_scan. unfold inspect.
  generalize (@eq_refl _ (dump_state.dump_step all_data pos)).
  generalize (dump_state.dump_step all_data pos) at 2 4 5.
  intros s Hs. destruct s; simp dump_scan; reflexivity.
Qed.

(** Printing a frame raises only for a ZM frame whose payload has fewer
    than eight bytes. *)
Lemma dump_print_ok idx size ptype payload :
  ptype ≠ dump_state.TYPE_ZM ∨ 8 ≤ len payload →
  ∃ out,
    dump_state.dump_print zlib_decompress (RawFrame idx size ptype payload)
      = Ok out ∧
    head out = Some (dump_state.DPacket (decode_ascii_replace ptype) size).
Proof.
  intros Hok. unfold dump_state.dump_print. cbn [rf_ptype rf_payload rf_size].
  destruct (decide (ptype = dump_state.TYPE_ZM)) as [Hzm|Hzm].
  - destruct Hok as [? | Hlen]; [done |].
    destruct (unpack_I_ok (slice payload 4 8)) as [n Hn].
    { rewrite slice_len by lia. lia. }
    rewrite Hn. by eexists.
  - destruct (decide (ptype = TYPE_JSON)); [| by eexists].
    unfold jm_json_text. case_decide; [| by eexists].
    destruct (unpack_I_ok (slice payload 4 8)) as [n Hn].
    { rewrite slice_len by lia. lia. }
    rewrite Hn. by eexists.
Qed.

(** Complete frames, each of which prints without error, followed by
    anything: the scan prints them in order and goes on after them. *)
Lemma dump_scan_frames pre (items : list (bytes * bytes))
    (frames : list bytes) tail :
  Forall2 (λ item frame,
             len item.1 = 2 ∧ build_packet item.1 item.2 = Ok frame)
          items frames →
  Forall (λ item, item.1 ≠ dump_state.TYPE_ZM ∨ 8 ≤ len item.2) items →
  ∃ outs,
    Forall2 (λ item out,
               (∀ idx, dump_state.dump_print zlib_decompress
                         (RawFrame idx (2 + len item.2) item.1 item.2)
                       = Ok out) ∧
               head out = Some (dump_state.DPacket
                                  (decode_ascii_replace item.1)
                                  (2 + len item.2)))
            items outs ∧
    dump_state.dump_scan zlib_decompress
        (pre ++ concat frames ++ tail) (len pre)
      = (rest ← dump_state.dump_scan zlib_decompress
                  (pre ++ concat frames ++ tail)
                  (len pre + len (concat frames));
         mret (concat outs ++ rest)).
Proof.
  intros Hall. revert pre.
  induction Hall as [|[ptype payload] frame items frames [Hty Hb] Hall IH];
    intros pre Hok.
  - exists []. split; [constructor |]. cbn [concat app].
    change (len []) with 0. rewrite Z.add_0_r.
    by destruct (dump_state.dump_scan _ _ _).
  - apply Forall_cons in Hok as [Hok1 Hok].
    simpl in Hty, Hb, Hok1.
    destruct (IH (pre ++ frame) Hok) as (outs & Houts & Hscan).
    assert (∃ out, (∀ idx, dump_state.dump_print zlib_decompress
                             (RawFrame idx (2 + len payload) ptype payload)
                           = Ok out) ∧
                   head out = Some (dump_state.DPacket
                                      (decode_ascii_replace ptype)
                                      (2 + len payload)))
      as (out & Hout & Hhead).
    { destruct (dump_print_ok 0 (2 + len payload) ptype payload Hok1)
        as (out & Hout & Hhead).
      exists out. split; [| done]. intros idx. exact Hout. }
    exists (out :: outs). split; [by constructor |].
    simpl concat. rewrite <- (app_assoc frame).
    rewrite dump_scan_eq.
    rewrite (dump_step_frame pre ptype payload frame _ Hb Hty).
    rewrite Hout. cbn [mbind result_bind].
    rewrite <- len_app.
    replace (pre ++ frame ++ concat frames ++ tail)
      with ((pre ++ frame) ++ concat frames ++ tail)
      by (by rewrite <- app_assoc).
    rewrite Hscan.
    replace (len pre + len (frame ++ concat frames))
      with (len (pre ++ frame) + len (concat frames))
      by (rewrite !len_app; lia).
    destruct (dump_state.dump_scan zlib_decompress
                ((pre ++ frame) ++ concat frames ++ tail)
                (len (pre ++ frame) + len (concat frames))) as [rest|e];
      [| reflexivity].
    cbn. by rewrite app_assoc.
Qed.

(** X25.  Run on a sequence of complete frames, the scan of dump_state.py
    prints every frame, in order, beginning each with its [Packet:] line,
    and ends normally: also the last frame when its payload is empty, and
    provided no ZM frame has a payload shorter than eight bytes. *)
Theorem dump_scan_stream (items : list (bytes * bytes))
    (frames : list bytes) :
  Forall2 (λ item frame,
             len item.1 = 2 ∧
             dump_state.build_packet item.1 item.2 = Ok frame)
          items frames →
  Forall (λ item, item.1 ≠ dump_state.TYPE_ZM ∨ 8 ≤ len item.2) items →
  ∃ outs,
    Forall2 (λ item out,
               (∀ idx, dump_state.dump_print zlib_decompress
                         (RawFrame idx (2 + len item.2) item.1 item.2)
                       = Ok out) ∧
               head out = Some (dump_state.DPacket
                                  (decode_ascii_replace item.1)
                                  (2 + len item.2)))
            items outs ∧
    dump_state.dump_scan zlib_decompress (concat frames) 0
      = Ok (concat outs).
Proof.
  intros Hall Hok.
  destruct (dump_scan_frames [] items frames []) as (outs & Houts & Hscan).
  { eapply Forall2_impl; [exact Hall |]. intros item fr [Hi Hf].
    split; [done |]. by rewrite <- dump_build_packet_2. }
  { done. }
  exists outs. split; [done |].
  cbn [app] in Hscan. rewrite app_nil_r in Hscan.
  change (len []) with 0 in Hscan. rewrite Z.add_0_l in Hscan.
  rewrite Hscan.
  rewrite (dump_scan_eq (concat frames) (len (concat frames))).
  unfold dump_state.dump_step. rewrite decide_False by lia.
  cbn. by rewrite app_nil_r.
Qed.

(** X26.  A capture that ends with a magic followed by fewer than two
    bytes makes the scan raise [struct.error] when it gets there: the size
    field is unpacked without a length check, and nothing catches the
    exception. *)
Theorem dump_scan_truncated_header (items : list (bytes * bytes))
    (frames : list bytes) (t : bytes) :
  Forall2 (λ item frame,
             len item.1 = 2 ∧
             dump_state.build_packet item.1 item.2 = Ok frame)
          items frames →
  Forall (λ item, item.1 ≠ dump_state.TYPE_ZM ∨ 8 ≤ len item.2) items →
  len t < 2 →
  dump_state.dump_scan zlib_decompress (concat frames ++ MAGIC ++ t) 0
    = Raise StructError.
Proof.
  intros Hall Hok Ht.
  destruct (dump_scan_frames [] items frames (MAGIC ++ t))
    as (outs & Houts & Hscan).
  { eapply Forall2_impl; [exact Hall |]. intros item fr [Hi Hf].
    split; [done |]. by rewrite <- dump_build_packet_2. }
  { done. }
  cbn [app] in Hscan.
  change (len []) with 0 in Hscan. rewrite Z.add_0_l in Hscan.
  rewrite Hscan.
  pose proof (len_nonneg (concat frames)). pose proof (len_nonneg t).
  assert (len MAGIC = 4) as Hm by done.
  rewrite dump_scan_eq. unfold dump_state.dump_step.
  rewrite !len_app. rewrite decide_True by lia.
  rewrite (slice_mid_eq (concat frames ++ MAGIC ++ t) (concat frames) MAGIC t
             (len (concat frames)) (len (concat frames) + 4))
    by (done || lia).
  rewrite decide_False by (by intros Hc; apply Hc).
  assert (slice (concat frames ++ MAGIC ++ t) (len (concat frames) + 4)
            (len (concat frames) + 6) = t) as ->.
  { rewrite app_assoc. rewrite <- (len_app (concat frames) MAGIC) at 1.
    apply slice_beyond_end. rewrite !len_app. lia. }
  rewrite unpack_H_short by lia. done.
Qed.

End dump_state_thms.

Lemma dump_scan_stream_witness :
  ∃ outs,
    Forall2 (λ item out,
               (∀ idx, @dump_state.dump_print bits_runtime no_zlib
                         (RawFrame idx (2 + len item.2) item.1 item.2)
                       = Ok out) ∧
               head out = Some (dump_state.DPacket
                                  (decode_ascii_replace item.1)
                                  (2 + len item.2)))
            [(TYPE_PV, slice_from PV_CLIENT_FRAME 8); (TYPE_KA, [])] outs ∧
    @dump_state.dump_scan bits_runtime no_zlib
        (concat [PV_CLIENT_FRAME; KA_FRAME]) 0
      = Ok (concat outs).
Proof.
  apply (@dump_scan_stream bits_runtime no_zlib
           [(TYPE_PV, slice_from PV_CLIENT_FRAME 8); (TYPE_KA, [])]
           [PV_CLIENT_FRAME; KA_FRAME]).
  - repeat constructor.
  - apply Forall_cons. split.
    { left. intros Hc. vm_compute in Hc. discriminate. }
    apply Forall_cons. split; [| constructor].
    left. intros Hc. vm_compute in Hc. discriminate.
Defined.

Lemma dump_scan_truncated_header_witness :
  @dump_state.dump_scan bits_runtime no_zlib
      (concat [KA_FRAME] ++ MAGIC ++ [Byte.x02]) 0
    = Raise StructError.
Proof.
  apply (@dump_scan_truncated_header bits_runtime no_zlib
           [(TYPE_KA, [])] [KA_FRAME] [Byte.x02]).
  - repeat constructor.
  - apply Forall_cons. split; [| constructor].
    left. intros Hc. vm_compute in Hc. discriminate.
  - vm_compute. reflexivity.
Defined.
